(** * Supply-chain reconciliation engine: model and properties

    A shallow embedding of the reconciliation core of the repository
    ([lib/data-service]: [parseCSV], [generateCsvContent], [cleanData],
    [identifyInconsistencies], [calculateDisruption], [consolidateData],
    [mergeAiFixesIntoSources], [proposeCleaningSteps], [processFiles]),
    of the collaborator call ([services/geminiService]:
    [getAiFixSuggestions]) and of the manual overrides of the application
    ([App]: [handleManualUpdate], [resultsWithOverrides]).

    Layout: the ECMAScript built-ins the code calls (module [JS]), the
    repository's functions, then the lemmas and the theorems.

    Modelling conventions
    - A JavaScript string is a [string] of code units; white space,
      digits and case mapping are those of the ASCII range.
    - A JavaScript number is a [number]: NaN, the infinities, negative
      zero, or a finite rational; arithmetic rounds to binary64
      ([round64]: nearest, ties to even, 53 bits, exponents -1074..971).
    - A row value is [undefined], [null], a number or a string (the
      row values of the data model, plus [undefined] for absent fields).
    - A row (a JavaScript object) is an association list in insertion
      order; [row_set] overwrites in place or appends, as assignment to
      a property does.  (Integer-like property names, which JavaScript
      enumerates first, are not reordered.)
    - A row holds the properties of its own.  What an object inherits
      from [Object.prototype] matters where the code takes a property
      name from the data: [build_row] follows the setter of [__proto__],
      [App.override_of] the inherited names, and the statement about
      [generateCsvContent] keeps to field names that are not inherited
      ([own_name]). *)

From Stdlib Require Import ZArith QArith Qround Qabs Lqa Lia Bool Ascii String List
  Sorted Permutation DecimalString DecimalN.
From stdpp Require Import gmap strings.

#[local] Open Scope string_scope.
#[local] Open Scope list_scope.
#[local] Open Scope Z_scope.

(* ================================================================== *)
(** * Part I.  ECMAScript built-ins used by the code                     *)
(* ================================================================== *)

Module JS.

(** ** Strings *)

(** [WhiteSpace] and [LineTerminator] code units of the ASCII range:
    TAB, LF, VT, FF, CR and SP. *)
Definition is_ws (c : ascii) : bool :=
  let n := N_of_ascii c in
  (((9 <=? n) && (n <=? 13)) || (n =? 32))%N.

Definition is_digit (c : ascii) : bool :=
  let n := N_of_ascii c in ((48 <=? n) && (n <=? 57))%N.

Definition is_lower (c : ascii) : bool :=
  let n := N_of_ascii c in ((97 <=? n) && (n <=? 122))%N.

Definition is_upper (c : ascii) : bool :=
  let n := N_of_ascii c in ((65 <=? n) && (n <=? 90))%N.

(** [\w] of a regular expression without the unicode flag. *)
Definition is_word (c : ascii) : bool :=
  is_digit c || is_lower c || is_upper c || Ascii.eqb c "_".

Definition upper_char (c : ascii) : ascii :=
  if is_lower c then ascii_of_N (N_of_ascii c - 32) else c.

Definition lower_char (c : ascii) : ascii :=
  if is_upper c then ascii_of_N (N_of_ascii c + 32) else c.

Fixpoint map_string (f : ascii -> ascii) (s : string) : string :=
  match s with
  | EmptyString => EmptyString
  | String c s' => String (f c) (map_string f s')
  end.

Definition toUpperCase : string -> string := map_string upper_char.
Definition toLowerCase : string -> string := map_string lower_char.

Fixpoint trimStart (s : string) : string :=
  match s with
  | String c s' => if is_ws c then trimStart s' else s
  | EmptyString => EmptyString
  end.

Fixpoint trimEnd (s : string) : string :=
  match s with
  | EmptyString => EmptyString
  | String c s' =>
      match trimEnd s' with
      | EmptyString => if is_ws c then EmptyString else String c EmptyString
      | t => String c t
      end
  end.

Definition trim (s : string) : string := trimEnd (trimStart s).

Fixpoint startsWith (p s : string) : bool :=
  match p, s with
  | EmptyString, _ => true
  | String a p', String b s' => Ascii.eqb a b && startsWith p' s'
  | String _ _, EmptyString => false
  end.

Fixpoint rev_string (s : string) : string :=
  match s with
  | EmptyString => EmptyString
  | String c s' => rev_string s' +:+ String c EmptyString
  end.

Definition endsWith (p s : string) : bool :=
  startsWith (rev_string p) (rev_string s).

(** [s.includes(p)] *)
Fixpoint includes (p s : string) : bool :=
  startsWith p s ||
  match s with
  | EmptyString => false
  | String _ s' => includes p s'
  end.

Fixpoint drop_string (n : nat) (s : string) : string :=
  match n, s with
  | O, _ => s
  | S n', String _ s' => drop_string n' s'
  | S _, EmptyString => EmptyString
  end.

Fixpoint take_string (n : nat) (s : string) : string :=
  match n, s with
  | O, _ => EmptyString
  | S n', String c s' => String c (take_string n' s')
  | S _, EmptyString => EmptyString
  end.

(** [s.slice(1, -1)] *)
Definition slice_1_m1 (s : string) : string :=
  take_string (String.length s - 2) (drop_string 1 s).

(** [s.split(c)] for a one-character separator: never an empty list. *)
Fixpoint split (c : ascii) (s : string) : list string :=
  match s with
  | EmptyString => [EmptyString]
  | String a s' =>
      if Ascii.eqb a c then EmptyString :: split c s'
      else match split c s' with
           | first :: rest => String a first :: rest
           | [] => [String a EmptyString]
           end
  end.

(** [a.join(sep)] on an array of strings. *)
Fixpoint join (sep : string) (l : list string) : string :=
  match l with
  | [] => EmptyString
  | [x] => x
  | x :: rest => x +:+ sep +:+ join sep rest
  end.

Definition LF : ascii := ascii_of_N 10.
Definition CR : ascii := ascii_of_N 13.

(** Removes one trailing CR, if there is one. *)
Fixpoint drop_final_CR (s : string) : string :=
  match s with
  | EmptyString => EmptyString
  | String c EmptyString => if Ascii.eqb c CR then EmptyString else s
  | String c s' => String c (drop_final_CR s')
  end.

Fixpoint map_but_last {A} (f : A -> A) (l : list A) : list A :=
  match l with
  | [] => []
  | [x] => [x]
  | x :: rest => f x :: map_but_last f rest
  end.

(** [s.split(/\r?\n/)]: the separator is a line feed together with the
    carriage return just before it, when there is one. *)
Definition split_lines (s : string) : list string :=
  map_but_last drop_final_CR (split LF s).

(** The leading run of characters satisfying [p], and the rest. *)
Fixpoint span (p : ascii -> bool) (s : string) : string * string :=
  match s with
  | String c s' =>
      if p c then let '(a, b) := span p s' in (String c a, b)
      else (EmptyString, s)
  | EmptyString => (EmptyString, EmptyString)
  end.

Fixpoint repeat_char (c : ascii) (n : nat) : string :=
  match n with
  | O => EmptyString
  | S n' => String c (repeat_char c n')
  end.

(** ** Decimal numerals *)

Definition N_to_string (n : N) : string :=
  NilEmpty.string_of_uint (N.to_uint n).

(** The value of a string of decimal digits (0 for the empty string). *)
Definition digits_value (ds : string) : Z :=
  match NilEmpty.uint_of_string ds with
  | Some d => Z.of_N (N.of_uint d)
  | None => 0
  end.

(** ** Numbers *)

(** A Number value.  [Fin q] with [q == 0] is +0; [NegZero] is -0. *)
Inductive number : Type :=
| NaN : number
| Inf (neg : bool) : number
| NegZero : number
| Fin (q : Q) : number.

(** floor (log2 (n/d)) for positive [n] and [d]. *)
Definition ilog2 (n d : Z) : Z :=
  let k := Z.log2 n - Z.log2 d in
  if (if 0 <=? k then d * 2 ^ k <=? n else d <=? n * 2 ^ (- k))
  then k else k - 1.

(** The integer nearest to [n/d] ([d] positive), ties to the even one. *)
Definition rne (n d : Z) : Z :=
  let q := n / d in
  let r := n mod d in
  match 2 * r ?= d with
  | Lt => q
  | Gt => q + 1
  | Eq => if Z.even q then q else q + 1
  end.

(** 2^e as a rational. *)
Definition pow2Q (e : Z) : Q :=
  if 0 <=? e then inject_Z (2 ^ e) else 1 # Z.to_pos (2 ^ (- e)).

(** The binary64 exponent of the unit in the last place of [n/d]. *)
Definition ulp_exp (n d : Z) : Z := Z.max (ilog2 n d - 52) (-1074).

(** The 53-bit integer significand of [n/d] at its exponent. *)
Definition significand (n d : Z) : Z :=
  let e := ulp_exp n d in
  if 0 <=? e then rne n (d * 2 ^ e) else rne (n * 2 ^ (- e)) d.

(** binary64 rounding of a positive rational [n/d]. *)
Definition round_pos (n d : Z) : number :=
  let e := ulp_exp n d in
  let m := significand n d in
  if (971 <? e) || ((e =? 971) && (2 ^ 53 <=? m)) then Inf false
  else Fin (Qred (inject_Z m * pow2Q e)).

Definition num_neg (x : number) : number :=
  match x with
  | NaN => NaN
  | Inf s => Inf (negb s)
  | NegZero => Fin 0
  | Fin q => if Qeq_bool q 0 then NegZero else Fin (- q)
  end.

(** binary64 rounding of a rational: to nearest, ties to even; overflow
    gives an infinity, underflow a zero of the sign of the operand. *)
Definition round64 (x : Q) : number :=
  match Qnum x with
  | Z0 => Fin 0
  | Zpos n => round_pos (Zpos n) (Zpos (Qden x))
  | Zneg n => num_neg (round_pos (Zpos n) (Zpos (Qden x)))
  end.

Definition is_zero (x : number) : bool :=
  match x with
  | NegZero => true
  | Fin q => Qeq_bool q 0
  | _ => false
  end.

Definition sign_bit (x : number) : bool :=
  match x with
  | NaN => false
  | Inf s => s
  | NegZero => true
  | Fin q => Qnum q <? 0
  end.

Definition signed_zero (s : bool) : number := if s then NegZero else Fin 0.

Definition isNaN (x : number) : bool :=
  match x with NaN => true | _ => false end.

Definition is_finite (x : number) : bool :=
  match x with NegZero | Fin _ => true | _ => false end.

(** The rational a finite number denotes (0 for the others). *)
Definition to_Q (x : number) : Q :=
  match x with Fin q => q | _ => 0 end.

(** [x * y] *)
Definition num_mul (x y : number) : number :=
  match x, y with
  | NaN, _ | _, NaN => NaN
  | Inf s, _ => if is_zero y then NaN else Inf (xorb s (sign_bit y))
  | _, Inf s => if is_zero x then NaN else Inf (xorb (sign_bit x) s)
  | _, _ =>
      if is_zero x || is_zero y then signed_zero (xorb (sign_bit x) (sign_bit y))
      else round64 (to_Q x * to_Q y)%Q
  end.

(** [x / y] *)
Definition num_div (x y : number) : number :=
  match x, y with
  | NaN, _ | _, NaN => NaN
  | Inf _, Inf _ => NaN
  | Inf s, _ => Inf (xorb s (sign_bit y))
  | _, Inf s => signed_zero (xorb (sign_bit x) s)
  | _, _ =>
      if is_zero y then
        if is_zero x then NaN else Inf (xorb (sign_bit x) (sign_bit y))
      else if is_zero x then signed_zero (xorb (sign_bit x) (sign_bit y))
      else round64 (to_Q x / to_Q y)%Q
  end.

(** [x + y] *)
Definition num_add (x y : number) : number :=
  match x, y with
  | NaN, _ | _, NaN => NaN
  | Inf s, Inf t => if Bool.eqb s t then Inf s else NaN
  | Inf s, _ => Inf s
  | _, Inf t => Inf t
  | NegZero, NegZero => NegZero
  | _, _ =>
      if is_zero x then (if is_zero y then Fin 0 else y)
      else if is_zero y then x
      else if Qeq_bool (to_Q x + to_Q y) 0 then Fin 0
      else round64 (to_Q x + to_Q y)%Q
  end.

(** [x - y] *)
Definition num_sub (x y : number) : number := num_add x (num_neg y).

(** [x === y] on numbers. *)
Definition num_eq (x y : number) : bool :=
  match x, y with
  | NaN, _ | _, NaN => false
  | Inf s, Inf t => Bool.eqb s t
  | Inf _, _ | _, Inf _ => false
  | _, _ => Qeq_bool (to_Q x) (to_Q y)
  end.

(** SameValueZero on numbers (the key equality of [Map]). *)
Definition num_same (x y : number) : bool :=
  match x, y with
  | NaN, NaN => true
  | _, _ => num_eq x y
  end.

(** The Number of an array length (below 2^32, hence exact). *)
Definition num_of_nat (n : nat) : number := Fin (inject_Z (Z.of_nat n)).

(** *** Numeric strings *)

Definition digit_val (c : ascii) : Z :=
  let n := Z.of_N (N_of_ascii c) in
  if is_digit c then n - 48
  else if is_lower c then n - 87
  else if is_upper c then n - 55
  else 99.

(** The value of a non-empty string of digits of radix [r]. *)
Fixpoint radix_digits (r : Z) (acc : Z) (s : string) : option Z :=
  match s with
  | EmptyString => Some acc
  | String c s' =>
      if digit_val c <? r then radix_digits r (acc * r + digit_val c) s'
      else None
  end.

Definition radix_value (r : Z) (s : string) : option Z :=
  match s with
  | EmptyString => None
  | _ => radix_digits r 0 s
  end.

(** What a decimal literal denotes before rounding. *)
Inductive literal : Type :=
| LitInfinity (neg : bool)
| LitDecimal (neg : bool) (mantissa : Z) (exp10 : Z).

(** [ExponentPart] (optional): the exponent read and the rest.  An "e"
    that no digit follows is not part of the literal. *)
Definition parse_exponent (s : string) : Z * string :=
  match s with
  | String c s1 =>
      if Ascii.eqb c "e" || Ascii.eqb c "E" then
        let '(neg, s2) :=
          match s1 with
          | String "-" t => (true, t)
          | String "+" t => (false, t)
          | _ => (false, s1)
          end in
        let '(ds, rest) := span is_digit s2 in
        match ds with
        | EmptyString => (0, s)
        | _ => ((if neg then - digits_value ds else digits_value ds), rest)
        end
      else (0, s)
  | EmptyString => (0, s)
  end.

(** [StrUnsignedDecimalLiteral] without Infinity, as a prefix of [s]:
    mantissa, decimal exponent and the rest. *)
Definition parse_unsigned (s : string) : option (Z * Z * string) :=
  let '(ip, r1) := span is_digit s in
  match r1 with
  | String "." r2 =>
      let '(fp, r3) := span is_digit r2 in
      match ip, fp with
      | EmptyString, EmptyString => None
      | _, _ =>
          let nf := Z.of_nat (String.length fp) in
          let '(e, r4) := parse_exponent r3 in
          Some (digits_value ip * 10 ^ nf + digits_value fp, e - nf, r4)
      end
  | _ =>
      match ip with
      | EmptyString => None
      | _ => let '(e, r4) := parse_exponent r1 in Some (digits_value ip, e, r4)
      end
  end.

(** The longest prefix of [s] that is a [StrDecimalLiteral]. *)
Definition parse_decimal (s : string) : option (literal * string) :=
  let '(neg, body) :=
    match s with
    | String "-" t => (true, t)
    | String "+" t => (false, t)
    | _ => (false, s)
    end in
  if startsWith "Infinity" body then
    Some (LitInfinity neg, drop_string 8 body)
  else
    match parse_unsigned body with
    | Some (m, e, rest) => Some (LitDecimal neg m e, rest)
    | None => None
    end.

Definition pow10Q (e : Z) : Q :=
  if 0 <=? e then inject_Z (10 ^ e) else 1 # Z.to_pos (10 ^ (- e)).

Definition literal_value (l : literal) : number :=
  match l with
  | LitInfinity neg => Inf neg
  | LitDecimal neg m e =>
      if m =? 0 then signed_zero neg
      else
        let v := (inject_Z m * pow10Q e)%Q in
        round64 (if neg then - v else v)%Q
  end.

(** [StringToNumber]: the Number a string converts to. *)
Definition StringToNumber (s : string) : number :=
  let t := trim s in
  match t with
  | EmptyString => Fin 0
  | String "0" (String x ds) =>
      let radix :=
        if Ascii.eqb x "x" || Ascii.eqb x "X" then Some 16
        else if Ascii.eqb x "o" || Ascii.eqb x "O" then Some 8
        else if Ascii.eqb x "b" || Ascii.eqb x "B" then Some 2
        else None in
      match radix with
      | Some r =>
          match radix_value r ds with
          | Some v => round64 (inject_Z v)
          | None => NaN
          end
      | None =>
          match parse_decimal t with
          | Some (l, EmptyString) => literal_value l
          | _ => NaN
          end
      end
  | _ =>
      match parse_decimal t with
      | Some (l, EmptyString) => literal_value l
      | _ => NaN
      end
  end.

(** [parseFloat(s)] *)
Definition parseFloat (s : string) : number :=
  match parse_decimal (trimStart s) with
  | Some (l, _) => literal_value l
  | None => NaN
  end.

(** *** Number to string *)

(** The least [n] with [q < 10^n], for [q] positive. *)
Fixpoint scale_down (fuel : nat) (q : Q) (n : Z) : Z :=
  match fuel with
  | O => n
  | S f => if Qle_bool (pow10Q (n - 1)) q then n else scale_down f q (n - 1)
  end.

Definition decimal_exponent (q : Q) : Z :=
  if Qle_bool 1 q then
    Z.of_nat (String.length (N_to_string (Z.to_N (Qfloor q))))
  else scale_down (S (Pos.size_nat (Qden q))) q 0.

(** Whether the decimal [s * 10^(n-k)] reads back as [q]. *)
Definition reads_back (q : Q) (s n k : Z) : bool :=
  match round64 (inject_Z s * pow10Q (n - k))%Q with
  | Fin q' => Qeq_bool q' q
  | _ => false
  end.

(** The digits [s] and exponent [n] of the shortest decimal with [k]
    digits or more (at most [k + fuel]) that reads back as [q]. *)
Fixpoint shortest_digits (fuel : nat) (q : Q) (n k : Z) : Z * Z :=
  let unit := pow10Q (n - k) in
  let lo := Qfloor (q / unit)%Q in
  let hi := lo + 1 in
  let pick (s : Z) := if s =? 10 ^ k then (10 ^ (k - 1), n + 1) else (s, n) in
  let ok_lo := reads_back q lo n k in
  let ok_hi := reads_back q hi n k in
  let lo_nearer :=
    match (q - inject_Z lo * unit) ?= (inject_Z hi * unit - q) with
    | Lt => true
    | Gt => false
    | Eq => Z.even lo
    end%Q in
  match fuel with
  | O => pick (if lo_nearer then lo else hi)
  | S f =>
      if ok_lo && ok_hi then pick (if lo_nearer then lo else hi)
      else if ok_lo then pick lo
      else if ok_hi then pick hi
      else shortest_digits f q n (k + 1)
  end.

Definition zeros (n : Z) : string := repeat_char "0" (Z.to_nat n).

(** [Number::toString] of a positive finite number. *)
Definition positive_toString (q : Q) : string :=
  let '(s, n) := shortest_digits 16 q (decimal_exponent q) 1 in
  let ds := N_to_string (Z.to_N s) in
  let k := Z.of_nat (String.length ds) in
  if (k <=? n) && (n <=? 21) then ds +:+ zeros (n - k)
  else if (0 <? n) && (n <=? 21) then
    take_string (Z.to_nat n) ds +:+ "." +:+ drop_string (Z.to_nat n) ds
  else if (-6 <? n) && (n <=? 0) then "0." +:+ zeros (- n) +:+ ds
  else
    let e := n - 1 in
    let es := (if e <? 0 then "-" else "+") +:+ N_to_string (Z.to_N (Z.abs e)) in
    if k =? 1 then ds +:+ "e" +:+ es
    else take_string 1 ds +:+ "." +:+ drop_string 1 ds +:+ "e" +:+ es.

(** [Number::toString(x)] (radix 10). *)
Definition Number_toString (x : number) : string :=
  match x with
  | NaN => "NaN"
  | Inf false => "Infinity"
  | Inf true => "-Infinity"
  | NegZero => "0"
  | Fin q =>
      match Qnum q with
      | Z0 => "0"
      | Zpos _ => positive_toString q
      | Zneg _ => "-" +:+ positive_toString (- q)%Q
      end
  end.

Definition pad_start (n : nat) (s : string) : string :=
  repeat_char "0" (n - String.length s) +:+ s.

(** [x.toFixed(f)]: the decimal with [f] fraction digits nearest to [x],
    the larger one of two equally near; the magnitude is rounded and the
    sign put in front. *)
Definition toFixed (f : nat) (x : number) : string :=
  match x with
  | Fin q =>
      let a := Qabs q in
      if Qle_bool (inject_Z (10 ^ 21)) a then Number_toString x
      else
        let n := Z.to_N (Qfloor (a * inject_Z (10 ^ Z.of_nat f) + (1 # 2))%Q) in
        let unit := (10 ^ N.of_nat f)%N in
        let body :=
          match f with
          | O => N_to_string n
          | _ => N_to_string (n / unit) +:+ "." +:+
                 pad_start f (N_to_string (n mod unit))
          end in
        if Qnum q <? 0 then "-" +:+ body else body
  | NegZero =>
      match f with
      | O => "0"
      | _ => "0." +:+ repeat_char "0" f
      end
  | _ => Number_toString x
  end.

End JS.

Import JS.

(* ================================================================== *)
(** * Part II.  Data model                                               *)
(* ================================================================== *)

(** ** Row values *)

Inductive value : Type :=
| VUndef : value
| VNull : value
| VNum (n : number) : value
| VStr (s : string) : value.

(** ToBoolean *)
Definition truthy (v : value) : bool :=
  match v with
  | VUndef | VNull => false
  | VNum n => negb (is_zero n || isNaN n)
  | VStr s => negb (String.eqb s "")
  end.

(** [a === b] *)
Definition strict_eq (a b : value) : bool :=
  match a, b with
  | VUndef, VUndef | VNull, VNull => true
  | VNum x, VNum y => num_eq x y
  | VStr s, VStr t => String.eqb s t
  | _, _ => false
  end.

(** SameValueZero, the key equality of [Map]. *)
Definition same_value_zero (a b : value) : bool :=
  match a, b with
  | VNum x, VNum y => num_same x y
  | _, _ => strict_eq a b
  end.

(** [Number(v)] *)
Definition ToNumber (v : value) : number :=
  match v with
  | VUndef => NaN
  | VNull => Fin 0
  | VNum n => n
  | VStr s => StringToNumber s
  end.

(** [String(v)] *)
Definition ToString (v : value) : string :=
  match v with
  | VUndef => "undefined"
  | VNull => "null"
  | VNum n => Number_toString n
  | VStr s => s
  end.

(** ** Rows: [DataRow = Record<string, any>] *)

Abbreviation DataRow := (list (string * value)).

(** [row[k]] *)
Fixpoint row_get (k : string) (r : DataRow) : value :=
  match r with
  | [] => VUndef
  | (k', v) :: r' => if String.eqb k k' then v else row_get k r'
  end.

(** [row[k] = v] *)
Fixpoint row_set (k : string) (v : value) (r : DataRow) : DataRow :=
  match r with
  | [] => [(k, v)]
  | (k', v') :: r' =>
      if String.eqb k k' then (k, v) :: r' else (k', v') :: row_set k v r'
  end.

Definition Object_keys (r : DataRow) : list string := map fst r.

(** ** [JSON.parse(JSON.stringify(x))]

    A property holding [undefined] is left out; NaN and the infinities
    are written as [null]; negative zero is written as [0]; strings,
    [null] and the other finite numbers read back as they were. *)
Definition JSON_value (v : value) : option value :=
  match v with
  | VUndef => None
  | VNull => Some VNull
  | VNum NaN | VNum (Inf _) => Some VNull
  | VNum NegZero => Some (VNum (Fin 0))
  | VNum (Fin q) => Some (VNum (Fin q))
  | VStr s => Some (VStr s)
  end.

Fixpoint JSON_row (r : DataRow) : DataRow :=
  match r with
  | [] => []
  | (k, v) :: r' =>
      match JSON_value v with
      | Some v' => (k, v') :: JSON_row r'
      | None => JSON_row r'
      end
  end.

Definition JSON_rows (data : list DataRow) : list DataRow := map JSON_row data.

(** ** [Map] with insertion order *)

Definition JSMap (A : Type) : Type := list (value * A).

Fixpoint map_get {A} (k : value) (m : JSMap A) : option A :=
  match m with
  | [] => None
  | (k', a) :: m' => if same_value_zero k k' then Some a else map_get k m'
  end.

Definition map_has {A} (k : value) (m : JSMap A) : bool :=
  match map_get k m with Some _ => true | None => false end.

(** [m.set(k, a)]: an existing key keeps its place. *)
Fixpoint map_set {A} (k : value) (a : A) (m : JSMap A) : JSMap A :=
  match m with
  | [] => [(k, a)]
  | (k', a') :: m' =>
      if same_value_zero k k' then (k', a) :: m' else (k', a') :: map_set k a m'
  end.

(** [Array.from(m.values())] *)
Definition map_values {A} (m : JSMap A) : list A := map snd m.

(** ** Results *)

Record Inconsistency : Type := {
  type : string;
  details : list DataRow
}.

Record MissingData : Type := {
  count : nat;
  percentage : number;
  total : nat
}.

Record DisruptionAnalysis : Type := {
  missingInventoryData : MissingData;
  missingOrderData : MissingData;
  inTransitOrders : list DataRow
}.

Record Consolidated : Type := {
  inventory : list DataRow;
  orders : list DataRow;
  returns : list DataRow
}.

(* ================================================================== *)
(** * Part III.  lib/data-service                                        *)
(* ================================================================== *)

(** ** File helpers *)

Definition DQUOTE : ascii := ascii_of_N 34.
Definition COMMA : ascii := ",".

(** One field of a data line: [values[index]?.trim() || null], with one
    pair of surrounding quotes removed. *)
Definition parse_cell (raw : option string) : value :=
  match raw with
  | None => VNull
  | Some x =>
      let value := trim x in
      if String.eqb value "" then VNull
      else if startsWith (String DQUOTE "") value && endsWith (String DQUOTE "") value
      then VStr (slice_1_m1 value)
      else VStr value
  end.

(** [header.reduce((obj, nextKey, index) => ..., {})] for one line.  The
    object starts as [{}], whose prototype is [Object.prototype]
    ([inherits]).  As long as it has that prototype, the assignment
    [obj["__proto__"] = value] runs the setter it inherits and creates no
    property: [null] takes the prototype away, a string is ignored.  Once
    the prototype is [null] the assignment creates the property, as it
    does for every other name. *)
Fixpoint build_row (values : list string) (header : list string) (index : nat)
    (obj : DataRow) (inherits : bool) : DataRow :=
  match header with
  | [] => obj
  | nextKey :: header' =>
      let value := parse_cell (nth_error values index) in
      if String.eqb nextKey "__proto__" && inherits
      then build_row values header' (S index) obj
             match value with VNull => false | _ => true end
      else build_row values header' (S index) (row_set nextKey value obj) inherits
  end.

Definition parseCSV (text : string) : list DataRow :=
  let lines := split_lines (trim text) in
  if (length lines <? 2)%nat then []
  else
    let header := map trim (split COMMA (hd "" lines)) in
    map (fun line => build_row (split COMMA line) header 0 [] true) (tl lines).

(** [strVal.replace]: every double quote is written twice. *)
Fixpoint double_quotes (s : string) : string :=
  match s with
  | EmptyString => EmptyString
  | String c s' =>
      if Ascii.eqb c DQUOTE then String DQUOTE (String DQUOTE (double_quotes s'))
      else String c (double_quotes s')
  end.

Definition csv_cell (val : value) : string :=
  match val with
  | VNull | VUndef => ""
  | _ =>
      let strVal := ToString val in
      if includes "," strVal
      then String DQUOTE (double_quotes strVal) +:+ String DQUOTE ""
      else strVal
  end.

(** [headers.map(header => ...).join(',')] for one row. *)
Definition csv_line (headers : list string) (row : DataRow) : string :=
  join "," (map (fun header => csv_cell (row_get header row)) headers).

Definition generateCsvContent (data : list DataRow) : string :=
  match data with
  | [] => ""
  | first :: _ =>
      let headers := Object_keys first in
      let headerRow := join "," headers in
      let rows := map (csv_line headers) data in
      join (String LF "") (headerRow :: rows)
  end.

(** ** Cleaning *)

Definition textColumns : list string :=
  ["item_id"; "item_name"; "order_id"; "return_id"].

Definition is_qty_column (col : string) : bool := includes "qty" (toLowerCase col).

Definition clean_qty (row : DataRow) (col : string) : DataRow :=
  let v := row_get col row in
  if strict_eq v (VStr "") || strict_eq v VNull || strict_eq v VUndef
     || strict_eq v (VStr "NA")
  then row_set col VNull row
  else
    let num := ToNumber v in
    row_set col (if isNaN num then VNull else VNum num) row.

Definition clean_text (row : DataRow) (col : string) : DataRow :=
  match row_get col row with
  | VStr s =>
      if truthy (VStr s) then row_set col (VStr (toUpperCase (trim s))) row
      else row
  | _ => row
  end.

Definition clean_row (qtyColumns : list string) (row : DataRow) : DataRow :=
  fold_left clean_text textColumns (fold_left clean_qty qtyColumns row).

(** [Object.keys(df[0] || {}).filter(col => col.toLowerCase().includes('qty'))] *)
Definition qtyColumns (df : list DataRow) : list string :=
  List.filter is_qty_column (Object_keys (hd [] df)).

Definition cleanData (data : list DataRow) (sourceName : string) : list DataRow :=
  match data with
  | [] => []
  | _ =>
      let df := JSON_rows data in
      map (clean_row (qtyColumns df)) df
  end.

(** ** Inconsistency detection *)

(** The outer join on [key] of the [valCol] columns of two sources. *)
Definition outerJoin (left right : list DataRow) (key valCol : string)
    (suffixes : string * string) : list DataRow :=
  let m0 : JSMap DataRow := [] in
  let m1 :=
    fold_left (fun m row =>
      if truthy (row_get key row)
      then map_set (row_get key row)
             (row_set (valCol +:+ fst suffixes) (row_get valCol row)
                (row_set key (row_get key row) []))
             m
      else m) left m0 in
  let m2 :=
    fold_left (fun m row =>
      if negb (truthy (row_get key row)) then m
      else
        let existing :=
          match map_get (row_get key row) m with
          | Some e => e
          | None => row_set key (row_get key row) []
          end in
        map_set (row_get key row)
          (row_set (valCol +:+ snd suffixes) (row_get valCol row) existing) m)
      right m1 in
  map_values m2.

Definition discrepancy (col_legacy col_spreadsheet : string) (row : DataRow) : bool :=
  let val1 := row_get col_legacy row in
  let val2 := row_get col_spreadsheet row in
  if strict_eq val1 VNull || strict_eq val2 VNull then false
  else
    let diff := num_sub (ToNumber val1) (ToNumber val2) in
    negb (isNaN diff) && negb (num_eq diff (Fin 0)).

Definition identifyInconsistencies (legacy spreadsheet : list DataRow)
    : list Inconsistency :=
  let mergedInv :=
    outerJoin legacy spreadsheet "item_id" "inventory_qty" ("_legacy", "_spreadsheet") in
  let qtyDiscrepancies :=
    List.filter (discrepancy "inventory_qty_legacy" "inventory_qty_spreadsheet") mergedInv in
  let inconsistencies1 :=
    match qtyDiscrepancies with
    | [] => []
    | _ => [{| type := "Inventory Quantity Discrepancy"; details := qtyDiscrepancies |}]
    end in
  let mergedOrders :=
    outerJoin legacy spreadsheet "order_id" "order_qty" ("_legacy", "_spreadsheet") in
  let orderDiscrepancies :=
    List.filter (discrepancy "order_qty_legacy" "order_qty_spreadsheet") mergedOrders in
  match orderDiscrepancies with
  | [] => inconsistencies1
  | _ => inconsistencies1 ++
         [{| type := "Order Quantity Discrepancy"; details := orderDiscrepancies |}]
  end.

(** ** Dates *)

(** [s.replace(/(\d+)\/(\d+)\/(\d+)/, '$3-$1-$2')]: the leftmost
    MM/DD/YYYY is rewritten as YYYY-MM-DD.  A run of digits is taken
    whole: a shorter one is followed by a digit, never by the slash. *)
Definition match_mdy (s : string) : option string :=
  let '(g1, r1) := span is_digit s in
  match g1, r1 with
  | String _ _, String "/" r2 =>
      let '(g2, r3) := span is_digit r2 in
      match g2, r3 with
      | String _ _, String "/" r4 =>
          let '(g3, r5) := span is_digit r4 in
          match g3 with
          | String _ _ => Some (g3 +:+ "-" +:+ g1 +:+ "-" +:+ g2 +:+ r5)
          | EmptyString => None
          end
      | _, _ => None
      end
  | _, _ => None
  end.

Fixpoint replace_mdy (s : string) : string :=
  match match_mdy s with
  | Some t => t
  | None =>
      match s with
      | EmptyString => EmptyString
      | String c s' => String c (replace_mdy s')
      end
  end.

Definition msPerDay : Z := 86400000.

(** The largest time value a Date holds, in either direction. *)
Definition maxTime : Z := 8640000000000000.

(** TimeClip of an integral time value. *)
Definition TimeClip (t : Z) : option Z :=
  if Z.abs t <=? maxTime then Some t else None.

(** Days from 1970-01-01 to the civil date [y]-[m]-[d]. *)
Definition days_from_civil (y m d : Z) : Z :=
  let y' := if m <=? 2 then y - 1 else y in
  let era := y' / 400 in
  let yoe := y' - era * 400 in
  let doy := (153 * (if 2 <? m then m - 3 else m + 9) + 2) / 5 + d - 1 in
  let doe := yoe * 365 + yoe / 4 - yoe / 100 + doy in
  era * 146097 + doe - 719468.

Definition is_leap (y : Z) : bool :=
  ((y mod 4 =? 0) && negb (y mod 100 =? 0)) || (y mod 400 =? 0).

Definition days_in_month (y m : Z) : Z :=
  if m =? 2 then (if is_leap y then 29 else 28)
  else if (m =? 4) || (m =? 6) || (m =? 9) || (m =? 11) then 30 else 31.

(** The date-only forms of the ECMAScript date-time string format,
    YYYY-MM-DD, read as UTC as the standard prescribes.  What [Date.parse]
    does with any other string is left to the implementation by the
    standard, and to the parameter [Date_parse] below. *)
Definition ISO_date_parse (s : string) : option Z :=
  let '(y, r1) := span is_digit s in
  match r1 with
  | String "-" r2 =>
      let '(m, r3) := span is_digit r2 in
      match r3 with
      | String "-" r4 =>
          let '(d, r5) := span is_digit r4 in
          let yv := digits_value y in
          let mv := digits_value m in
          let dv := digits_value d in
          if (String.length y =? 4)%nat && (String.length m =? 2)%nat
             && (String.length d =? 2)%nat && String.eqb r5 ""
             && (1 <=? mv) && (mv <=? 12) && (1 <=? dv)
             && (dv <=? days_in_month yv mv)
          then Some (days_from_civil yv mv dv * msPerDay)
          else None
      | _ => None
      end
  | _ => None
  end.

(** [x > 0] for a comparator result ([NaN] is not). *)
Definition is_positive (x : number) : bool :=
  match x with
  | Inf false => true
  | Fin q => 0 <? Qnum q
  | _ => false
  end.

(** [Array.prototype.sort(compareFn)]: a stable insertion sort; [y] goes
    before [x] only when [compareFn(x, y) > 0]. *)
Section Sort.
Context {A : Type} (compareFn : A -> A -> number).

Fixpoint sort_insert (x : A) (l : list A) : list A :=
  match l with
  | [] => [x]
  | y :: l' =>
      if is_positive (compareFn x y) then y :: sort_insert x l' else x :: l
  end.

Definition Array_sort (l : list A) : list A := fold_right sort_insert [] l.
End Sort.

Section Engine.

(** [Date.parse]: the time value of a date string, in milliseconds
    since the epoch, [None] for an invalid date. *)
Variable Date_parse : string -> option Z.

(** LocalTZA(t, isUTC): the offset of local time, in milliseconds. *)
Variable LocalTZA : Z -> bool -> Z.

(** The time value of [new Date(v)]; [None] is the invalid date. *)
Definition Date_of (v : value) : option Z :=
  match v with
  | VStr s => Date_parse s
  | VNum (Fin q) => TimeClip (Qnum q / Zpos (Qden q) + (if (Qnum q <? 0) && negb (Qnum q mod Zpos (Qden q) =? 0) then 1 else 0))
  | VNum NegZero => Some 0
  | VNum _ => None
  | VNull => Some 0
  | VUndef => None
  end.

(** [new Date(v).getTime()] *)
Definition getTime (v : value) : number :=
  match Date_of v with
  | Some t => Fin (inject_Z t)
  | None => NaN
  end.

(** [d.setDate(d.getDate() - 14)] on [d = new Date()] read at [now]:
    the same local time of day, fourteen local days earlier. *)
Definition twoWeeksAgo (now : Z) : option Z :=
  let local := now + LocalTZA now true in
  let moved := local - 14 * msPerDay in
  TimeClip (moved - LocalTZA moved false).

(** ** Disruption analysis *)

Definition REQUIRED_INV_FIELDS : list string :=
  ["item_id"; "inventory_qty"; "last_updated"].
Definition REQUIRED_ORDER_FIELDS : list string :=
  ["order_id"; "order_qty"; "last_updated"].

Definition missing_some (fields : list string) (r : DataRow) : bool :=
  existsb (fun field =>
    strict_eq (row_get field r) VNull || strict_eq (row_get field r) VUndef
    || strict_eq (row_get field r) (VStr "")) fields.

(** [total > 0 ? parseFloat(((missing / total) * 100).toFixed(1)) : 0] *)
Definition percentage_of (missing total : nat) : number :=
  if (0 <? total)%nat
  then parseFloat (toFixed 1 (num_mul (num_div (num_of_nat missing) (num_of_nat total)) (Fin 100)))
  else Fin 0.

Definition in_transit (limit : option Z) (r : DataRow) : bool :=
  if negb (truthy (row_get "shipment_date" r)) then false
  else
    match row_get "shipment_date" r with
    | VStr s =>
        match Date_parse (replace_mdy s), limit with
        | Some shipmentDate, Some limit => limit <? shipmentDate
        | _, _ => false
        end
    | _ => false
    end.

Definition calculateDisruption (now : Z) (legacy spreadsheet supplier : list DataRow)
    : DisruptionAnalysis :=
  let invRecords :=
    List.filter (fun r => truthy (row_get "item_id" r)) (legacy ++ spreadsheet) in
  let missingInv := length (List.filter (missing_some REQUIRED_INV_FIELDS) invRecords) in
  let totalInvRecords := length invRecords in
  let orderRecords :=
    List.filter (fun r => truthy (row_get "order_id" r)) (legacy ++ spreadsheet) in
  let missingOrders :=
    length (List.filter (missing_some REQUIRED_ORDER_FIELDS) orderRecords) in
  let totalOrderRecords := length orderRecords in
  let inTransitOrders := List.filter (in_transit (twoWeeksAgo now)) supplier in
  {| missingInventoryData :=
       {| count := missingInv;
          total := totalInvRecords;
          percentage := percentage_of missingInv totalInvRecords |};
     missingOrderData :=
       {| count := missingOrders;
          total := totalOrderRecords;
          percentage := percentage_of missingOrders totalOrderRecords |};
     inTransitOrders := inTransitOrders |}.

(** ** Consolidation *)

(** [(a, b) => new Date(b.last_updated).getTime() -
    new Date(a.last_updated).getTime()] *)
Definition by_recency (a b : DataRow) : number :=
  num_sub (getTime (row_get "last_updated" b)) (getTime (row_get "last_updated" a)).

(** Keeps, for each key, the first row that carries it. *)
Definition unique_by (key : string) (rows : list DataRow) : JSMap DataRow :=
  fold_left (fun m row =>
    if negb (map_has (row_get key row) m) then map_set (row_get key row) row m
    else m) rows [].

Definition inventory_row (source qty date : string) (r : DataRow) : DataRow :=
  [("item_id", row_get "item_id" r);
   ("item_name", row_get "item_name" r);
   ("inventory_qty", row_get qty r);
   ("last_updated", row_get date r);
   ("_source", VStr source)].

Definition order_row (source : string) (r : DataRow) : DataRow :=
  [("order_id", row_get "order_id" r);
   ("order_qty", row_get "order_qty" r);
   ("last_updated", row_get "last_updated" r);
   ("_source", VStr source)].

Definition consolidateData (legacy spreadsheet supplier reverseLogistics : list DataRow)
    : Consolidated :=
  let legacyInv := map (inventory_row "Legacy" "inventory_qty" "last_updated") legacy in
  let spreadsheetInv :=
    map (inventory_row "Spreadsheet" "inventory_qty" "last_updated") spreadsheet in
  let supplierInv :=
    map (inventory_row "Supplier" "shipment_qty" "shipment_date") supplier in
  let combinedInv :=
    List.filter (fun r => truthy (row_get "item_id" r) && truthy (row_get "last_updated" r))
      (legacyInv ++ spreadsheetInv ++ supplierInv) in
  let combinedInv := Array_sort by_recency combinedInv in
  let uniqueInv := unique_by "item_id" combinedInv in
  let combinedOrders :=
    List.filter (fun r => truthy (row_get "order_id" r) && truthy (row_get "last_updated" r))
      (map (order_row "Legacy") legacy ++ map (order_row "Spreadsheet") spreadsheet) in
  let combinedOrders := Array_sort by_recency combinedOrders in
  let uniqueOrders := unique_by "order_id" combinedOrders in
  let consolidatedReturns :=
    map (fun r => row_set "_source" (VStr "ReverseLogistics") r) reverseLogistics in
  {| inventory := map_values uniqueInv;
     orders := map_values uniqueOrders;
     returns := consolidatedReturns |}.

End Engine.

(** ** Merging corrections into the sources

    [mergeAiFixesIntoSources] copies its argument and assigns to
    properties of the copy, so rows are objects in a store here: a source
    is an array of references, an assignment [row[k] = v] rewrites the
    store at the reference of [row], and the copy allocates a fresh
    object for every row it reads. *)

Definition loc : Type := positive.

Abbreviation heap := (gmap loc DataRow).

Record SourceData : Type := {
  legacy : list loc;
  spreadsheet : list loc;
  supplier : list loc;
  reverseLogistics : list loc;
  historicalBackup : option (list loc)
}.

(** The two lists of [Partial<ProcessedData>] that the merge reads;
    [None] is an absent property. *)
Record AiFixedData : Type := {
  consolidatedInventory : option (list DataRow);
  consolidatedOrders : option (list DataRow)
}.

(** The row a reference denotes (the empty object when it dangles). *)
Definition deref (h : heap) (l : loc) : DataRow := default [] (h !! l).

Definition alloc (h : heap) (r : DataRow) : heap * loc :=
  let l := fresh (dom h) in (<[l := r]> h, l).

(** What [JSON.stringify] writes for an array of rows, as the rows that
    [JSON.parse] reads back. *)
Definition stringify_rows (h : heap) (rows : list loc) : list DataRow :=
  map (fun l => JSON_row (deref h l)) rows.

(** [JSON.parse] makes a fresh object of every row it reads. *)
Fixpoint alloc_rows (h : heap) (rows : list DataRow) : heap * list loc :=
  match rows with
  | [] => (h, [])
  | r :: rows' =>
      let '(h1, l) := alloc h r in
      let '(h2, ls) := alloc_rows h1 rows' in
      (h2, l :: ls)
  end.

(** [JSON.parse(JSON.stringify(originalSources))]: the text is written
    from the store as it is, then read into fresh objects. *)
Definition copy_sources (h : heap) (s : SourceData) : heap * SourceData :=
  let ta := stringify_rows h (legacy s) in
  let tb := stringify_rows h (spreadsheet s) in
  let tc := stringify_rows h (supplier s) in
  let td := stringify_rows h (reverseLogistics s) in
  let te := option_map (stringify_rows h) (historicalBackup s) in
  let '(h1, a) := alloc_rows h ta in
  let '(h2, b) := alloc_rows h1 tb in
  let '(h3, c) := alloc_rows h2 tc in
  let '(h4, d) := alloc_rows h3 td in
  let '(h5, e) :=
    match te with
    | Some rows => let '(h5, e) := alloc_rows h4 rows in (h5, Some e)
    | None => (h4, None)
    end in
  (h5, {| legacy := a; spreadsheet := b; supplier := c;
          reverseLogistics := d; historicalBackup := e |}).

(** [new Map(consolidatedData.map(item => [item[idField], item]))] *)
Definition consolidatedMap (consolidatedData : list DataRow) (idField : string)
    : JSMap DataRow :=
  fold_left (fun m item => map_set (row_get idField item) item m) consolidatedData [].

(** The body of [for (const destKey in mappings)]. *)
Definition apply_mappings (mappings : list (string * string))
    (correctedItem row : DataRow) : DataRow :=
  fold_left (fun row '(destKey, srcKey) =>
    if negb (strict_eq (row_get srcKey correctedItem) VUndef)
    then row_set destKey (row_get srcKey correctedItem) row
    else row) mappings row.

Definition updateSource (h : heap) (sourceArray : list loc)
    (consolidatedData : list DataRow) (idField : string)
    (mappings : list (string * string)) : heap :=
  let cmap := consolidatedMap consolidatedData idField in
  fold_left (fun h l =>
    match h !! l with
    | Some row =>
        match map_get (row_get idField row) cmap with
        | Some correctedItem => <[l := apply_mappings mappings correctedItem row]> h
        | None => h
        end
    | None => h
    end) sourceArray h.

Definition invMapping : list (string * string) :=
  [("item_name", "item_name"); ("inventory_qty", "inventory_qty");
   ("last_updated", "last_updated")].

Definition orderMapping : list (string * string) :=
  [("order_qty", "order_qty"); ("last_updated", "last_updated")].

Definition mergeAiFixesIntoSources (h : heap) (originalSources : SourceData)
    (aiFixedData : AiFixedData) : heap * SourceData :=
  let '(h0, updatedSources) := copy_sources h originalSources in
  let h2 :=
    match consolidatedInventory aiFixedData with
    | Some inv =>
        let h1 := updateSource h0 (legacy updatedSources) inv "item_id" invMapping in
        updateSource h1 (spreadsheet updatedSources) inv "item_id" invMapping
    | None => h0
    end in
  let h4 :=
    match consolidatedOrders aiFixedData with
    | Some ord =>
        let h3 := updateSource h2 (legacy updatedSources) ord "order_id" orderMapping in
        updateSource h3 (spreadsheet updatedSources) ord "order_id" orderMapping
    | None => h2
    end in
  (h4, updatedSources).

(* ================================================================== *)
(** * Part IV.  services/geminiService                                   *)
(* ================================================================== *)

(** A computation that returns or throws an [Error] with a message. *)
Inductive result (A : Type) : Type :=
| Return (a : A)
| Throw (message : string).
Arguments Return {A} a.
Arguments Throw {A} message.

Definition bind {A B} (m : result A) (k : A -> result B) : result B :=
  match m with
  | Return a => k a
  | Throw e => Throw e
  end.

(** [try { body } catch (e) { handler(e) }] *)
Definition try_catch {A} (body : result A) (handler : string -> result A)
    : result A :=
  match body with
  | Return a => Return a
  | Throw e => handler e
  end.

Notation "'let!' x ':=' m 'in' k" := (bind m (fun x => k))
  (at level 10, x name, m at level 100, k at level 200).

#[warnings="-register-all"]
Inductive json : Type :=
| JNull : json
| JBool (b : bool) : json
| JNumber (n : number) : json
| JString (s : string) : json
| JArray (items : list json) : json
| JObject (fields : list (string * json)) : json.

Fixpoint json_get (k : string) (fields : list (string * json)) : option json :=
  match fields with
  | [] => None
  | (k', v) :: rest => if String.eqb k k' then Some v else json_get k rest
  end.

Fixpoint json_set (k : string) (v : json) (fields : list (string * json))
    : list (string * json) :=
  match fields with
  | [] => [(k, v)]
  | (k', v') :: rest =>
      if String.eqb k k' then (k, v) :: rest else (k', v') :: json_set k v rest
  end.

(** Capture group 2 of the fence pattern: the text between an opening
    fence with its language tag and the closing fence, without the white
    space around it; [None] when the text is not fenced.  The tag and the
    white space after it are taken whole: giving some back cannot help,
    since what follows them is matched by the lazy group. *)
Definition fence_body (s : string) : option string :=
  if startsWith "```" s then
    let '(_, r1) := span is_word (drop_string 3 s) in
    let r2 := trimStart r1 in
    if endsWith "```" r2
    then Some (trimEnd (take_string (String.length r2 - 3) r2))
    else None
  else None.

(** [jsonStr]: the trimmed response text, or the trimmed body of its
    fence when it is fenced and the body is not empty. *)
Definition unfenced (text : string) : string :=
  let jsonStr := trim text in
  match fence_body jsonStr with
  | Some body => if String.eqb body "" then jsonStr else trim body
  | None => jsonStr
  end.

Definition MSG_INVALID_FORMAT : string :=
  "AI returned an invalid data format. Please try again.".
Definition MSG_SERVICE_FAILED : string :=
  "The AI service failed to process the request. Please check your connection or API key.".

Section Collaborator.

(** [ai.models.generateContent(...)]: the text of the response, or the
    error the call throws. *)
Variable generateContent : string -> result string.

(** [JSON.parse]: the value read, or the SyntaxError thrown. *)
Variable JSON_parse : string -> result json.

(** The statements of the inner [try]. *)
Definition read_response (jsonStr : string) : result json :=
  let! parsedData := JSON_parse jsonStr in
  match parsedData with
  | JNull => Throw "Cannot read properties of null (reading 'report')"
  | JObject fields =>
      match json_get "report" fields with
      | Some (JString report) =>
          Return (JObject (json_set "report"
            (JObject [("fixesApplied", JArray [JString report]);
                      ("rootCauseAnalysis", JArray []);
                      ("recommendations", JArray [])]) fields))
      | _ => Return parsedData
      end
  | _ => Return parsedData
  end.

Definition getAiFixSuggestions (prompt : string) : result json :=
  try_catch
    (let! text := generateContent prompt in
     let jsonStr := unfenced text in
     try_catch (read_response jsonStr)
       (fun e => Throw MSG_INVALID_FORMAT))
    (fun error => Throw MSG_SERVICE_FAILED).

End Collaborator.

(* ================================================================== *)
(** * Part IV-b.  lib/data-service: the steps and the orchestration      *)
(* ================================================================== *)

(** ** Cleaning steps *)

Definition NO_INCONSISTENCIES : string :=
  "No inconsistencies found. Data appears aligned.".

Definition proposeCleaningSteps (inconsistencies : list Inconsistency)
    : list string :=
  match inconsistencies with
  | [] => [NO_INCONSISTENCIES]
  | _ =>
      map (fun issue =>
             "Resolve " +:+ type issue
             +:+ ": Use most recent data or manual verification for "
             +:+ Number_toString (num_of_nat (length (details issue)))
             +:+ " records.")
          inconsistencies
  end.

(** ** Reading the files *)

(** A [File], by what [FileReader.readAsText] makes of it: the reader
    loads its text, or reports an error.  (A read that is aborted settles
    the promise neither way and is left out.) *)
Inductive File : Type :=
| Readable (text : string)
| Unreadable.

(** [readFileAsText]: the promise resolves with the text, or is rejected
    with the error event of the reader. *)
Definition readFileAsText (file : File) : result string :=
  match file with
  | Readable text => Return text
  | Unreadable => Throw "error"
  end.

Module Files.

(** [FileState] of the application: a source is a file, or [null]. *)
Record FileState : Type := {
  legacy : option File;
  spreadsheet : option File;
  supplier : option File;
  reverseLogistics : option File;
  historicalBackup : option File
}.

End Files.

Record AiReport : Type := {
  fixesApplied : list string;
  rootCauseAnalysis : list string;
  recommendations : list string
}.

(** [string | AiReport] *)
Inductive Report : Type :=
| ReportText (text : string)
| ReportObject (r : AiReport).

Module Processed.

(** [SourceData] as [processFiles] builds it: the cleaned rows of each
    source. *)
Record SourceData : Type := {
  legacy : list DataRow;
  spreadsheet : list DataRow;
  supplier : list DataRow;
  reverseLogistics : list DataRow;
  historicalBackup : list DataRow
}.

Record ProcessedData : Type := {
  inconsistencies : list Inconsistency;
  cleaningSteps : list string;
  consolidatedInventory : list DataRow;
  consolidatedOrders : list DataRow;
  consolidatedReturns : list DataRow;
  report : Report;
  disruptionAnalysis : option DisruptionAnalysis;
  sourceData : SourceData
}.

End Processed.

Definition MSG_MISSING_FILES : string :=
  "Missing one or more mandatory data files.".
Definition MSG_PROCESS_FAILED : string :=
  "Failed to read or process one of the files. Please ensure they are valid CSVs.".
Definition INITIAL_REPORT : string :=
  "Initial report. Run 'Auto-Fix with AI' for detailed analysis.".

(** [file ? await readFileAsText(file) : ""] *)
Definition read_optional (file : option File) : result string :=
  match file with
  | Some file => readFileAsText file
  | None => Return ""
  end.

Section Orchestration.

Variable Date_parse : string -> option Z.
Variable LocalTZA : Z -> bool -> Z.

(** [processFiles], with the time [now] at which the disruption analysis
    reads the clock. *)
Definition processFiles (now : Z) (files : Files.FileState)
    : result Processed.ProcessedData :=
  try_catch
    (match Files.legacy files, Files.spreadsheet files, Files.supplier files with
     | Some legacy, Some spreadsheet, Some supplier =>
         let! legacyRaw := readFileAsText legacy in
         let! spreadsheetRaw := readFileAsText spreadsheet in
         let! supplierRaw := readFileAsText supplier in
         let! reverseLogisticsRaw := read_optional (Files.reverseLogistics files) in
         let! historicalBackupRaw := read_optional (Files.historicalBackup files) in
         let legacyData := cleanData (parseCSV legacyRaw) "Legacy Database" in
         let spreadsheetData :=
           cleanData (parseCSV spreadsheetRaw) "Manual Spreadsheet" in
         let supplierData := cleanData (parseCSV supplierRaw) "Supplier Data" in
         let reverseLogisticsData :=
           cleanData (parseCSV reverseLogisticsRaw) "Reverse Logistics" in
         let historicalBackupData :=
           cleanData (parseCSV historicalBackupRaw) "Historical Backup" in
         let inconsistencies := identifyInconsistencies legacyData spreadsheetData in
         let cleaningSteps := proposeCleaningSteps inconsistencies in
         let consolidated :=
           consolidateData Date_parse legacyData spreadsheetData supplierData
             reverseLogisticsData in
         let disruptionAnalysis :=
           calculateDisruption Date_parse LocalTZA now legacyData spreadsheetData
             supplierData in
         Return
           {| Processed.inconsistencies := inconsistencies;
              Processed.cleaningSteps := cleaningSteps;
              Processed.consolidatedInventory := inventory consolidated;
              Processed.consolidatedOrders := orders consolidated;
              Processed.consolidatedReturns := returns consolidated;
              Processed.report := ReportText INITIAL_REPORT;
              Processed.disruptionAnalysis := Some disruptionAnalysis;
              Processed.sourceData :=
                {| Processed.legacy := legacyData;
                   Processed.spreadsheet := spreadsheetData;
                   Processed.supplier := supplierData;
                   Processed.reverseLogistics := reverseLogisticsData;
                   Processed.historicalBackup := historicalBackupData |} |}
     | _, _, _ => Throw MSG_MISSING_FILES
     end)
    (fun error => Throw MSG_PROCESS_FAILED).

End Orchestration.

(* ================================================================== *)
(** * Part IV-c.  App: manual overrides                                  *)
(* ================================================================== *)

Module App.

(** [{ inventory_qty?: number; reorder_level?: number }]; [None] is an
    absent property. *)
Record Override : Type := {
  inventory_qty : option number;
  reorder_level : option number
}.

(** ['inventory_qty' | 'reorder_level'] *)
Inductive Field : Type := Inventory_qty | Reorder_level.

(** [ManualOverrides = Record<string, ...>]: the own properties of the
    object. *)
Abbreviation ManualOverrides := (gmap string Override).

(** The names that every object inherits from [Object.prototype].  Read
    from an object without such a property of its own, each gives a
    function or an object: a truthy value that has neither field of an
    override and no enumerable property of its own. *)
Definition Object_prototype_names : list string :=
  ["constructor"; "__defineGetter__"; "__defineSetter__"; "hasOwnProperty";
   "__lookupGetter__"; "__lookupSetter__"; "isPrototypeOf";
   "propertyIsEnumerable"; "toString"; "valueOf"; "__proto__";
   "toLocaleString"].

Definition no_override : Override :=
  {| inventory_qty := None; reorder_level := None |}.

(** [manualOverrides[key]], as the code reads it: [Some] for a truthy
    value, with the two fields it has; [None] for [undefined]. *)
Definition override_of (manualOverrides : ManualOverrides) (key : string)
    : option Override :=
  match manualOverrides !! key with
  | Some override => Some override
  | None =>
      if existsb (String.eqb key) Object_prototype_names then Some no_override
      else None
  end.

(** [{ ...override, [field]: value }] *)
Definition set_field (field : Field) (value : number) (override : Override)
    : Override :=
  match field with
  | Inventory_qty =>
      {| inventory_qty := Some value; reorder_level := reorder_level override |}
  | Reorder_level =>
      {| inventory_qty := inventory_qty override; reorder_level := Some value |}
  end.

(** The state update of [handleManualUpdate]:
    [prev => ({ ...prev, [itemId]: { ...prev[itemId], [field]: value } })] *)
Definition handleManualUpdate (itemId : string) (field : Field) (value : number)
    (prev : ManualOverrides) : ManualOverrides :=
  <[itemId := set_field field value (default no_override (override_of prev itemId))]>
    prev.

(** [a ?? b] for an optional number [a]. *)
Definition nullish (a : option number) (b : value) : value :=
  match a with
  | Some n => VNum n
  | None => b
  end.

(** The callback of [results.consolidatedInventory.map]; the property key
    of [manualOverrides[item.item_id]] is the [item_id] as a string. *)
Definition with_override (manualOverrides : ManualOverrides) (item : DataRow)
    : DataRow :=
  match override_of manualOverrides (ToString (row_get "item_id" item)) with
  | Some override =>
      row_set "_source"
        (match inventory_qty override with
         | Some _ => VStr "Manual"
         | None => row_get "_source" item
         end)
        (row_set "reorder_level"
           (nullish (reorder_level override) (row_get "reorder_level" item))
           (row_set "inventory_qty"
              (nullish (inventory_qty override) (row_get "inventory_qty" item))
              item))
  | None => item
  end.

Definition resultsWithOverrides (results : option Processed.ProcessedData)
    (manualOverrides : ManualOverrides) : option Processed.ProcessedData :=
  match results with
  | None => None
  | Some results =>
      let newInventory :=
        map (with_override manualOverrides)
          (Processed.consolidatedInventory results) in
      Some
        {| Processed.inconsistencies := Processed.inconsistencies results;
           Processed.cleaningSteps := Processed.cleaningSteps results;
           Processed.consolidatedInventory := newInventory;
           Processed.consolidatedOrders := Processed.consolidatedOrders results;
           Processed.consolidatedReturns := Processed.consolidatedReturns results;
           Processed.report := Processed.report results;
           Processed.disruptionAnalysis := Processed.disruptionAnalysis results;
           Processed.sourceData := Processed.sourceData results |}
  end.

End App.

(** ** Sample inputs *)

(** The rows of the scenario of the specification. *)
Definition legacy_A1 : DataRow :=
  [("item_id", VStr "A1"); ("inventory_qty", VNum (Fin 100));
   ("last_updated", VStr "2024-01-01")].

Definition spreadsheet_A1 : DataRow :=
  [("item_id", VStr "A1"); ("inventory_qty", VNum (Fin 120));
   ("last_updated", VStr "2024-01-02")].

(** A supplier row shipped ten years after the evaluation time used
    with it. *)
Definition future_shipment : DataRow :=
  [("item_id", VStr "A1"); ("shipment_date", VStr "12/01/2034")].

(** An inventory row without a quantity. *)
Definition incomplete_B7 : DataRow :=
  [("item_id", VStr "B7"); ("inventory_qty", VNull);
   ("last_updated", VStr "2024-01-03")].

(** A supplier row with a finite quantity, and one whose quantity was
    cleaned from the text Infinity. *)
Definition supplier_A1 : DataRow :=
  [("item_id", VStr "A1"); ("shipment_qty", VNum (Fin 40));
   ("shipment_date", VStr "2024-01-02")].

Definition supplier_overflow : DataRow :=
  [("item_id", VStr "A1"); ("shipment_qty", VNum (Inf false))].

(** A store with a legacy row, a spreadsheet row and a supplier row, the
    sources that refer to them, and a correction of item A1. *)
Definition sample_heap : heap :=
  <[1%positive := legacy_A1]>
    (<[2%positive := incomplete_B7]> (<[3%positive := supplier_A1]> ∅)).

Definition sample_sources : SourceData :=
  {| legacy := [1%positive]; spreadsheet := [2%positive];
     supplier := [3%positive]; reverseLogistics := [];
     historicalBackup := None |}.

Definition sample_fixes : AiFixedData :=
  {| consolidatedInventory :=
       Some [ [("item_id", VStr "A1"); ("inventory_qty", VNum (Fin 120));
               ("last_updated", VStr "2024-01-02")] ];
     consolidatedOrders := None |}.

(** The same with the supplier row of the infinite quantity, and no
    correction. *)
Definition overflow_heap : heap := <[1%positive := supplier_overflow]> ∅.

Definition overflow_sources : SourceData :=
  {| legacy := []; spreadsheet := []; supplier := [1%positive];
     reverseLogistics := []; historicalBackup := None |}.

Definition no_fixes : AiFixedData :=
  {| consolidatedInventory := None; consolidatedOrders := None |}.

(** A parser that reads the empty object and nothing else, as
    [JSON.parse] does on the texts it is used with. *)
Definition parse_empty_object (s : string) : result json :=
  if String.eqb s "{}" then Return (JObject [])
  else Throw "Unexpected token".

(** ** Predicates of the statements *)

(** No two rows of the list carry the same [key] (as [Map] compares keys). *)
Definition distinct_keys (key : string) (rows : list DataRow) : Prop :=
  forall (i j : nat) (a b : DataRow),
    rows !! i = Some a -> rows !! j = Some b -> i <> j ->
    same_value_zero (row_get key a) (row_get key b) = false.

(** The invariant of [unique_by]: every entry is filed under the key of
    its row, and no two entries have the same key. *)
Definition keyed (key : string) (m : JSMap DataRow) : Prop :=
  Forall (fun e => row_get key (snd e) = fst e) m /\
  forall (i j : nat) e1 e2,
    m !! i = Some e1 -> m !! j = Some e2 -> i <> j ->
    same_value_zero (fst e1) (fst e2) = false.

(** A string that does not begin with white space. *)
Definition no_leading_ws (s : string) : Prop :=
  match s with
  | EmptyString => True
  | String c _ => is_ws c = false
  end.

(** What the specification asks of a cleaned quantity: [null], or a
    finite number. *)
Definition finite_or_null (v : value) : Prop :=
  match v with
  | VNull => True
  | VNum n => is_finite n = true
  | _ => False
  end.

(** What a cleaned quantity holds: [null], or a number that is not NaN. *)
Definition number_or_null (v : value) : Prop :=
  v = VNull \/ exists n : number, v = VNum n /\ isNaN n = false.

(** What [clean_text] leaves in the column it is applied to. *)
Definition clean_text_value (v : value) : value :=
  match v with
  | VStr s => if String.eqb s "" then v else VStr (toUpperCase (trim s))
  | _ => v
  end.

(** A row on which [clean_row] has nothing left to do. *)
Definition cleaned (qtyCols : list string) (x : DataRow) : Prop :=
  (forall k, In k qtyCols -> number_or_null (row_get k x)) /\
  (forall t, In t textColumns -> clean_text_value (row_get t x) = row_get t x).

(** No property of the row holds [undefined]. *)
Definition defined_entries (r : DataRow) : Prop :=
  forall k v, In (k, v) r -> v <> VUndef.

(** Every number of the rows is finite and is not negative zero. *)
Definition plain_numbers (rows : list DataRow) : Prop :=
  forall row k n, In row rows -> In (k, VNum n) row -> exists q, n = Fin q.

(** A row that the deep copy reads back as it was: every property
    holds a string, [null], or a finite number other than negative zero. *)
Definition plain_row (r : DataRow) : Prop :=
  forall k v, In (k, v) r -> JSON_value v = Some v.

(** No corrected row of the list has the [idField] of [row]. *)
Definition unmatched (idField : string) (data : option (list DataRow))
    (row : DataRow) : Prop :=
  forall rows c, data = Some rows -> In c rows ->
    same_value_zero (row_get idField row) (row_get idField c) = false.

(** What [updateSource] leaves in a row of the source array. *)
Definition corrected (cmap : JSMap DataRow) (idField : string)
    (mappings : list (string * string)) (row : DataRow) : DataRow :=
  match map_get (row_get idField row) cmap with
  | Some correctedItem => apply_mappings mappings correctedItem row
  | None => row
  end.

(** Every character of the string satisfies [p]. *)
Fixpoint all_chars (p : ascii -> bool) (s : string) : bool :=
  match s with
  | EmptyString => true
  | String c s' => p c && all_chars p s'
  end.

(** A character that is no delimiter, no line break and no carriage
    return. *)
Definition is_field_char (c : ascii) : bool :=
  negb (Ascii.eqb c COMMA) && negb (Ascii.eqb c LF) && negb (Ascii.eqb c CR).

(** A character of the decimal form of a number. *)
Definition is_numeral_char (c : ascii) : bool :=
  is_field_char c && negb (is_ws c) && negb (Ascii.eqb c DQUOTE).

(** Text that a field takes through the delimited text and back: no
    delimiter, no line break, no white space at either end. *)
Definition csv_safe (s : string) : Prop :=
  all_chars is_field_char s = true /\ trim s = s.

(** A field name that no object inherits from [Object.prototype]: read
    from a row it gives the property of the row or [undefined], and an
    assignment to it creates the property. *)
Definition own_name (h : string) : Prop := ~ In h App.Object_prototype_names.

(** A value whose cell is such a text. *)
Definition csv_safe_value (v : value) : Prop :=
  match v with
  | VStr s => csv_safe s
  | _ => True
  end.

(** What [parseCSV] reads in the cell that [generateCsvContent] writes
    for a value. *)
Definition reread (v : value) : value := parse_cell (Some (csv_cell v)).

(** A string that is not wrapped in double quotes. *)
Definition unquoted (s : string) : Prop :=
  startsWith (String DQUOTE "") s && endsWith (String DQUOTE "") s = false.

Fixpoint all_digits (s : string) : bool :=
  match s with
  | EmptyString => true
  | String c s' => is_digit c && all_digits s'
  end.

(** The Number that the decimal numeral with [n] tenths denotes. *)
Definition one_decimal (n : Z) : number :=
  literal_value (LitDecimal false n (-1)).

(** What a percentage field holds: 0 when there is no row; a number from
    0 to 100; the decimal with one fraction digit nearest to the
    percentage of missing rows. *)
Definition percentage_ok (m : MissingData) : Prop :=
  (total m = 0%nat -> percentage m = Fin 0) /\
  (exists q : Q, percentage m = Fin q /\ (0 <= q <= 100)%Q) /\
  ((0 < total m)%nat ->
   exists n : Z,
     percentage m = one_decimal n /\
     (Qabs ((n # 10)
            - 100 * (inject_Z (Z.of_nat (count m)) / inject_Z (Z.of_nat (total m))))
      <= 1 # 20)%Q).

(** A field that holds nothing: [null], [undefined] or the empty string. *)
Definition blank (v : value) : Prop := v = VNull \/ v = VUndef \/ v = VStr "".

(** [n] of the rows are rows of [P]. *)
Inductive counted (P : DataRow -> Prop) : list DataRow -> nat -> Prop :=
  | counted_nil : counted P [] 0
  | counted_in (r : DataRow) (rows : list DataRow) (n : nat) :
      P r -> counted P rows n -> counted P (r :: rows) (S n)
  | counted_out (r : DataRow) (rows : list DataRow) (n : nat) :
      ~ P r -> counted P rows n -> counted P (r :: rows) n.

(** What the two counts of a record are: [total] counts the rows that
    have a truthy [key], and [count] those of them in which one of
    [fields] holds nothing. *)
Definition missing_data_of (key : string) (fields : list string)
    (rows : list DataRow) (m : MissingData) : Prop :=
  counted (fun r => truthy (row_get key r) = true) rows (total m) /\
  counted (fun r => truthy (row_get key r) = true /\
                    exists field, In field fields /\ blank (row_get field r))
          rows (count m).

(** ** Predicates of the further statements *)

(** The row that a [Map] filled from [rows] under [key] would hold for
    [k]: the last row whose [key] is truthy and is the key [k]. *)
Fixpoint last_keyed (key : string) (k : value) (rows : list DataRow)
    : option DataRow :=
  match rows with
  | [] => None
  | r :: rows' =>
      match last_keyed key k rows' with
      | Some r' => Some r'
      | None =>
          if truthy (row_get key r) && same_value_zero (row_get key r) k
          then Some r else None
      end
  end.

(** The two quantities differ as numbers: what the filters of
    [identifyInconsistencies] test. *)
Definition differ (val1 val2 : value) : Prop :=
  val1 <> VNull /\ val2 <> VNull /\
  isNaN (num_sub (ToNumber val1) (ToNumber val2)) = false /\
  num_eq (num_sub (ToNumber val1) (ToNumber val2)) (Fin 0) = false.

(** The detail row [d] joins a legacy row and a spreadsheet row that
    carry its key, and their quantities differ. *)
Definition backed (key col : string) (legacy spreadsheet : list DataRow)
    (d : DataRow) : Prop :=
  exists a b : DataRow,
    In a legacy /\ In b spreadsheet /\
    truthy (row_get key d) = true /\
    same_value_zero (row_get key a) (row_get key d) = true /\
    same_value_zero (row_get key b) (row_get key d) = true /\
    row_get (col +:+ "_legacy") d = row_get col a /\
    row_get (col +:+ "_spreadsheet") d = row_get col b /\
    differ (row_get col a) (row_get col b).

(** No two keys of the list are the same key of a [Map]. *)
Definition distinct (ks : list value) : Prop :=
  forall (i j : nat) (a b : value),
    ks !! i = Some a -> ks !! j = Some b -> i <> j -> same_value_zero a b = false.

(** The quantity of the row that a source holds for the key [k];
    [undefined] when it holds none. *)
Definition last_value (key valCol : string) (k : value) (rows : list DataRow)
    : value :=
  match last_keyed key k rows with
  | Some r => row_get valCol r
  | None => VUndef
  end.

(** What the [Map] of [outerJoin] holds once the rows [left] and [right]
    have gone in: under every key of either list, a row with that key and
    the last quantity of each list (in the columns [c1] and [c2]); nothing
    under the other keys. *)
Definition joined (key valCol c1 c2 : string) (left right : list DataRow)
    (m : JSMap DataRow) : Prop :=
  forall k : value,
    match map_get k m with
    | Some e =>
        same_value_zero (row_get key e) k = true /\
        row_get c1 e = last_value key valCol k left /\
        row_get c2 e = last_value key valCol k right
    | None => last_keyed key k left = None /\ last_keyed key k right = None
    end.

(** The rows that compete for the consolidated inventory and for the
    consolidated orders: [combinedInv] and [combinedOrders] as they are
    before the sort. *)
Definition combinedInv (legacy spreadsheet supplier : list DataRow) : list DataRow :=
  List.filter
    (fun r => truthy (row_get "item_id" r) && truthy (row_get "last_updated" r))
    (map (inventory_row "Legacy" "inventory_qty" "last_updated") legacy
     ++ map (inventory_row "Spreadsheet" "inventory_qty" "last_updated") spreadsheet
     ++ map (inventory_row "Supplier" "shipment_qty" "shipment_date") supplier).

Definition combinedOrders (legacy spreadsheet : list DataRow) : list DataRow :=
  List.filter
    (fun r => truthy (row_get "order_id" r) && truthy (row_get "last_updated" r))
    (map (order_row "Legacy") legacy ++ map (order_row "Spreadsheet") spreadsheet).

(** Every row of the list has a [last_updated] that reads as a time. *)
Definition dated (Date_parse : string -> option Z) (rows : list DataRow) : Prop :=
  forall r, In r rows -> Date_of Date_parse (row_get "last_updated" r) <> None.

(** The time of [x] is not before the time of [y]. *)
Definition as_recent (Date_parse : string -> option Z) (x y : DataRow) : Prop :=
  exists tx ty : Z,
    Date_of Date_parse (row_get "last_updated" x) = Some tx /\
    Date_of Date_parse (row_get "last_updated" y) = Some ty /\
    ty <= tx.

(** A legacy order and a spreadsheet order with the same [order_id], the
    spreadsheet one of the later date. *)
Definition legacy_O1 : DataRow :=
  [("order_id", VStr "O1"); ("order_qty", VNum (Fin 5));
   ("last_updated", VStr "2024-01-01")].

Definition spreadsheet_O1 : DataRow :=
  [("order_id", VStr "O1"); ("order_qty", VNum (Fin 7));
   ("last_updated", VStr "2024-01-02")].

(** The corrected row that the [Map] of [updateSource] holds for a source
    row: the last one of [data] with its [idField]. *)
Definition last_corrected (idField : string) (data : list DataRow) (row : DataRow)
    : option DataRow :=
  List.find (fun c => same_value_zero (row_get idField row) (row_get idField c))
    (rev data).

(** The fields that a correction can write. *)
Definition corrected_fields : list string :=
  ["item_name"; "inventory_qty"; "last_updated"; "order_qty"].

(** What the update of the inventory fields, then of the order fields,
    leaves in a row of a mandatory source. *)
Definition merged_row (f : AiFixedData) (row : DataRow) : DataRow :=
  let row1 :=
    match consolidatedInventory f with
    | Some inv => corrected (consolidatedMap inv "item_id") "item_id" invMapping row
    | None => row
    end in
  match consolidatedOrders f with
  | Some ord => corrected (consolidatedMap ord "order_id") "order_id" orderMapping row1
  | None => row1
  end.

(** A file that is there and that the reader loads. *)
Definition loads (file : option File) : Prop :=
  exists text, file = Some (Readable text).

(** A file that is not there, or that the reader loads. *)
Definition absent_or_loads (file : option File) : Prop :=
  file = None \/ loads file.

(** The files that [processFiles] can work with: the three mandatory
    ones load, the two optional ones are absent or load. *)
Definition usable (files : Files.FileState) : Prop :=
  loads (Files.legacy files) /\ loads (Files.spreadsheet files) /\
  loads (Files.supplier files) /\
  absent_or_loads (Files.reverseLogistics files) /\
  absent_or_loads (Files.historicalBackup files).

(** The files of a first upload: a legacy file and a spreadsheet file
    that disagree on item A1, a supplier file, no optional file. *)
Definition sample_files : Files.FileState :=
  {| Files.legacy :=
       Some (Readable ("item_id,inventory_qty,last_updated"
                       +:+ String LF "a1,100,2024-01-01"));
     Files.spreadsheet :=
       Some (Readable ("item_id,inventory_qty,last_updated"
                       +:+ String LF "A1,120,2024-01-02"));
     Files.supplier :=
       Some (Readable ("item_id,shipment_qty,shipment_date"
                       +:+ String LF "A1,many,2024-01-02"));
     Files.reverseLogistics := None;
     Files.historicalBackup := None |}.

(** No file at all. *)
Definition no_files : Files.FileState :=
  {| Files.legacy := None; Files.spreadsheet := None; Files.supplier := None;
     Files.reverseLogistics := None; Files.historicalBackup := None |}.

(** What [processFiles] returns when the reads have given the texts of
    the five sources (the empty text for an optional source that is not
    there). *)
Definition processed (Date_parse : string -> option Z) (LocalTZA : Z -> bool -> Z)
    (now : Z)
    (legacyRaw spreadsheetRaw supplierRaw reverseLogisticsRaw historicalBackupRaw
       : string) : Processed.ProcessedData :=
  let legacyData := cleanData (parseCSV legacyRaw) "Legacy Database" in
  let spreadsheetData := cleanData (parseCSV spreadsheetRaw) "Manual Spreadsheet" in
  let supplierData := cleanData (parseCSV supplierRaw) "Supplier Data" in
  let reverseLogisticsData :=
    cleanData (parseCSV reverseLogisticsRaw) "Reverse Logistics" in
  let historicalBackupData :=
    cleanData (parseCSV historicalBackupRaw) "Historical Backup" in
  let inconsistencies := identifyInconsistencies legacyData spreadsheetData in
  let consolidated :=
    consolidateData Date_parse legacyData spreadsheetData supplierData
      reverseLogisticsData in
  {| Processed.inconsistencies := inconsistencies;
     Processed.cleaningSteps := proposeCleaningSteps inconsistencies;
     Processed.consolidatedInventory := inventory consolidated;
     Processed.consolidatedOrders := orders consolidated;
     Processed.consolidatedReturns := returns consolidated;
     Processed.report := ReportText INITIAL_REPORT;
     Processed.disruptionAnalysis :=
       Some (calculateDisruption Date_parse LocalTZA now legacyData spreadsheetData
               supplierData);
     Processed.sourceData :=
       {| Processed.legacy := legacyData;
          Processed.spreadsheet := spreadsheetData;
          Processed.supplier := supplierData;
          Processed.reverseLogistics := reverseLogisticsData;
          Processed.historicalBackup := historicalBackupData |} |}.

(** The rows of the five sources of a result. *)
Definition source_rows (p : Processed.ProcessedData) : list DataRow :=
  let s := Processed.sourceData p in
  Processed.legacy s ++ Processed.spreadsheet s ++ Processed.supplier s
  ++ Processed.reverseLogistics s ++ Processed.historicalBackup s.

(** A quantity that is not there, is [null], or is a number other than NaN. *)
Definition no_text_quantity (v : value) : Prop :=
  v = VUndef \/ number_or_null v.

(** The report object that stands for a report given as a string. *)
Definition report_of_string (report : string) : json :=
  JObject [("fixesApplied", JArray [JString report]);
           ("rootCauseAnalysis", JArray []);
           ("recommendations", JArray [])].

(** The parsed value has a [report] that is a string. *)
Definition string_report (parsed : json) : Prop :=
  exists fields report,
    parsed = JObject fields /\ json_get "report" fields = Some (JString report).

(** The row that a stable sort by descending [measure] puts first among
    the rows of [l] that satisfy [p]: one of the greatest measure, and
    among those the first of [l]. *)
Fixpoint first_greatest {A} (p : A -> bool) (measure : A -> Z) (l : list A)
    : option A :=
  match l with
  | [] => None
  | x :: l' =>
      match first_greatest p measure l' with
      | Some b => if p x && (measure b <=? measure x) then Some x else Some b
      | None => if p x then Some x else None
      end
  end.

(** The time of [y] is before the time of [x]. *)
Definition older (Date_parse : string -> option Z) (y x : DataRow) : Prop :=
  exists tx ty : Z,
    Date_of Date_parse (row_get "last_updated" x) = Some tx /\
    Date_of Date_parse (row_get "last_updated" y) = Some ty /\
    ty < tx.

(** A spreadsheet row for item A1 of the date of the legacy row. *)
Definition spreadsheet_A1_same_day : DataRow :=
  [("item_id", VStr "A1"); ("inventory_qty", VNum (Fin 120));
   ("last_updated", VStr "2024-01-01")].

(** A non-empty string of decimal digits. *)
Definition numeral (s : string) : Prop :=
  s <> "" /\ all_chars is_digit s = true.

(* ================================================================== *)
(** * Part V.  Properties                                                *)
(* ================================================================== *)

(** ** The built-ins on sample arguments *)

Example trim_sample : trim "  a b  " = "a b".
Proof. reflexivity. Qed.

Example split_sample : split "," "a,b,,c" = ["a"; "b"; ""; "c"].
Proof. reflexivity. Qed.

Example split_lines_sample :
  split_lines ("a" +:+ String CR (String LF "b") +:+ String LF "c") = ["a"; "b"; "c"].
Proof. reflexivity. Qed.

Example round64_tenth :
  round64 (1 # 10) = Fin (3602879701896397 # 36028797018963968).
Proof. vm_compute. reflexivity. Qed.

Example num_div_third :
  num_div (Fin 1) (Fin 3) = Fin (6004799503160661 # 18014398509481984).
Proof. vm_compute. reflexivity. Qed.

Example round64_largest :
  round64 (inject_Z (2 ^ 1024 - 2 ^ 970 - 1)) = Fin (inject_Z ((2 ^ 53 - 1) * 2 ^ 971)).
Proof. vm_compute. reflexivity. Qed.

Example round64_overflow : round64 (inject_Z (2 ^ 1024 - 2 ^ 970)) = Inf false.
Proof. vm_compute. reflexivity. Qed.

Example round64_smallest : round64 (pow2Q (-1074)) = Fin (pow2Q (-1074)).
Proof. vm_compute. reflexivity. Qed.

Example round64_underflow : round64 (- pow2Q (-1075)) = NegZero.
Proof. vm_compute. reflexivity. Qed.

Example StringToNumber_decimal : StringToNumber " 12.50 " = Fin (25 # 2).
Proof. vm_compute. reflexivity. Qed.

Example StringToNumber_exponent : StringToNumber "1e3" = Fin 1000.
Proof. vm_compute. reflexivity. Qed.

Example StringToNumber_hex : StringToNumber "0x1F" = Fin 31.
Proof. vm_compute. reflexivity. Qed.

Example StringToNumber_empty : StringToNumber "  " = Fin 0.
Proof. vm_compute. reflexivity. Qed.

Example StringToNumber_text : StringToNumber "12 boxes" = NaN.
Proof. vm_compute. reflexivity. Qed.

Example StringToNumber_infinity : StringToNumber "-Infinity" = Inf true.
Proof. vm_compute. reflexivity. Qed.

Example StringToNumber_overflow : StringToNumber "1e400" = Inf false.
Proof. vm_compute. reflexivity. Qed.

Example StringToNumber_negative_zero : StringToNumber "-0" = NegZero.
Proof. vm_compute. reflexivity. Qed.

Example parseFloat_prefix : parseFloat "12.5kg" = Fin (25 # 2).
Proof. vm_compute. reflexivity. Qed.

Example Number_toString_integer : Number_toString (Fin 120) = "120".
Proof. vm_compute. reflexivity. Qed.

Example Number_toString_sum :
  Number_toString (num_add (StringToNumber "0.1") (StringToNumber "0.2"))
  = "0.30000000000000004".
Proof. vm_compute. reflexivity. Qed.

Example Number_toString_large : Number_toString (StringToNumber "1e21") = "1e+21".
Proof. vm_compute. reflexivity. Qed.

Example Number_toString_small :
  Number_toString (StringToNumber "0.00000015") = "1.5e-7".
Proof. vm_compute. reflexivity. Qed.

Example toFixed_third :
  toFixed 1 (num_mul (num_div (Fin 1) (Fin 3)) (Fin 100)) = "33.3".
Proof. vm_compute. reflexivity. Qed.

Example toFixed_below_tie : toFixed 2 (StringToNumber "1.005") = "1.00".
Proof. vm_compute. reflexivity. Qed.

Example toFixed_negative : toFixed 1 (StringToNumber "-0.04") = "-0.0".
Proof. vm_compute. reflexivity. Qed.

Example replace_mdy_sample : replace_mdy "1/5/2024" = "2024-1-5".
Proof. reflexivity. Qed.

Example parseCSV_proto_column :
  parseCSV ("__proto__,__proto__" +:+ String LF ",x" +:+ String LF "y,x")
  = [ [("__proto__", VStr "x")]; [] ].
Proof. vm_compute. reflexivity. Qed.

Example parseCSV_proto_written :
  parseCSV (generateCsvContent [ [("__proto__", VStr "x")] ]) = [ [] ].
Proof. vm_compute. reflexivity. Qed.

Example ISO_date_parse_sample : ISO_date_parse "2024-01-02" = Some 1704153600000.
Proof. vm_compute. reflexivity. Qed.

Example ISO_date_parse_invalid : ISO_date_parse "2024-02-30" = None.
Proof. vm_compute. reflexivity. Qed.

Example fence_body_sample :
  fence_body ("```json" +:+ String LF "{}" +:+ String LF "```") = Some "{}".
Proof. vm_compute. reflexivity. Qed.

Example percentage_of_third :
  percentage_of 1 3 = Fin (2343279181116211 # 70368744177664) /\
  Number_toString (percentage_of 1 3) = "33.3".
Proof. split; vm_compute; reflexivity. Qed.

(** ** Strings *)

Lemma append_nil_l (s : string) : "" +:+ s = s.
Proof. reflexivity. Qed.

Lemma append_cons (c : ascii) (a s : string) :
  String c a +:+ s = String c (a +:+ s).
Proof. reflexivity. Qed.

Lemma append_assoc (a b c : string) : (a +:+ b) +:+ c = a +:+ (b +:+ c).
Proof.
  induction a as [|x a IH]; [reflexivity|]. rewrite !append_cons. now rewrite IH.
Qed.

Lemma is_ws_upper_char (c : ascii) : is_ws (upper_char c) = is_ws c.
Proof. destruct c as [[] [] [] [] [] [] [] []]; reflexivity. Qed.

Lemma upper_char_idem (c : ascii) : upper_char (upper_char c) = upper_char c.
Proof. destruct c as [[] [] [] [] [] [] [] []]; reflexivity. Qed.

Lemma toUpperCase_idem (s : string) : toUpperCase (toUpperCase s) = toUpperCase s.
Proof.
  induction s as [|c s IH]; cbn; [reflexivity|].
  f_equal; [apply upper_char_idem|exact IH].
Qed.

Lemma trimStart_toUpperCase (s : string) :
  trimStart (toUpperCase s) = toUpperCase (trimStart s).
Proof.
  induction s as [|c s IH]; cbn; [reflexivity|].
  rewrite is_ws_upper_char. destruct (is_ws c); [exact IH|reflexivity].
Qed.

Lemma trimEnd_toUpperCase (s : string) :
  trimEnd (toUpperCase s) = toUpperCase (trimEnd s).
Proof.
  induction s as [|c s IH]; cbn; [reflexivity|].
  fold (toUpperCase s). rewrite IH, is_ws_upper_char.
  destruct (trimEnd s); cbn; [destruct (is_ws c)|]; reflexivity.
Qed.

Lemma trim_toUpperCase (s : string) : trim (toUpperCase s) = toUpperCase (trim s).
Proof. unfold trim. now rewrite trimStart_toUpperCase, trimEnd_toUpperCase. Qed.

Lemma trimEnd_cons (c : ascii) (s : string) :
  trimEnd (String c s) =
  match trimEnd s with
  | EmptyString => if is_ws c then EmptyString else String c EmptyString
  | t => String c t
  end.
Proof. reflexivity. Qed.

Lemma trimEnd_idem (s : string) : trimEnd (trimEnd s) = trimEnd s.
Proof.
  induction s as [|c s IH]; [reflexivity|].
  rewrite trimEnd_cons.
  destruct (trimEnd s) as [|d t] eqn:E.
  - destruct (is_ws c) eqn:W; cbn; [reflexivity|now rewrite W].
  - rewrite trimEnd_cons, IH. reflexivity.
Qed.

Lemma trimStart_no_leading_ws (s : string) : no_leading_ws (trimStart s).
Proof.
  induction s as [|c s IH]; cbn; [exact I|].
  destruct (is_ws c) eqn:W; [exact IH|exact W].
Qed.

Lemma trimStart_fixed (s : string) : no_leading_ws s -> trimStart s = s.
Proof. destruct s as [|c s]; cbn; [reflexivity|]. now intros ->. Qed.

Lemma trimEnd_no_leading_ws (s : string) :
  no_leading_ws s -> no_leading_ws (trimEnd s).
Proof.
  destruct s as [|c s]; cbn; [auto|]. intros W.
  destruct (trimEnd s); [rewrite W|]; exact W.
Qed.

Lemma trim_idem (s : string) : trim (trim s) = trim s.
Proof.
  unfold trim.
  rewrite (trimStart_fixed (trimEnd (trimStart s))).
  - apply trimEnd_idem.
  - apply trimEnd_no_leading_ws, trimStart_no_leading_ws.
Qed.

(** ** Lists *)

Lemma lookup_map {A B} (f : A -> B) (l : list A) (i : nat) :
  map f l !! i = f <$> (l !! i).
Proof. exact (list_lookup_fmap f l i). Qed.

(** ** Rows *)

Lemma row_get_set_eq (k : string) (v : value) (r : DataRow) :
  row_get k (row_set k v r) = v.
Proof.
  induction r as [|[k' v'] r IH]; cbn.
  - now rewrite String.eqb_refl.
  - destruct (String.eqb k k') eqn:E; cbn; [now rewrite String.eqb_refl|].
    now rewrite E.
Qed.

Lemma row_get_set_ne (k k' : string) (v : value) (r : DataRow) :
  k <> k' -> row_get k' (row_set k v r) = row_get k' r.
Proof.
  intros Hne. induction r as [|[k0 v0] r IH]; cbn.
  - destruct (String.eqb_spec k' k); [congruence|reflexivity].
  - destruct (String.eqb_spec k k0) as [->|]; cbn.
    + destruct (String.eqb_spec k' k0); [congruence|reflexivity].
    + now rewrite IH.
Qed.

Lemma row_get_In (k : string) (r : DataRow) :
  row_get k r <> VUndef -> In k (Object_keys r).
Proof.
  induction r as [|[k' v'] r IH]; cbn; [congruence|].
  destruct (String.eqb_spec k k'); auto.
Qed.


(** Assigning to a property the value it has changes nothing. *)
Lemma row_set_same (k : string) (v : value) (r : DataRow) :
  In k (Object_keys r) -> row_get k r = v -> row_set k v r = r.
Proof.
  induction r as [|[k' v'] r IH]; cbn; [tauto|]. intros Hin Hget.
  destruct (String.eqb_spec k k') as [->|Hne]; [now subst|].
  f_equal. apply IH; [|exact Hget]. destruct Hin; [congruence|assumption].
Qed.

(** Assigning to a property that exists keeps the property names. *)
Lemma Object_keys_set (k : string) (v : value) (r : DataRow) :
  In k (Object_keys r) -> Object_keys (row_set k v r) = Object_keys r.
Proof.
  induction r as [|[k' v'] r IH]; cbn; [tauto|]. intros Hin.
  destruct (String.eqb_spec k k') as [->|Hne]; cbn; [reflexivity|].
  f_equal. apply IH. destruct Hin; [congruence|assumption].
Qed.

Lemma row_set_entries (k : string) (v : value) (r : DataRow) (k' : string) (v' : value) :
  In (k', v') (row_set k v r) -> (k' = k /\ v' = v) \/ In (k', v') r.
Proof.
  induction r as [|[k0 v0] r IH]; cbn.
  - intros [H|[]]. injection H as <- <-. auto.
  - destruct (String.eqb k k0); cbn; intros [H|H].
    + injection H as <- <-. auto.
    + auto.
    + auto.
    + destruct (IH H); auto.
Qed.

(** ** The deep copy *)

Lemma JSON_value_stable (v v' : value) :
  JSON_value v = Some v' -> JSON_value v' = Some v'.
Proof.
  destruct v as [| |[|b| |q]|s]; cbn; intros H; inversion H; reflexivity.
Qed.

Lemma JSON_row_entries (r : DataRow) (k : string) (v : value) :
  In (k, v) (JSON_row r) -> JSON_value v = Some v.
Proof.
  induction r as [|[k0 v0] r IH]; cbn; [tauto|].
  destruct (JSON_value v0) as [w|] eqn:E; [|exact IH].
  intros [H|H]; [|auto]. injection H as <- <-. exact (JSON_value_stable _ _ E).
Qed.

Lemma JSON_row_fixed (r : DataRow) :
  (forall k v, In (k, v) r -> JSON_value v = Some v) -> JSON_row r = r.
Proof.
  induction r as [|[k0 v0] r IH]; cbn; [reflexivity|]. intros H.
  rewrite (H k0 v0) by auto. f_equal. apply IH. intros. apply (H k). auto.
Qed.

Lemma JSON_row_get (k : string) (r : DataRow) (v : value) :
  JSON_value (row_get k r) = Some v -> row_get k (JSON_row r) = v.
Proof.
  induction r as [|[k0 v0] r IH]; cbn; [discriminate|].
  destruct (String.eqb k k0) eqn:E.
  - intros ->. cbn. now rewrite E.
  - intros H. destruct (JSON_value v0); cbn; [rewrite E|]; auto.
Qed.

Lemma JSON_row_keys (k : string) (r : DataRow) :
  In k (Object_keys (JSON_row r)) -> In k (Object_keys r).
Proof.
  induction r as [|[k0 v0] r IH]; cbn; [tauto|].
  destruct (JSON_value v0); cbn; intuition.
Qed.

(** ** The collaborator call *)

(** C1 (does not hold on the code).  A response that is received but does
    not parse and a call that fails in transport both surface as the same
    failure, the service-failed one: the error thrown for the response
    that does not parse is thrown inside the outer [try], whose handler
    replaces it. *)
Theorem getAiFixSuggestions_same_failure
    (transport_fails responds : string -> result string)
    (JSON_parse : string -> result json) (prompt text e1 e2 : string) :
  transport_fails prompt = Throw e1 ->
  responds prompt = Return text ->
  JSON_parse (unfenced text) = Throw e2 ->
  getAiFixSuggestions responds JSON_parse prompt = Throw MSG_SERVICE_FAILED /\
  getAiFixSuggestions transport_fails JSON_parse prompt = Throw MSG_SERVICE_FAILED.
Proof.
  intros Ht Hr Hp. unfold getAiFixSuggestions, read_response.
  rewrite Ht, Hr. cbn. rewrite Hp. cbn. split; reflexivity.
Qed.

Lemma getAiFixSuggestions_same_failure_witness :
  getAiFixSuggestions (fun _ => Return "I cannot help with that.")
    parse_empty_object "prompt" = Throw MSG_SERVICE_FAILED /\
  getAiFixSuggestions (fun _ => Throw "fetch failed")
    parse_empty_object "prompt" = Throw MSG_SERVICE_FAILED.
Proof.
  apply (getAiFixSuggestions_same_failure
           (fun _ => Throw "fetch failed")
           (fun _ => Return "I cannot help with that.")
           parse_empty_object "prompt" "I cannot help with that."
           "fetch failed" "Unexpected token"); reflexivity.
Defined.

(** C2.  The scenario: for the legacy row A1 (100, updated 2024-01-01)
    and the spreadsheet row A1 (120, updated 2024-01-02), detection returns
    one inconsistency, of type Inventory Quantity Discrepancy, whose detail
    row holds both quantities, and consolidation returns one inventory row,
    keyed A1, with quantity 120 and source Spreadsheet.  The two dates are
    read as the standard prescribes for the date-only format. *)
Theorem scenario_A1 (Date_parse : string -> option Z) :
  Date_parse "2024-01-01" = Some 1704067200000 ->
  Date_parse "2024-01-02" = Some 1704153600000 ->
  identifyInconsistencies [legacy_A1] [spreadsheet_A1] =
    [ {| type := "Inventory Quantity Discrepancy";
         details := [ [("item_id", VStr "A1");
                       ("inventory_qty_legacy", VNum (Fin 100));
                       ("inventory_qty_spreadsheet", VNum (Fin 120))] ] |} ] /\
  consolidateData Date_parse [legacy_A1] [spreadsheet_A1] [] [] =
    {| inventory :=
         [ [("item_id", VStr "A1"); ("item_name", VUndef);
            ("inventory_qty", VNum (Fin 120)); ("last_updated", VStr "2024-01-02");
            ("_source", VStr "Spreadsheet")] ];
       orders := [];
       returns := [] |}.
Proof.
  intros H1 H2. split; [vm_compute; reflexivity|].
  unfold consolidateData.
  cbn [map app legacy_A1 spreadsheet_A1 inventory_row order_row row_get
       String.eqb Ascii.eqb Bool.eqb].
  simpl List.filter.
  unfold Array_sort. cbn [fold_right sort_insert].
  unfold by_recency, getTime.
  cbn [row_get inventory_row legacy_A1 spreadsheet_A1 String.eqb Ascii.eqb Bool.eqb Date_of].
  rewrite H1, H2.
  vm_compute. reflexivity.
Qed.

Lemma scenario_A1_witness :
  identifyInconsistencies [legacy_A1] [spreadsheet_A1] =
    [ {| type := "Inventory Quantity Discrepancy";
         details := [ [("item_id", VStr "A1");
                       ("inventory_qty_legacy", VNum (Fin 100));
                       ("inventory_qty_spreadsheet", VNum (Fin 120))] ] |} ] /\
  consolidateData ISO_date_parse [legacy_A1] [spreadsheet_A1] [] [] =
    {| inventory :=
         [ [("item_id", VStr "A1"); ("item_name", VUndef);
            ("inventory_qty", VNum (Fin 120)); ("last_updated", VStr "2024-01-02");
            ("_source", VStr "Spreadsheet")] ];
       orders := [];
       returns := [] |}.
Proof.
  apply (scenario_A1 ISO_date_parse); vm_compute; reflexivity.
Defined.

(** ** Keys of the consolidated lists *)

Lemma num_eq_sym (x y : number) : num_eq x y = num_eq y x.
Proof.
  destruct x as [|s| |p], y as [|t| |q]; cbn; try reflexivity;
    try (destruct s, t; reflexivity);
    apply eq_true_iff_eq; rewrite !Qeq_bool_iff; split; intros H; symmetry; exact H.
Qed.

Lemma same_value_zero_sym (a b : value) :
  same_value_zero a b = same_value_zero b a.
Proof.
  destruct a as [| |x|s], b as [| |y|t]; cbn; try reflexivity.
  - destruct x as [|s1| |p], y as [|s2| |q]; try reflexivity;
      exact (num_eq_sym _ _).
  - apply String.eqb_sym.
Qed.

Section MapFacts.
Context {A : Type}.
Implicit Types (m : JSMap A) (k : value).

Lemma map_get_None_Forall k m :
  map_get k m = None -> Forall (fun e => same_value_zero k (fst e) = false) m.
Proof.
  induction m as [|[k' a] m IH]; cbn; intros H; [constructor|].
  destruct (same_value_zero k k') eqn:E; [discriminate|].
  constructor; [exact E|auto].
Qed.

Lemma map_set_fresh k (a : A) m :
  map_get k m = None -> map_set k a m = m ++ [(k, a)].
Proof.
  induction m as [|[k' a'] m IH]; cbn; intros H; [reflexivity|].
  destruct (same_value_zero k k') eqn:E; [discriminate|].
  now rewrite IH.
Qed.

End MapFacts.

Lemma keyed_snoc key m (row : DataRow) :
  keyed key m -> map_get (row_get key row) m = None ->
  keyed key (m ++ [(row_get key row, row)]).
Proof.
  intros [Hk Hd] Hnone.
  pose proof (map_get_None_Forall _ _ Hnone) as Hfresh.
  rewrite Forall_lookup in Hfresh.
  split.
  - apply Forall_app. split; [exact Hk|]. constructor; [reflexivity|constructor].
  - intros i j e1 e2 Hi Hj Hij.
    apply lookup_app_Some in Hi, Hj.
    destruct Hi as [Hi|[Hli Hi]], Hj as [Hj|[Hlj Hj]].
    + eauto.
    + apply list_lookup_singleton_Some in Hj as [_ <-]. cbn.
      rewrite same_value_zero_sym. exact (Hfresh _ _ Hi).
    + apply list_lookup_singleton_Some in Hi as [_ <-]. cbn.
      exact (Hfresh _ _ Hj).
    + apply list_lookup_singleton_Some in Hi as [Hi _].
      apply list_lookup_singleton_Some in Hj as [Hj _]. lia.
Qed.

Lemma unique_by_keyed key (rows : list DataRow) : keyed key (unique_by key rows).
Proof.
  unfold unique_by.
  assert (Hgen : forall m, keyed key m ->
    keyed key (fold_left (fun m row =>
      if negb (map_has (row_get key row) m) then map_set (row_get key row) row m
      else m) rows m)).
  { induction rows as [|row rows IH]; cbn; intros m Hm; [exact Hm|].
    apply IH. unfold map_has.
    destruct (map_get (row_get key row) m) eqn:E; cbn; [exact Hm|].
    rewrite map_set_fresh by exact E. now apply keyed_snoc. }
  apply Hgen. split; [constructor|]. intros i j e1 e2 Hi. destruct i; discriminate Hi.
Qed.

Lemma keyed_distinct key m : keyed key m -> distinct_keys key (map_values m).
Proof.
  intros [Hk Hd] i j a b Hi Hj Hij. unfold map_values in *.
  change (map snd m) with (snd <$> m) in Hi, Hj.
  apply list_lookup_fmap_Some in Hi as (e1 & -> & Ei).
  apply list_lookup_fmap_Some in Hj as (e2 & -> & Ej).
  rewrite Forall_lookup in Hk.
  rewrite (Hk _ _ Ei), (Hk _ _ Ej). eauto.
Qed.

(** C3.  The consolidated inventory has at most one row per [item_id]
    and the consolidated orders at most one row per [order_id], whatever
    the four sources are. *)
Theorem consolidateData_distinct_keys (Date_parse : string -> option Z)
    (legacy spreadsheet supplier reverseLogistics : list DataRow) :
  let c := consolidateData Date_parse legacy spreadsheet supplier reverseLogistics in
  distinct_keys "item_id" (inventory c) /\ distinct_keys "order_id" (orders c).
Proof.
  cbn. split; apply keyed_distinct, unique_by_keyed.
Qed.

(** ** In-transit shipments *)




(** ** Cleaning *)

Lemma clean_qty_get_ne (row : DataRow) (col k : string) :
  col <> k -> row_get k (clean_qty row col) = row_get k row.
Proof.
  intros Hne. unfold clean_qty.
  destruct (_ || _); now rewrite row_get_set_ne.
Qed.

Lemma clean_text_get_ne (row : DataRow) (col k : string) :
  col <> k -> row_get k (clean_text row col) = row_get k row.
Proof.
  intros Hne. unfold clean_text.
  destruct (row_get col row); try reflexivity.
  destruct (truthy _); [now rewrite row_get_set_ne|reflexivity].
Qed.

Lemma clean_text_get (row : DataRow) (col : string) :
  row_get col (clean_text row col) = clean_text_value (row_get col row).
Proof.
  unfold clean_text, clean_text_value.
  destruct (row_get col row) as [| |n|s] eqn:E; try (now rewrite E).
  cbn. destruct (String.eqb s ""); cbn; [exact E|apply row_get_set_eq].
Qed.

Lemma fold_clean_qty_notin (cols : list string) (row : DataRow) (k : string) :
  ~ In k cols -> row_get k (fold_left clean_qty cols row) = row_get k row.
Proof.
  revert row. induction cols as [|c cols IH]; cbn; intros row H; [reflexivity|].
  rewrite IH by tauto. apply clean_qty_get_ne. intros ->. tauto.
Qed.

Lemma fold_clean_text_notin (cols : list string) (row : DataRow) (k : string) :
  ~ In k cols -> row_get k (fold_left clean_text cols row) = row_get k row.
Proof.
  revert row. induction cols as [|c cols IH]; cbn; intros row H; [reflexivity|].
  rewrite IH by tauto. apply clean_text_get_ne. intros ->. tauto.
Qed.

Lemma clean_qty_ok (row : DataRow) (col : string) :
  number_or_null (row_get col (clean_qty row col)).
Proof.
  unfold clean_qty. destruct (_ || _); rewrite row_get_set_eq; [now left|].
  destruct (isNaN (ToNumber _)) eqn:E; [now left|right; eauto].
Qed.


Lemma fold_clean_qty_ok (cols : list string) (row : DataRow) (k : string) :
  In k cols -> number_or_null (row_get k (fold_left clean_qty cols row)).
Proof.
  revert row. induction cols as [|c cols IH]; cbn; intros row H; [tauto|].
  destruct (in_dec String.string_dec k cols) as [Hin|Hout]; [now apply IH|].
  destruct H as [->|H]; [|tauto].
  rewrite fold_clean_qty_notin by exact Hout. apply clean_qty_ok.
Qed.

Lemma clean_text_value_ok (v : value) : number_or_null v -> clean_text_value v = v.
Proof. intros [->|(n & -> & _)]; reflexivity. Qed.

Lemma clean_text_keeps (row : DataRow) (col k : string) :
  number_or_null (row_get k row) -> row_get k (clean_text row col) = row_get k row.
Proof.
  intros H. destruct (String.eqb_spec col k) as [->|Hne].
  - rewrite clean_text_get. now apply clean_text_value_ok.
  - now apply clean_text_get_ne.
Qed.

Lemma fold_clean_text_keeps (cols : list string) (row : DataRow) (k : string) :
  number_or_null (row_get k row) ->
  row_get k (fold_left clean_text cols row) = row_get k row.
Proof.
  revert row. induction cols as [|c cols IH]; cbn; intros row H; [reflexivity|].
  rewrite IH; rewrite clean_text_keeps; auto.
Qed.

Lemma clean_row_qty (qtyCols : list string) (row : DataRow) (k : string) :
  In k qtyCols -> number_or_null (row_get k (clean_row qtyCols row)).
Proof.
  intros H. unfold clean_row.
  pose proof (fold_clean_qty_ok qtyCols row k H) as Hok.
  now rewrite fold_clean_text_keeps.
Qed.

(** A quantity column is none of the text columns. *)
Lemma qty_column_not_text (k : string) :
  is_qty_column k = true -> ~ In k textColumns.
Proof.
  intros H [<-|[<-|[<-|[<-|[]]]]]; vm_compute in H; discriminate.
Qed.

Lemma cleanData_rows (first : DataRow) (rest : list DataRow) (sourceName : string) :
  cleanData (first :: rest) sourceName =
  map (clean_row (qtyColumns [JSON_row first])) (JSON_rows (first :: rest)).
Proof. reflexivity. Qed.

(** C5 (as amended).  In every row that [cleanData] returns, every
    quantity column of the first row holds [null] or a number that is not
    NaN, never a string. *)
Theorem cleanData_quantities (data : list DataRow) (sourceName : string)
    (row : DataRow) (k : string) :
  In row (cleanData data sourceName) ->
  In k (qtyColumns (JSON_rows data)) ->
  number_or_null (row_get k row).
Proof.
  destruct data as [|first rest]; [intros []|].
  rewrite cleanData_rows. intros Hrow Hk.
  apply in_map_iff in Hrow as (r0 & <- & _).
  now apply clean_row_qty.
Qed.

Lemma cleanData_quantities_witness :
  number_or_null
    (row_get "inventory_qty" [("item_id", VStr "A1"); ("inventory_qty", VNull)]).
Proof.
  apply (cleanData_quantities
           [[("item_id", VStr " a1 "); ("inventory_qty", VStr "n/a")]]
           "Legacy Database"
           [("item_id", VStr "A1"); ("inventory_qty", VNull)] "inventory_qty").
  - vm_compute. left. reflexivity.
  - vm_compute. left. reflexivity.
Defined.

(** C5 as stated fails twice: a quantity field that the first row lacks
    stays a string, and the text Infinity becomes the number Infinity. *)
Lemma cleanData_quantities_counterexample :
  cleanData [ [("item_id", VStr "A1")];
              [("item_id", VStr "A2"); ("order_qty", VStr "twelve")] ]
            "Legacy Database"
  = [ [("item_id", VStr "A1")];
      [("item_id", VStr "A2"); ("order_qty", VStr "twelve")] ] /\
  cleanData [ [("inventory_qty", VStr "Infinity")] ] "Legacy Database"
  = [ [("inventory_qty", VNum (Inf false))] ] /\
  ~ (forall data sourceName row k,
       In row (cleanData data sourceName) -> In k (Object_keys row) ->
       is_qty_column k = true -> finite_or_null (row_get k row)).
Proof.
  split; [vm_compute; reflexivity|]. split; [vm_compute; reflexivity|].
  intros H.
  assert (Hf : finite_or_null
                 (row_get "inventory_qty" [("inventory_qty", VNum (Inf false))])).
  { apply (H [ [("inventory_qty", VStr "Infinity")] ] "Legacy Database").
    - vm_compute. now left.
    - now left.
    - reflexivity. }
  vm_compute in Hf. discriminate Hf.
Qed.

(** C10 (as amended).  A quantity field that the first row lacks is not
    a quantity column: in every later row it holds after cleaning what the
    deep copy of that row holds.  A string stays that string, and so does
    every value that the deep copy reads back as it was; a NaN or an
    infinite number has turned into [null], negative zero into 0. *)
Theorem cleanData_first_row_decides (first : DataRow) (rest : list DataRow)
    (sourceName k : string) (i : nat) (r : DataRow) :
  is_qty_column k = true ->
  ~ In k (Object_keys first) ->
  rest !! i = Some r ->
  exists out,
    cleanData (first :: rest) sourceName !! S i = Some out /\
    row_get k out = row_get k (JSON_row r) /\
    (forall s, row_get k r = VStr s -> row_get k out = VStr s) /\
    (forall v, JSON_value (row_get k r) = Some v -> row_get k out = v).
Proof.
  intros Hq Hfirst Hr. rewrite cleanData_rows. cbn [JSON_rows map].
  exists (clean_row (qtyColumns [JSON_row first]) (JSON_row r)).
  assert (Hget : row_get k (clean_row (qtyColumns [JSON_row first]) (JSON_row r))
                 = row_get k (JSON_row r)).
  { unfold clean_row.
    rewrite fold_clean_text_notin by now apply qty_column_not_text.
    apply fold_clean_qty_notin. unfold qtyColumns. cbn [hd].
    intros Hin. apply filter_In in Hin as [Hin _].
    now apply JSON_row_keys in Hin. }
  split; [|split; [|split]].
  - cbn [JSON_rows map]. rewrite lookup_cons, !lookup_map, Hr. reflexivity.
  - exact Hget.
  - intros s Hs. rewrite Hget. apply JSON_row_get. now rewrite Hs.
  - intros v Hv. rewrite Hget. now apply JSON_row_get.
Qed.

Lemma cleanData_first_row_decides_witness :
  exists out,
    cleanData [ [("item_id", VStr "A1")];
                [("item_id", VStr "A2"); ("order_qty", VStr "twelve")] ]
              "Legacy Database" !! 1%nat = Some out /\
    row_get "order_qty" out =
      row_get "order_qty" (JSON_row [("item_id", VStr "A2"); ("order_qty", VStr "twelve")]) /\
    (forall s,
       row_get "order_qty" [("item_id", VStr "A2"); ("order_qty", VStr "twelve")] = VStr s ->
       row_get "order_qty" out = VStr s) /\
    (forall v,
       JSON_value
         (row_get "order_qty" [("item_id", VStr "A2"); ("order_qty", VStr "twelve")])
       = Some v ->
       row_get "order_qty" out = v).
Proof.
  apply (cleanData_first_row_decides [("item_id", VStr "A1")]
           [[("item_id", VStr "A2"); ("order_qty", VStr "twelve")]]
           "Legacy Database" "order_qty" 0
           [("item_id", VStr "A2"); ("order_qty", VStr "twelve")]).
  - reflexivity.
  - cbn. intros [H|[]]. discriminate H.
  - reflexivity.
Defined.

(** C10 as stated fails for a later row whose field holds an infinite
    number: the first row has no such field, the field is not coerced,
    and yet the deep copy has written it as [null]. *)
Lemma cleanData_first_row_decides_counterexample :
  cleanData [ [("item_id", VStr "A1")];
              [("item_id", VStr "A2"); ("order_qty", VNum (Inf false))] ]
            "Legacy Database"
  = [ [("item_id", VStr "A1")];
      [("item_id", VStr "A2"); ("order_qty", VNull)] ] /\
  ~ (forall (first : DataRow) (rest : list DataRow) (sourceName k : string)
            (i : nat) (r : DataRow),
       is_qty_column k = true ->
       ~ In k (Object_keys first) ->
       rest !! i = Some r ->
       exists out,
         cleanData (first :: rest) sourceName !! S i = Some out /\
         row_get k out = row_get k r).
Proof.
  split; [vm_compute; reflexivity|].
  intros H.
  destruct (H [("item_id", VStr "A1")]
              [[("item_id", VStr "A2"); ("order_qty", VNum (Inf false))]]
              "Legacy Database" "order_qty" 0%nat
              [("item_id", VStr "A2"); ("order_qty", VNum (Inf false))])
    as (out & Hout & Hget).
  - reflexivity.
  - cbn. intros [E|[]]. discriminate E.
  - reflexivity.
  - vm_compute in Hout. injection Hout as <-. discriminate Hget.
Qed.

(** *** Cleaning a cleaned row set *)

Lemma clean_qty_fixed (row : DataRow) (col : string) :
  number_or_null (row_get col row) -> clean_qty row col = row.
Proof.
  intros H. unfold clean_qty.
  destruct H as [E|(n & E & Hn)]; rewrite E; cbn.
  - apply row_set_same; [|exact E]. apply row_get_In. now rewrite E.
  - rewrite Hn. apply row_set_same; [|exact E]. apply row_get_In. now rewrite E.
Qed.

Lemma clean_text_fixed (row : DataRow) (col : string) :
  clean_text_value (row_get col row) = row_get col row -> clean_text row col = row.
Proof.
  unfold clean_text, clean_text_value.
  destruct (row_get col row) as [| |n|s] eqn:E; try reflexivity.
  cbn. destruct (String.eqb s ""); cbn; [reflexivity|].
  intros H. rewrite H. apply row_set_same; [|exact E].
  apply row_get_In. now rewrite E.
Qed.

Lemma clean_row_fixed (qtyCols : list string) (x : DataRow) :
  cleaned qtyCols x -> clean_row qtyCols x = x.
Proof.
  intros [Hq Ht]. unfold clean_row.
  assert (E1 : fold_left clean_qty qtyCols x = x).
  { clear Ht. induction qtyCols as [|c cols IH]; cbn; [reflexivity|].
    rewrite clean_qty_fixed by (apply Hq; now left).
    apply IH. intros k Hk. apply Hq. now right. }
  rewrite E1. clear Hq E1.
  induction textColumns as [|c cols IH]; cbn; [reflexivity|].
  rewrite clean_text_fixed by (apply Ht; now left).
  apply IH. intros t Hin. apply Ht. now right.
Qed.

Lemma fold_clean_text_get (cols : list string) (y : DataRow) (t : string) :
  List.NoDup cols -> In t cols ->
  row_get t (fold_left clean_text cols y) = clean_text_value (row_get t y).
Proof.
  revert y. induction cols as [|c cols IH]; cbn; intros y Hnd Hin; [tauto|].
  apply NoDup_cons_iff in Hnd as [Hc Hnd].
  destruct Hin as [->|Hin].
  - rewrite fold_clean_text_notin by exact Hc. apply clean_text_get.
  - rewrite IH by assumption. f_equal. apply clean_text_get_ne.
    intros ->. contradiction.
Qed.

Lemma clean_text_value_idem (v : value) :
  clean_text_value (clean_text_value v) = clean_text_value v.
Proof.
  destruct v as [| |n|s]; try reflexivity.
  unfold clean_text_value at 2.
  destruct (String.eqb s "") eqn:E.
  - unfold clean_text_value. now rewrite E.
  - unfold clean_text_value. rewrite E.
    destruct (String.eqb (toUpperCase (trim s)) ""); [reflexivity|].
    now rewrite trim_toUpperCase, trim_idem, toUpperCase_idem.
Qed.

Lemma textColumns_NoDup : List.NoDup textColumns.
Proof.
  unfold textColumns. repeat constructor; cbn; intuition discriminate.
Qed.

Lemma clean_row_cleaned (qtyCols : list string) (r : DataRow) :
  cleaned qtyCols (clean_row qtyCols r).
Proof.
  split.
  - intros k Hk. now apply clean_row_qty.
  - intros t Ht. unfold clean_row.
    rewrite fold_clean_text_get by (exact textColumns_NoDup || exact Ht).
    apply clean_text_value_idem.
Qed.

Lemma Object_keys_clean_qty (row : DataRow) (col : string) :
  In col (Object_keys row) -> Object_keys (clean_qty row col) = Object_keys row.
Proof.
  intros H. unfold clean_qty. destruct (_ || _); now apply Object_keys_set.
Qed.

Lemma Object_keys_clean_text (row : DataRow) (col : string) :
  Object_keys (clean_text row col) = Object_keys row.
Proof.
  unfold clean_text. destruct (row_get col row) as [| |n|s] eqn:E; try reflexivity.
  destruct (truthy _); [|reflexivity].
  apply Object_keys_set, row_get_In. now rewrite E.
Qed.

Lemma Object_keys_clean_row (qtyCols : list string) (row : DataRow) :
  (forall k, In k qtyCols -> In k (Object_keys row)) ->
  Object_keys (clean_row qtyCols row) = Object_keys row.
Proof.
  intros H. unfold clean_row.
  assert (E : forall cols y, Object_keys (fold_left clean_text cols y) = Object_keys y).
  { induction cols as [|c cols IH]; cbn; intros y; [reflexivity|].
    now rewrite IH, Object_keys_clean_text. }
  rewrite E. clear E. revert row H.
  induction qtyCols as [|c cols IH]; cbn; intros row H; [reflexivity|].
  rewrite IH.
  - apply Object_keys_clean_qty. apply H. now left.
  - intros k Hk. rewrite Object_keys_clean_qty by (apply H; now left).
    apply H. now right.
Qed.

Lemma JSON_row_defined (r : DataRow) : defined_entries (JSON_row r).
Proof.
  intros k v Hin ->. apply JSON_row_entries in Hin. discriminate.
Qed.

Lemma clean_row_defined (qtyCols : list string) (r : DataRow) :
  defined_entries r -> defined_entries (clean_row qtyCols r).
Proof.
  intros H. unfold clean_row.
  assert (Et : forall cols y, defined_entries y ->
                defined_entries (fold_left clean_text cols y)).
  { induction cols as [|c cols IH]; cbn; intros y Hy; [exact Hy|].
    apply IH. unfold clean_text.
    destruct (row_get c y); try exact Hy.
    destruct (truthy _); [|exact Hy].
    intros k v Hin. apply row_set_entries in Hin as [[_ ->]|Hin]; [discriminate|eauto]. }
  apply Et. clear Et. revert r H.
  induction qtyCols as [|c cols IH]; cbn; intros r H; [exact H|].
  apply IH. unfold clean_qty.
  destruct (_ || _); intros k v Hin;
    apply row_set_entries in Hin as [[_ ->]|Hin]; eauto; try discriminate.
  destruct (isNaN _); discriminate.
Qed.

Lemma qtyColumns_in_keys (df : list DataRow) (k : string) :
  In k (qtyColumns df) -> In k (Object_keys (hd [] df)).
Proof. unfold qtyColumns. intros H. now apply filter_In in H. Qed.

Lemma cleanData_nonempty (c : list DataRow) (s : string) :
  c <> [] ->
  cleanData c s = map (clean_row (qtyColumns (JSON_rows c))) (JSON_rows c).
Proof. destruct c; [congruence|reflexivity]. Qed.

(** C6 (as amended).  Cleaning a cleaned row set again changes nothing,
    provided every number of the cleaned row set is finite and is not
    negative zero. *)
Theorem cleanData_idempotent (d : list DataRow) (s : string) :
  plain_numbers (cleanData d s) ->
  cleanData (cleanData d s) s = cleanData d s.
Proof.
  destruct d as [|first rest]; [reflexivity|]. intros Hplain.
  set (Q := qtyColumns [JSON_row first]).
  assert (Ec : cleanData (first :: rest) s
               = map (clean_row Q) (JSON_rows (first :: rest))) by reflexivity.
  rewrite Ec in Hplain |- *. clear Ec.
  set (df := JSON_rows (first :: rest)) in *.
  set (c := map (clean_row Q) df) in *.
  assert (Hjson : JSON_rows c = c).
  { unfold JSON_rows. rewrite <- (map_id c) at 2. apply map_ext_in.
    intros row Hrow. apply JSON_row_fixed. intros k v Hin.
    assert (Hdef : defined_entries row).
    { unfold c in Hrow. apply in_map_iff in Hrow as (r0 & <- & Hr0).
      apply clean_row_defined. unfold df, JSON_rows in Hr0.
      apply in_map_iff in Hr0 as (r1 & <- & _). apply JSON_row_defined. }
    destruct v as [| |n|t]; try reflexivity.
    - now apply Hdef in Hin.
    - destruct (Hplain row k n Hrow Hin) as [q ->]. reflexivity. }
  assert (Hhd : hd [] c = clean_row Q (JSON_row first)) by reflexivity.
  assert (HQ : qtyColumns c = Q).
  { unfold qtyColumns at 1. rewrite Hhd, Object_keys_clean_row; [reflexivity|].
    intros k Hk. now apply qtyColumns_in_keys in Hk. }
  rewrite cleanData_nonempty by discriminate.
  rewrite Hjson, HQ.
  rewrite <- (map_id c) at 2. apply map_ext_in. intros row Hrow.
  apply clean_row_fixed. unfold c in Hrow.
  apply in_map_iff in Hrow as (r0 & <- & _). apply clean_row_cleaned.
Qed.

Lemma cleanData_idempotent_witness :
  cleanData (cleanData [ [("item_id", VStr " a1 "); ("inventory_qty", VStr "12")] ]
               "Legacy Database") "Legacy Database"
  = cleanData [ [("item_id", VStr " a1 "); ("inventory_qty", VStr "12")] ]
      "Legacy Database".
Proof.
  apply (cleanData_idempotent
           [ [("item_id", VStr " a1 "); ("inventory_qty", VStr "12")] ]
           "Legacy Database").
  intros row k n Hrow Hin. vm_compute in Hrow.
  destruct Hrow as [<-|[]].
  destruct Hin as [H|[H|[]]]; [discriminate H|].
  injection H as _ <-. eexists. reflexivity.
Defined.

(** C6 as stated fails: the text Infinity is cleaned to the number
    Infinity, which the deep copy of the second cleaning writes as null. *)
Lemma cleanData_idempotent_counterexample :
  cleanData [ [("inventory_qty", VStr "Infinity")] ] "Legacy Database"
    = [ [("inventory_qty", VNum (Inf false))] ] /\
  cleanData (cleanData [ [("inventory_qty", VStr "Infinity")] ] "Legacy Database")
            "Legacy Database"
    = [ [("inventory_qty", VNull)] ] /\
  cleanData (cleanData [ [("inventory_qty", VStr "Infinity")] ] "Legacy Database")
            "Legacy Database"
    <> cleanData [ [("inventory_qty", VStr "Infinity")] ] "Legacy Database".
Proof.
  split; [vm_compute; reflexivity|]. split; [vm_compute; reflexivity|].
  vm_compute. discriminate.
Qed.

(** ** Merging corrections *)

Lemma alloc_rows_spec (rows : list DataRow) (h h' : heap) (ls : list loc) :
  alloc_rows h rows = (h', ls) ->
  h ⊆ h' /\
  Forall2 (fun l r => h' !! l = Some r) ls rows /\
  Forall (fun l => h !! l = None) ls /\
  NoDup ls.
Proof.
  revert h h' ls. induction rows as [|r rows IH]; cbn; intros h h' ls H.
  - injection H as <- <-. split; [done|]. repeat split; constructor.
  - destruct (alloc_rows _ rows) as [h2 ls'] eqn:E. injection H as <- <-.
    set (l := fresh (dom h)) in *.
    assert (Hl : h !! l = None) by apply not_elem_of_dom, is_fresh.
    destruct (IH _ _ _ E) as (Hsub & Hall & Hfresh & Hnd).
    assert (Hsub1 : h ⊆ <[l:=r]> h) by now apply insert_subseteq.
    repeat split.
    + now trans (<[l:=r]> h).
    + constructor; [|exact Hall].
      eapply lookup_weaken; [|exact Hsub]. apply lookup_insert_eq.
    + constructor; [exact Hl|].
      eapply Forall_impl; [exact Hfresh|]. cbn. intros l' Hl'.
      destruct (h !! l') eqn:E'; [|reflexivity].
      eapply lookup_weaken in E'; [|exact Hsub1]. congruence.
    + constructor; [|exact Hnd]. intros Hin.
      rewrite Forall_forall in Hfresh. specialize (Hfresh _ Hin).
      rewrite lookup_insert_eq in Hfresh. discriminate.
Qed.

Section UpdateSource.
Variables (consolidatedData : list DataRow) (idField : string)
  (mappings : list (string * string)).

Let cmap := consolidatedMap consolidatedData idField.

Lemma updateSource_frame (arr : list loc) (h : heap) (l : loc) :
  l ∉ arr ->
  updateSource h arr consolidatedData idField mappings !! l = h !! l.
Proof.
  unfold updateSource. fold cmap.
  revert h. induction arr as [|a arr IH]; cbn; intros h Hl; [reflexivity|].
  apply not_elem_of_cons in Hl as [Hne Hl].
  rewrite IH by exact Hl.
  destruct (h !! a) as [row|]; [|reflexivity].
  destruct (map_get _ cmap); [|reflexivity].
  now apply lookup_insert_ne.
Qed.

Lemma updateSource_row (arr : list loc) (h : heap) (l : loc) (row : DataRow) :
  NoDup arr -> l ∈ arr -> h !! l = Some row ->
  updateSource h arr consolidatedData idField mappings !! l
  = Some (corrected cmap idField mappings row).
Proof.
  revert h. induction arr as [|a arr IH]; intros h Hnd Hin Hrow.
  - now apply elem_of_nil in Hin.
  - apply NoDup_cons in Hnd as [Ha Hnd].
    change (updateSource h (a :: arr) consolidatedData idField mappings)
      with (updateSource
              (match h !! a with
               | Some row =>
                   match map_get (row_get idField row) cmap with
                   | Some correctedItem =>
                       <[a := apply_mappings mappings correctedItem row]> h
                   | None => h
                   end
               | None => h
               end) arr consolidatedData idField mappings).
    destruct (decide (l = a)) as [->|Hne].
    + rewrite updateSource_frame by exact Ha. rewrite Hrow. unfold corrected.
      destruct (map_get _ cmap); [apply lookup_insert_eq|exact Hrow].
    + apply elem_of_cons in Hin as [?|Hin]; [contradiction|].
      apply IH; [exact Hnd|exact Hin|].
      destruct (h !! a) as [row'|]; [|exact Hrow].
      destruct (map_get _ cmap); [|exact Hrow].
      rewrite lookup_insert_ne by congruence. exact Hrow.
Qed.

End UpdateSource.

Lemma map_get_set_None {A} (k k' : value) (a : A) (m : JSMap A) :
  same_value_zero k k' = false -> map_get k m = None ->
  map_get k (map_set k' a m) = None.
Proof.
  intros Hk. induction m as [|[k0 a0] m IH]; cbn.
  - now rewrite Hk.
  - destruct (same_value_zero k k0) eqn:E; [discriminate|]. intros Hm.
    destruct (same_value_zero k' k0); cbn; rewrite E; auto.
Qed.

Lemma consolidatedMap_unmatched (data : list DataRow) (idField : string) (k : value) :
  (forall c, In c data -> same_value_zero k (row_get idField c) = false) ->
  map_get k (consolidatedMap data idField) = None.
Proof.
  unfold consolidatedMap.
  assert (Hgen : forall m, map_get k m = None ->
            (forall c, In c data -> same_value_zero k (row_get idField c) = false) ->
            map_get k (fold_left (fun m item => map_set (row_get idField item) item m)
                         data m) = None).
  { induction data as [|c data IH]; cbn; intros m Hm Hall; [exact Hm|].
    apply IH; [|auto]. apply map_get_set_None; auto. }
  now apply Hgen.
Qed.

Lemma corrected_unmatched (data : list DataRow) (idField : string)
    (mappings : list (string * string)) (row : DataRow) :
  unmatched idField (Some data) row ->
  corrected (consolidatedMap data idField) idField mappings row = row.
Proof.
  intros H. unfold corrected.
  rewrite consolidatedMap_unmatched; [reflexivity|].
  intros c Hc. now apply (H data).
Qed.

Lemma Forall2_elem_l {A B} (P : A -> B -> Prop) (xs : list A) (ys : list B) (x : A) :
  Forall2 P xs ys -> x ∈ xs -> exists y, P x y.
Proof.
  induction 1 as [|a b xs ys Hab _ IH]; intros Hin.
  - now apply elem_of_nil in Hin.
  - apply elem_of_cons in Hin as [->|Hin]; eauto.
Qed.

Lemma copy_sources_spec (h h0 : heap) (s u : SourceData) :
  copy_sources h s = (h0, u) ->
  h ⊆ h0 /\
  Forall2 (fun l r => h0 !! l = Some r) (legacy u) (stringify_rows h (legacy s)) /\
  Forall2 (fun l r => h0 !! l = Some r) (spreadsheet u)
    (stringify_rows h (spreadsheet s)) /\
  Forall2 (fun l r => h0 !! l = Some r) (supplier u) (stringify_rows h (supplier s)) /\
  Forall2 (fun l r => h0 !! l = Some r) (reverseLogistics u)
    (stringify_rows h (reverseLogistics s)) /\
  Forall (fun l => h !! l = None)
    (legacy u ++ spreadsheet u ++ supplier u ++ reverseLogistics u) /\
  NoDup (legacy u ++ spreadsheet u ++ supplier u ++ reverseLogistics u).
Proof.
  unfold copy_sources.
  destruct (alloc_rows h _) as [h1 a] eqn:Ea.
  destruct (alloc_rows h1 _) as [h2 b] eqn:Eb.
  destruct (alloc_rows h2 _) as [h3 c] eqn:Ec.
  destruct (alloc_rows h3 _) as [h4 d] eqn:Ed.
  apply alloc_rows_spec in Ea as (Sa & Fa & Na & Da).
  apply alloc_rows_spec in Eb as (Sb & Fb & Nb & Db).
  apply alloc_rows_spec in Ec as (Sc & Fc & Nc & Dc).
  apply alloc_rows_spec in Ed as (Sd & Fd & Nd & Dd).
  destruct (match option_map _ _ with Some _ => _ | None => _ end) as [h5 e] eqn:E5.
  assert (S45 : h4 ⊆ h5).
  { destruct (option_map _ _) as [rows|].
    - destruct (alloc_rows h4 rows) as [h5' e'] eqn:Ee. injection E5 as <- <-.
      now apply alloc_rows_spec in Ee as (Se & _).
    - now injection E5 as <- <-. }
  clear E5. intros [= <- <-]. cbn [legacy spreadsheet supplier reverseLogistics].
  assert (S15 : h1 ⊆ h5) by (trans h2; [done|]; trans h3; [done|]; now trans h4).
  assert (S25 : h2 ⊆ h5) by (trans h3; [done|]; now trans h4).
  assert (S35 : h3 ⊆ h5) by now trans h4.
  assert (Hweak : forall (hx : heap) ls rows, hx ⊆ h5 ->
             Forall2 (fun l r => hx !! l = Some r) ls rows ->
             Forall2 (fun l r => h5 !! l = Some r) ls rows).
  { intros hx ls rows Hsub HF. eapply Forall2_impl; [exact HF|].
    cbn. intros l r Hl. eapply lookup_weaken; eauto. }
  assert (Hnone : forall (hx hy : heap) (l : loc), hx ⊆ hy -> hy !! l = None -> hx !! l = None).
  { intros hx hy l Hsub Hy. destruct (hx !! l) eqn:E; [|reflexivity].
    eapply lookup_weaken in E; [|exact Hsub]. congruence. }
  assert (Hdisj : forall (hx hy : heap) xs (rows : list DataRow) ys l,
             Forall2 (fun l r => hx !! l = Some r) xs rows -> hx ⊆ hy ->
             Forall (fun l => hy !! l = None) ys -> l ∈ xs -> l ∉ ys).
  { intros hx hy xs rows ys l HF Hsub Hys Hx Hy.
    destruct (Forall2_elem_l _ _ _ _ HF Hx) as [r Hr].
    rewrite Forall_forall in Hys. specialize (Hys _ Hy).
    eapply lookup_weaken in Hr; [|exact Hsub]. congruence. }
  split; [trans h1; [done|exact S15]|].
  split; [now apply (Hweak h1)|].
  split; [now apply (Hweak h2)|].
  split; [now apply (Hweak h3)|].
  split; [now apply (Hweak h4)|].
  split.
  - repeat (apply Forall_app; split); [exact Na| | |];
      (eapply Forall_impl; [eassumption|]); cbn; intros l Hl.
    + exact (Hnone h h1 l Sa Hl).
    + apply (Hnone h h1 l Sa), (Hnone h1 h2 l Sb Hl).
    + apply (Hnone h h1 l Sa), (Hnone h1 h2 l Sb), (Hnone h2 h3 l Sc Hl).
  - apply NoDup_app. split; [exact Da|]. split.
    + intros l Hl Hin. apply elem_of_app in Hin as [Hin|Hin];
        [|apply elem_of_app in Hin as [Hin|Hin]].
      * exact (Hdisj h1 h1 _ _ _ l Fa (reflexivity _) Nb Hl Hin).
      * exact (Hdisj h1 h2 _ _ _ l Fa Sb Nc Hl Hin).
      * refine (Hdisj h1 h3 _ _ _ l Fa _ Nd Hl Hin). now trans h2.
    + apply NoDup_app. split; [exact Db|]. split.
      * intros l Hl Hin. apply elem_of_app in Hin as [Hin|Hin].
        -- exact (Hdisj h2 h2 _ _ _ l Fb (reflexivity _) Nc Hl Hin).
        -- exact (Hdisj h2 h3 _ _ _ l Fb Sc Nd Hl Hin).
      * apply NoDup_app. split; [exact Dc|]. split; [|exact Dd].
        intros l Hl Hin.
        exact (Hdisj h3 h3 _ _ _ l Fc (reflexivity _) Nd Hl Hin).
Qed.

(** What the two updates of the inventory fields, then of the order
    fields, leave in a row of a mandatory source. *)
Lemma merge_lookup (h h' : heap) (s u : SourceData) (f : AiFixedData) :
  mergeAiFixesIntoSources h s f = (h', u) ->
  exists h0,
    copy_sources h s = (h0, u) /\
    (forall l, l ∉ legacy u -> l ∉ spreadsheet u -> h' !! l = h0 !! l) /\
    (forall l row, l ∈ legacy u ++ spreadsheet u -> h0 !! l = Some row ->
       unmatched "item_id" (consolidatedInventory f) row ->
       unmatched "order_id" (consolidatedOrders f) row ->
       h' !! l = Some row).
Proof.
  unfold mergeAiFixesIntoSources.
  destruct (copy_sources h s) as [h0 u'] eqn:Ecopy. intros [= <- <-].
  exists h0. split; [reflexivity|].
  destruct (copy_sources_spec _ _ _ _ Ecopy) as (_ & _ & _ & _ & _ & _ & Hnd).
  apply NoDup_app in Hnd as (Na & Hab & Hnd).
  apply NoDup_app in Hnd as (Nb & _ & _).
  assert (Hab' : forall l, l ∈ legacy u' -> l ∉ spreadsheet u').
  { intros l Hl Hin. apply (Hab l Hl). apply elem_of_app. now left. }
  assert (Hba : forall l, l ∈ spreadsheet u' -> l ∉ legacy u').
  { intros l Hl Hin. exact (Hab' l Hin Hl). }
  split.
  - intros l Ha Hb.
    destruct (consolidatedOrders f), (consolidatedInventory f);
      now rewrite ?updateSource_frame.
  - intros l row Hin Hrow Hinv Hord.
    assert (Hstep : forall (h1 : heap) data idField mappings,
              unmatched idField (Some data) row -> h1 !! l = Some row ->
              updateSource (updateSource h1 (legacy u') data idField mappings)
                (spreadsheet u') data idField mappings !! l = Some row).
    { intros h1 data idField mappings Hun H1.
      apply elem_of_app in Hin as [Hin|Hin].
      - rewrite updateSource_frame by now apply Hab'.
        rewrite (updateSource_row _ _ _ _ _ _ row Na Hin H1).
        now rewrite corrected_unmatched.
      - rewrite (updateSource_row _ _ _ _ _ _ row Nb Hin).
        + now rewrite corrected_unmatched.
        + rewrite updateSource_frame by now apply Hba. exact H1. }
    destruct (consolidatedInventory f) as [inv|], (consolidatedOrders f) as [ord|];
      auto.
Qed.

Lemma deref_lookup (h : heap) (l : loc) (row : DataRow) :
  h !! l = Some row -> deref h l = row.
Proof. intros H. unfold deref. now rewrite H. Qed.

Lemma copied_rows (h h' : heap) (ls' ls : list loc) :
  Forall2 (fun l r => h' !! l = Some r) ls' (stringify_rows h ls) ->
  Forall (fun l => plain_row (deref h l)) ls ->
  map (deref h') ls' = map (deref h) ls.
Proof.
  revert ls'. induction ls as [|l ls IH]; cbn [map stringify_rows];
    intros ls' HF Hplain.
  - now inversion HF.
  - inversion HF as [|l' r ls0 rs Hl' HF']; subst. cbn [map].
    apply Forall_cons in Hplain as [Hp Hplain].
    f_equal; [|now apply IH].
    rewrite (deref_lookup _ _ _ Hl'). now apply JSON_row_fixed.
Qed.

(** C4 (as amended).  Merging never writes to a row of the caller.  For
    sources whose rows hold only strings, [null] and finite numbers other
    than negative zero, the supplier rows and the reverse-logistics rows of
    the result are those of the original, field by field, and so is every
    row of the two mandatory sources whose [item_id] matches no corrected
    inventory row and whose [order_id] matches no corrected order row. *)
Theorem mergeAiFixesIntoSources_frame (h h' : heap)
    (originalSources updated : SourceData) (aiFixedData : AiFixedData) :
  mergeAiFixesIntoSources h originalSources aiFixedData = (h', updated) ->
  (forall l row, h !! l = Some row -> h' !! l = Some row) /\
  (Forall (fun l => plain_row (deref h l)) (supplier originalSources) ->
   map (deref h') (supplier updated) = map (deref h) (supplier originalSources)) /\
  (Forall (fun l => plain_row (deref h l)) (reverseLogistics originalSources) ->
   map (deref h') (reverseLogistics updated)
   = map (deref h) (reverseLogistics originalSources)) /\
  (forall (source : SourceData -> list loc) (i : nat) (l : loc),
     source = legacy \/ source = spreadsheet ->
     source originalSources !! i = Some l ->
     plain_row (deref h l) ->
     unmatched "item_id" (consolidatedInventory aiFixedData) (deref h l) ->
     unmatched "order_id" (consolidatedOrders aiFixedData) (deref h l) ->
     exists l', source updated !! i = Some l' /\ deref h' l' = deref h l).
Proof.
  intros Hmerge.
  destruct (merge_lookup _ _ _ _ _ Hmerge) as (h0 & Hcopy & Hframe & Hrows).
  destruct (copy_sources_spec _ _ _ _ Hcopy)
    as (Hsub & Fa & Fb & Fc & Fd & Hfresh & Hnd).
  assert (Hout : forall l, l ∈ legacy updated ++ spreadsheet updated ->
                   h !! l = None).
  { intros l Hl. rewrite Forall_forall in Hfresh. apply Hfresh.
    rewrite app_assoc. apply elem_of_app. now left. }
  assert (Hother : forall l, l ∈ supplier updated ++ reverseLogistics updated ->
                     h' !! l = h0 !! l).
  { intros l Hl. rewrite app_assoc in Hnd. apply NoDup_app in Hnd as (_ & Hd & _).
    apply Hframe; intros Hin; apply (Hd l); try exact Hl;
      apply elem_of_app; auto. }
  assert (Hsame : forall ls' ls,
            (forall l, l ∈ ls' -> l ∈ supplier updated ++ reverseLogistics updated) ->
            Forall2 (fun l r => h0 !! l = Some r) ls' (stringify_rows h ls) ->
            Forall2 (fun l r => h' !! l = Some r) ls' (stringify_rows h ls)).
  { intros ls' ls Hin HF. apply Forall2_same_length_lookup.
    apply Forall2_same_length_lookup in HF as [Hlen HF].
    split; [exact Hlen|]. intros i l r Hl Hr.
    rewrite Hother; [eauto|]. apply Hin. eapply list_elem_of_lookup_2; eauto. }
  split; [|split; [|split]].
  - intros l row Hl. rewrite Hframe.
    + eapply lookup_weaken; eauto.
    + intros Hin. rewrite Hout in Hl; [discriminate|]. apply elem_of_app; auto.
    + intros Hin. rewrite Hout in Hl; [discriminate|]. apply elem_of_app; auto.
  - intros Hplain. apply copied_rows; [|exact Hplain].
    apply Hsame; [|exact Fc]. intros l Hl. apply elem_of_app. now left.
  - intros Hplain. apply copied_rows; [|exact Hplain].
    apply Hsame; [|exact Fd]. intros l Hl. apply elem_of_app. now right.
  - intros source i l Hsource Hl Hplain Hinv Hord.
    assert (HF : Forall2 (fun l r => h0 !! l = Some r) (source updated)
                   (stringify_rows h (source originalSources)))
      by (destruct Hsource as [->| ->]; assumption).
    assert (Hin : forall l', l' ∈ source updated ->
                    l' ∈ legacy updated ++ spreadsheet updated)
      by (intros l' Hl'; apply elem_of_app; destruct Hsource as [->| ->]; auto).
    apply Forall2_same_length_lookup in HF as [Hlen HF].
    assert (Hr : stringify_rows h (source originalSources) !! i
                 = Some (deref h l)).
    { unfold stringify_rows. rewrite lookup_map, Hl. cbn.
      now rewrite JSON_row_fixed. }
    destruct (lookup_lt_is_Some_2 (source updated) i) as [l' Hl'].
    { rewrite Hlen. eapply lookup_lt_Some; eauto. }
    exists l'. split; [exact Hl'|].
    apply deref_lookup, Hrows; auto.
    + apply Hin. eapply list_elem_of_lookup_2; eauto.
    + eauto.
Qed.

(** ** binary64 rounding *)

Lemma rne_nonneg (n d : Z) : 0 <= n -> 0 < d -> 0 <= rne n d.
Proof.
  intros Hn Hd. unfold rne.
  pose proof (Z.div_pos n d Hn Hd).
  destruct (2 * (n mod d) ?= d); [destruct (Z.even (n / d))| |]; lia.
Qed.

(** Rounding does not pass an integer that the quotient does not pass. *)
Lemma rne_le (n d B : Z) : 0 < d -> n <= B * d -> rne n d <= B.
Proof.
  intros Hd Hle. unfold rne.
  pose proof (Z.div_mod n d ltac:(lia)) as Hdm.
  pose proof (Z.mod_pos_bound n d Hd) as Hr.
  assert (Hq : n / d <= B) by nia.
  destruct (Z.compare_spec (2 * (n mod d)) d) as [He|Hlt|Hgt].
  - destruct (Z.even (n / d)); [exact Hq|nia].
  - exact Hq.
  - nia.
Qed.

(** The rounded quotient is within one half of the quotient. *)
Lemma rne_error (n d : Z) :
  0 < d -> - d <= 2 * (rne n d * d - n) <= d.
Proof.
  intros Hd. unfold rne.
  pose proof (Z.div_mod n d ltac:(lia)) as Hdm.
  pose proof (Z.mod_pos_bound n d Hd) as Hr.
  destruct (Z.compare_spec (2 * (n mod d)) d) as [He|Hlt|Hgt].
  - destruct (Z.even (n / d)); nia.
  - nia.
  - nia.
Qed.

(** A quotient below 2^K has a binary logarithm below K. *)
Lemma ilog2_upper (n d K : Z) :
  0 < n -> 0 < d -> 0 <= K -> n < d * 2 ^ K -> ilog2 n d <= K - 1.
Proof.
  intros Hn Hd HK Hlt. unfold ilog2.
  set (k := Z.log2 n - Z.log2 d).
  pose proof (Z.log2_spec n Hn) as [Hn1 Hn2].
  pose proof (Z.log2_spec d Hd) as [Hd1 Hd2].
  pose proof (Z.log2_nonneg n). pose proof (Z.log2_nonneg d).
  assert (Hk : k <= K).
  { destruct (Z_le_gt_dec k K) as [|Hgt]; [assumption|exfalso].
    assert (E : Z.log2 n = (Z.log2 d + 1) + (k - 1)) by (unfold k; lia).
    rewrite E, Z.pow_add_r in Hn1 by lia.
    assert (2 ^ K <= 2 ^ (k - 1)) by (apply Z.pow_le_mono_r; lia).
    assert (0 < 2 ^ K) by (apply Z.pow_pos_nonneg; lia).
    nia. }
  destruct (0 <=? k) eqn:E0.
  - destruct (d * 2 ^ k <=? n) eqn:E1; [|lia].
    apply Z.leb_le in E1.
    destruct (Z.eq_dec k K) as [->|]; [lia|lia].
  - apply Z.leb_gt in E0. destruct (d <=? n * 2 ^ (- k)); lia.
Qed.

Lemma pow2Q_nonpos (e : Z) : e <= 0 -> (pow2Q e == 1 # Z.to_pos (2 ^ (- e)))%Q.
Proof.
  intros He. unfold pow2Q. destruct (Z.leb_spec 0 e); [|reflexivity].
  assert (e = 0) as -> by lia. reflexivity.
Qed.

(** Rounding a positive quotient below 2^K, for K up to 53: the result is
    finite, not negative, not above an integer that the quotient is not
    above, and within 2^(K-54) of the quotient. *)
Lemma round_pos_small (n d K : Z) :
  0 < n -> 0 < d -> 0 <= K <= 53 -> n < d * 2 ^ K ->
  exists q : Q,
    round_pos n d = Fin q /\ (0 <= q)%Q /\
    (forall B : Z, n <= B * d -> (q <= inject_Z B)%Q) /\
    (Qabs (q - (n # Z.to_pos d)) <= 1 # Z.to_pos (2 ^ (54 - K)))%Q.
Proof.
  intros Hn Hd HK Hlt.
  pose proof (ilog2_upper n d K Hn Hd ltac:(lia) Hlt) as Hlog.
  unfold round_pos, significand. cbv zeta.
  set (e := ulp_exp n d).
  assert (He : e <= K - 53) by (unfold e, ulp_exp; lia).
  assert (He0 : e <= 0) by lia.
  destruct (Z.leb_spec 971 e) as [|_]; [lia|].
  replace (971 <? e) with false by (symmetry; apply Z.ltb_ge; lia).
  replace (e =? 971) with false by (symmetry; apply Z.eqb_neq; lia).
  cbn [orb andb].
  set (p := 2 ^ (- e)).
  assert (Hp : 0 < p) by (apply Z.pow_pos_nonneg; lia).
  assert (Hm : (if 0 <=? e then rne n (d * 2 ^ e) else rne (n * p) d)
               = rne (n * p) d).
  { destruct (Z.leb_spec 0 e); [|reflexivity].
    assert (e = 0) as E by lia. unfold p. rewrite E. cbn.
    now rewrite !Z.mul_1_r. }
  rewrite Hm. set (m := rne (n * p) d).
  assert (Hm0 : 0 <= m) by (apply rne_nonneg; nia).
  pose proof (rne_error (n * p) d Hd) as Herr. fold m in Herr.
  eexists. split; [reflexivity|].
  assert (Eq : (Qred (inject_Z m * pow2Q e) == m # Z.to_pos p)%Q).
  { rewrite Qred_correct, (pow2Q_nonpos e He0). fold p.
    unfold Qeq, inject_Z, Qmult. cbn. lia. }
  assert (Hpp : Zpos (Z.to_pos p) = p) by (apply Z2Pos.id; lia).
  assert (Hdd : Zpos (Z.to_pos d) = d) by (apply Z2Pos.id; lia).
  split; [|split].
  - rewrite Eq. unfold Qle. cbn. lia.
  - intros B HB. rewrite Eq. unfold Qle, inject_Z. cbn. rewrite Hpp.
    assert (m <= B * p); [|lia]. apply rne_le; [exact Hd|nia].
  - rewrite Eq.
    assert (H54 : 2 ^ (54 - K) <= 2 * p).
    { unfold p. replace 2 with (2 ^ 1) at 2 by reflexivity.
      rewrite <- Z.pow_add_r by lia. apply Z.pow_le_mono_r; lia. }
    assert (H54p : 0 < 2 ^ (54 - K)) by (apply Z.pow_pos_nonneg; lia).
    apply Qabs_Qle_condition. unfold Qle, Qminus, Qplus, Qopp. cbn.
    rewrite !Pos2Z.inj_mul, Hpp, Hdd, Z2Pos.id by lia.
    split; nia.
Qed.

Lemma round64_small (x : Q) (K : Z) :
  (0 < x)%Q -> 0 <= K <= 53 -> (x < inject_Z (2 ^ K))%Q ->
  exists q : Q,
    round64 x = Fin q /\ (0 <= q)%Q /\
    (forall B : Z, (x <= inject_Z B)%Q -> (q <= inject_Z B)%Q) /\
    (Qabs (q - x) <= 1 # Z.to_pos (2 ^ (54 - K)))%Q.
Proof.
  destruct x as [n d]. unfold Qlt, Qle, inject_Z. cbn [Qnum Qden].
  rewrite !Z.mul_1_r. intros Hn HK Hlt.
  destruct n as [|n|n]; try lia.
  destruct (round_pos_small (Zpos n) (Zpos d) K ltac:(lia) ltac:(lia) HK ltac:(lia))
    as (q & Hq & H0 & HB & Herr).
  exists q. split; [exact Hq|]. split; [exact H0|]. split.
  - intros B HBx. apply HB. lia.
  - exact Herr.
Qed.

(** ** Decimal numerals *)

Lemma string_of_uint_digits (d : Decimal.uint) :
  all_digits (NilEmpty.string_of_uint d) = true.
Proof. induction d; cbn; auto. Qed.

Lemma N_to_string_digits (n : N) : all_digits (N_to_string n) = true.
Proof. apply string_of_uint_digits. Qed.

Lemma N_to_string_nonempty (n : N) : N_to_string n <> "".
Proof.
  unfold N_to_string. destruct n as [|p]; [discriminate|]. cbn.
  pose proof (DecimalPos.Unsigned.to_uint_nonnil p) as H.
  destruct (Pos.to_uint p); [congruence|discriminate..].
Qed.

Lemma digits_value_N_to_string (n : N) : digits_value (N_to_string n) = Z.of_N n.
Proof.
  unfold digits_value, N_to_string.
  now rewrite NilEmpty.usu, DecimalN.Unsigned.of_to.
Qed.

Lemma N_to_string_digit (b : N) :
  (b < 10)%N -> exists c, N_to_string b = String c "" /\ is_digit c = true.
Proof.
  intros H.
  assert (E : (b = 0 \/ b = 1 \/ b = 2 \/ b = 3 \/ b = 4 \/ b = 5 \/ b = 6 \/ b = 7
              \/ b = 8 \/ b = 9)%N) by lia.
  repeat (destruct E as [->|E]; [eexists; split; reflexivity|]).
  subst. eexists; split; reflexivity.
Qed.

(** The digits of a numeral are read whole when no digit follows. *)
Lemma span_digits (a rest : string) :
  all_digits a = true ->
  match rest with String c _ => is_digit c = false | EmptyString => True end ->
  span is_digit (a +:+ rest) = (a, rest).
Proof.
  intros Ha Hrest. induction a as [|c a IH].
  - rewrite append_nil_l.
    destruct rest as [|c r]; [reflexivity|]. cbn [span]. now rewrite Hrest.
  - cbn [all_digits] in Ha. apply andb_true_iff in Ha as [Hc Ha].
    rewrite append_cons. cbn [span]. rewrite Hc. now rewrite IH.
Qed.

Lemma digit_not_ws (c : ascii) : is_digit c = true -> is_ws c = false.
Proof. destruct c as [[] [] [] [] [] [] [] []]; vm_compute; congruence. Qed.

(** A numeral that begins with a digit has no sign and is not Infinity. *)
Lemma parse_decimal_digit (c : ascii) (r : string) :
  is_digit c = true ->
  parse_decimal (String c r) =
  match parse_unsigned (String c r) with
  | Some (m, e, rest) => Some (LitDecimal false m e, rest)
  | None => None
  end.
Proof.
  destruct c as [[] [] [] [] [] [] [] []];
    try (intros H; vm_compute in H; discriminate H); reflexivity.
Qed.

(** Reading back what [toFixed(1)] writes for a number that is not negative. *)
Lemma parseFloat_one_decimal (n : N) :
  parseFloat (N_to_string (n / 10) +:+ "." +:+ pad_start 1 (N_to_string (n mod 10)))
  = one_decimal (Z.of_N n).
Proof.
  destruct (N_to_string_digit (n mod 10)%N) as (c & Ec & Hc).
  { apply N.mod_lt. discriminate. }
  pose proof (digits_value_N_to_string (n mod 10)) as Vb. rewrite Ec in Vb.
  rewrite Ec. change (pad_start 1 (String c "")) with (String c "").
  pose proof (N_to_string_digits (n / 10)) as Da.
  pose proof (N_to_string_nonempty (n / 10)) as Na.
  pose proof (digits_value_N_to_string (n / 10)) as Va.
  destruct (N_to_string (n / 10)) as [|a0 a] eqn:Ea; [congruence|].
  assert (Ha0 : is_digit a0 = true) by (cbn in Da; now apply andb_true_iff in Da).
  unfold parseFloat.
  change (String a0 a +:+ "." +:+ String c "") with (String a0 (a +:+ "." +:+ String c "")).
  cbn [trimStart]. rewrite (digit_not_ws a0 Ha0).
  rewrite parse_decimal_digit by exact Ha0.
  unfold parse_unsigned.
  change (String a0 (a +:+ "." +:+ String c "")) with (String a0 a +:+ "." +:+ String c "").
  rewrite span_digits by (exact Da || reflexivity).
  change ("." +:+ String c "") with (String "."%char (String c "")).
  cbv beta iota. cbn [span]. rewrite Hc.
  cbn [String.length parse_exponent Z.of_nat].
  rewrite Va, Vb. unfold one_decimal. repeat f_equal.
  change (10 ^ Z.pos (Pos.of_succ_nat 0)) with 10.
  rewrite (N.div_mod n 10) at 3 by discriminate. lia.
Qed.

(** ** Percentages *)

(** The nearest tenth of a double that approximates a percentage is the
    nearest tenth of the percentage: the two differ by less than the
    distance of the percentage to a tie, for totals below 2^32. *)
Lemma nearest_tenth (c t : Z) (q1 q2 : Q) :
  0 <= c <= t -> 0 < t < 2 ^ 32 ->
  (Qabs (q1 - inject_Z c / inject_Z t) <= 1 # Z.to_pos (2 ^ 53))%Q ->
  (Qabs (q2 - q1 * 100) <= 1 # Z.to_pos (2 ^ 47))%Q ->
  (Qabs ((Qfloor (q2 * 10 + (1 # 2)) # 10) - 100 * (inject_Z c / inject_Z t))
   <= 1 # 20)%Q.
Proof.
  intros Hc Ht H1 H2.
  set (r := (inject_Z c / inject_Z t)%Q) in *.
  set (n := Qfloor (q2 * 10 + (1 # 2))).
  pose proof (Qfloor_le (q2 * 10 + (1 # 2))) as Hlo.
  pose proof (Qlt_floor (q2 * 10 + (1 # 2))) as Hhi.
  fold n in Hlo, Hhi.
  apply Qabs_Qle_condition in H1 as [H1a H1b].
  apply Qabs_Qle_condition in H2 as [H2a H2b].
  change (Z.to_pos (2 ^ 53)) with 9007199254740992%positive in *.
  change (Z.to_pos (2 ^ 47)) with 140737488355328%positive in *.
  assert (HT : (0 < inject_Z t)%Q)
    by (change 0%Q with (inject_Z 0); rewrite <- Zlt_Qlt; lia).
  assert (HT32 : (inject_Z t < 4294967296)%Q).
  { change 4294967296%Q with (inject_Z 4294967296). rewrite <- Zlt_Qlt.
    change 4294967296 with (2 ^ 32). lia. }
  assert (Er : (r * inject_Z t == inject_Z c)%Q).
  { unfold r. field. intros E. rewrite E in HT. now apply Qlt_irrefl in HT. }
  assert (En : (n # 10 == inject_Z n * (1 # 10))%Q).
  { unfold Qeq, Qmult, inject_Z. cbn. lia. }
  rewrite inject_Z_plus in Hhi. change (inject_Z 1) with 1%Q in Hhi.
  (* to integers: 2000 c lies between (2n-1) t and (2n+1) t *)
  assert (Hz1 : 2 * n * t <= 2000 * c + t).
  { assert (H : 2 * n * t < 2000 * c + t + 1); [|lia].
    rewrite Zlt_Qlt.
    rewrite !inject_Z_plus, !inject_Z_mult.
    change (inject_Z 1) with 1%Q. change (inject_Z 2) with 2%Q.
    change (inject_Z 2000) with 2000%Q.
    rewrite <- Er. nra. }
  assert (Hz2 : 2000 * c <= 2 * n * t + t).
  { assert (H : 2000 * c < 2 * n * t + t + 1); [|lia].
    rewrite Zlt_Qlt.
    rewrite !inject_Z_plus, !inject_Z_mult.
    change (inject_Z 1) with 1%Q. change (inject_Z 2) with 2%Q.
    change (inject_Z 2000) with 2000%Q.
    rewrite <- Er. nra. }
  rewrite Zle_Qle in Hz1, Hz2.
  rewrite !inject_Z_plus, !inject_Z_mult in Hz1, Hz2.
  change (inject_Z 2) with 2%Q in *.
  change (inject_Z 2000) with 2000%Q in *.
  rewrite <- Er in Hz1, Hz2.
  apply Qabs_Qle_condition. rewrite En.
  split.
  - apply (Qmult_le_r _ _ (inject_Z t) HT). nra.
  - apply (Qmult_le_r _ _ (inject_Z t) HT). nra.
Qed.

(** [(missing / total) * 100] for counts [c <= t], [t] positive: a
    double from 0 to 100, within 2^(-47) of 100 times a double that is
    within 2^(-53) of the ratio. *)
Lemma scaled_ratio (c t : nat) :
  (c <= t)%nat -> (0 < t)%nat ->
  exists q1 q2 : Q,
    num_mul (num_div (num_of_nat c) (num_of_nat t)) (Fin 100) = Fin q2 /\
    (0 <= q2 <= 100)%Q /\
    (Qabs (q1 - inject_Z (Z.of_nat c) / inject_Z (Z.of_nat t))
     <= 1 # Z.to_pos (2 ^ 53))%Q /\
    (Qabs (q2 - q1 * 100) <= 1 # Z.to_pos (2 ^ 47))%Q.
Proof.
  intros Hct Ht. unfold num_of_nat.
  set (C := inject_Z (Z.of_nat c)). set (T := inject_Z (Z.of_nat t)).
  assert (HT : (0 < T)%Q)
    by (unfold T; change 0%Q with (inject_Z 0); rewrite <- Zlt_Qlt; lia).
  assert (HC : (0 <= C)%Q)
    by (unfold C; change 0%Q with (inject_Z 0); rewrite <- Zle_Qle; lia).
  assert (HCT : (C <= T)%Q) by (unfold C, T; rewrite <- Zle_Qle; lia).
  assert (HTz : Qeq_bool T 0 = false).
  { apply not_true_iff_false. rewrite Qeq_bool_iff. intros E.
    rewrite E in HT. now apply Qlt_irrefl in HT. }
  assert (Hsign : forall q : Q, (0 <= q)%Q -> (Qnum q <? 0) = false).
  { intros [qn qd]. unfold Qle. cbn. intros. apply Z.ltb_ge. lia. }
  assert (Hzero : forall K : Z, (Qabs (0 - 0 * 100) <= 1 # Z.to_pos (2 ^ K))%Q).
  { intros K. apply Qabs_Qle_condition. unfold Qle. cbn. lia. }
  unfold num_div. cbn [is_zero sign_bit]. rewrite HTz.
  destruct (Qeq_bool C 0) eqn:EC.
  - (* no row is missing *)
    apply Qeq_bool_iff in EC.
    rewrite (Hsign C HC), (Hsign T (Qlt_le_weak _ _ HT)).
    exists 0%Q, 0%Q. split; [reflexivity|]. split; [split; discriminate|].
    split; [|apply Hzero].
    assert (E0 : (C / T == 0)%Q).
    { unfold Qdiv. transitivity (0 * / T)%Q; [|apply Qmult_0_l].
      apply Qmult_comp; [exact EC|reflexivity]. }
    apply Qabs_Qle_condition.
    change (Z.to_pos (2 ^ 53)) with 9007199254740992%positive.
    revert E0. generalize (C / T)%Q. intros x E0. lra.
  - assert (HC0 : (0 < C)%Q).
    { apply Qle_lteq in HC as [|E]; [assumption|].
      symmetry in E. apply Qeq_bool_iff in E. congruence. }
    cbn [to_Q].
    assert (Hr0 : (0 < C / T)%Q).
    { apply Qlt_shift_div_l; [exact HT|]. now rewrite Qmult_0_l. }
    assert (Hr1 : (C / T <= inject_Z 1)%Q).
    { apply Qle_shift_div_r; [exact HT|]. change (inject_Z 1) with 1%Q.
      now rewrite Qmult_1_l. }
    destruct (round64_small (C / T) 1 Hr0 ltac:(lia)) as (q1 & E1 & H0 & HB & Herr).
    { eapply Qle_lt_trans; [exact Hr1|]. reflexivity. }
    rewrite E1. specialize (HB 1 Hr1). change (inject_Z 1) with 1%Q in HB.
    unfold num_mul. cbn [is_zero sign_bit to_Q].
    change (Qeq_bool 100 0) with false. rewrite (Hsign q1 H0). cbn [orb xorb].
    change (Qnum 100 <? 0) with false.
    destruct (Qeq_bool q1 0) eqn:Eq1.
    + apply Qeq_bool_iff in Eq1.
      exists q1, 0%Q. split; [reflexivity|]. split; [split; discriminate|].
      split; [exact Herr|].
      apply Qabs_Qle_condition. rewrite Eq1. unfold Qle. cbn. lia.
    + assert (Hq1 : (0 < q1)%Q).
      { apply Qle_lteq in H0 as [|E]; [assumption|].
        symmetry in E. apply Qeq_bool_iff in E. congruence. }
      cbn [orb].
      destruct (round64_small (q1 * 100) 7) as (q2 & E2 & H20 & H2B & H2err).
      * nra.
      * lia.
      * change (inject_Z (2 ^ 7)) with 128%Q. nra.
      * exists q1, q2. rewrite E2. split; [reflexivity|].
        split; [split; [exact H20|]|split; [exact Herr|exact H2err]].
        change 100%Q with (inject_Z 100). apply H2B.
        change (inject_Z 100) with 100%Q. nra.
Qed.

Lemma toFixed_1 (q : Q) :
  (0 <= q <= 100)%Q ->
  toFixed 1 (Fin q) =
  N_to_string (Z.to_N (Qfloor (q * 10 + (1 # 2))) / 10) +:+ "." +:+
  pad_start 1 (N_to_string (Z.to_N (Qfloor (q * 10 + (1 # 2))) mod 10)).
Proof.
  intros [H0 H100]. unfold toFixed.
  assert (Ea : Qabs q = q).
  { destruct q as [qn qd]. unfold Qle in H0. cbn in H0.
    unfold Qabs. rewrite Z.abs_eq by lia. reflexivity. }
  rewrite Ea.
  assert (Ebig : Qle_bool (inject_Z (10 ^ 21)) q = false).
  { apply not_true_iff_false. rewrite Qle_bool_iff. intros H.
    change (inject_Z (10 ^ 21)) with 1000000000000000000000%Q in H. lra. }
  rewrite Ebig.
  assert (Es : (Qnum q <? 0) = false).
  { destruct q as [qn qd]. unfold Qle in H0. cbn in H0.
    apply Z.ltb_ge. cbn. lia. }
  rewrite Es. reflexivity.
Qed.

Lemma one_decimal_range (n : Z) :
  0 <= n <= 1000 -> exists q : Q, one_decimal n = Fin q /\ (0 <= q <= 100)%Q.
Proof.
  intros Hn. unfold one_decimal, literal_value.
  destruct (Z.eqb_spec n 0) as [->|Hne].
  - exists 0%Q. split; [reflexivity|split; discriminate].
  - change (pow10Q (-1)) with (1 # 10)%Q.
    assert (Hn0 : (0 < inject_Z n)%Q)
      by (change 0%Q with (inject_Z 0); rewrite <- Zlt_Qlt; lia).
    assert (Hn1 : (inject_Z n <= 1000)%Q)
      by (change 1000%Q with (inject_Z 1000); rewrite <- Zle_Qle; lia).
    destruct (round64_small (inject_Z n * (1 # 10)) 7) as (q & E & H0 & HB & _).
    + lra.
    + lia.
    + change (inject_Z (2 ^ 7)) with 128%Q. lra.
    + exists q. split; [exact E|]. split; [exact H0|].
      change 100%Q with (inject_Z 100). apply HB.
      change (inject_Z 100) with 100%Q. lra.
Qed.

(** What [percentage_of] computes for counts [c <= t] below 2^32. *)
Lemma percentage_of_ok (c t : nat) :
  (c <= t)%nat -> Z.of_nat t < 2 ^ 32 ->
  percentage_ok {| count := c; percentage := percentage_of c t; total := t |}.
Proof.
  intros Hct Ht32. unfold percentage_ok. cbn [count percentage total].
  destruct t as [|t'].
  - (* no row *)
    split; [reflexivity|]. split; [|intros H; inversion H].
    exists 0%Q. split; [reflexivity|split; discriminate].
  - set (t := S t') in *.
    assert (Ht : (0 < t)%nat) by (unfold t; lia).
    destruct (scaled_ratio c t Hct Ht) as (q1 & q2 & E & Hq2 & Herr1 & Herr2).
    assert (Ep : percentage_of c t
                 = one_decimal (Qfloor (q2 * 10 + (1 # 2)))).
    { unfold percentage_of. change (0 <? t)%nat with true. cbv iota.
      rewrite E, toFixed_1 by exact Hq2.
      rewrite parseFloat_one_decimal, Z2N.id; [reflexivity|].
      change 0 with (Qfloor 0). apply Qfloor_resp_le. lra. }
    assert (Hn : 0 <= Qfloor (q2 * 10 + (1 # 2)) <= 1000).
    { split.
      - change 0 with (Qfloor 0). apply Qfloor_resp_le. lra.
      - change 1000 with (Qfloor (inject_Z 1000 + (1 # 2))).
        apply Qfloor_resp_le. change (inject_Z 1000) with 1000%Q. lra. }
    split; [intros H; discriminate H|]. split.
    + rewrite Ep. now apply one_decimal_range.
    + intros _. eexists. split; [exact Ep|].
      apply (nearest_tenth (Z.of_nat c) (Z.of_nat t) q1 q2);
        [lia|lia|exact Herr1|exact Herr2].
Qed.

Lemma filter_length_le {A} (f : A -> bool) (l : list A) :
  (length (List.filter f l) <= length l)%nat.
Proof. induction l as [|x l IH]; cbn; [lia|]. destruct (f x); cbn; lia. Qed.

(** Counting by [filter]. *)
Lemma counted_filter (P : DataRow -> Prop) (f : DataRow -> bool)
    (rows : list DataRow) :
  (forall r, f r = true <-> P r) ->
  counted P rows (length (List.filter f rows)).
Proof.
  intros Hf. induction rows as [|r rows IH]; cbn [List.filter]; [constructor|].
  destruct (f r) eqn:E.
  - cbn [length]. apply counted_in; [now apply Hf|exact IH].
  - apply counted_out; [|exact IH]. intros HP. apply Hf in HP. congruence.
Qed.

(** The rows counted are counted once: the number is determined. *)
Lemma counted_unique (P : DataRow -> Prop) (rows : list DataRow) (n m : nat) :
  counted P rows n -> counted P rows m -> n = m.
Proof.
  intros Hn. revert m. induction Hn as [|r rows n HP _ IH|r rows n HP _ IH];
    intros m Hm; inversion Hm; subst; auto; contradiction.
Qed.

Lemma filter_filter_length {A} (f g : A -> bool) (l : list A) :
  length (List.filter g (List.filter f l))
  = length (List.filter (fun x => f x && g x) l).
Proof.
  induction l as [|x l IH]; cbn [List.filter]; [reflexivity|].
  destruct (f x); cbn [List.filter andb]; [|exact IH].
  destruct (g x); cbn [length]; now rewrite IH.
Qed.

Lemma strict_eq_blank (v : value) :
  strict_eq v VNull || strict_eq v VUndef || strict_eq v (VStr "") = true
  <-> blank v.
Proof.
  unfold blank. destruct v as [| |n|s]; cbn.
  - intuition congruence.
  - intuition congruence.
  - intuition congruence.
  - destruct (String.eqb_spec s ""); intuition congruence.
Qed.

Lemma missing_some_blank (fields : list string) (r : DataRow) :
  missing_some fields r = true
  <-> exists field, In field fields /\ blank (row_get field r).
Proof.
  unfold missing_some. rewrite existsb_exists.
  split; intros (field & Hin & H); exists field; (split; [exact Hin|]);
    now apply strict_eq_blank.
Qed.

(** What [calculateDisruption] counts under [key] and [fields]. *)
Lemma missing_data_counted (key : string) (fields : list string)
    (rows : list DataRow) (p : number) :
  let records := List.filter (fun r => truthy (row_get key r)) rows in
  missing_data_of key fields rows
    {| count := length (List.filter (missing_some fields) records);
       percentage := p;
       total := length records |}.
Proof.
  intros records. unfold missing_data_of. cbn [count total]. split.
  - apply counted_filter. intros r. reflexivity.
  - unfold records. rewrite filter_filter_length. apply counted_filter.
    intros r. rewrite andb_true_iff, missing_some_blank. reflexivity.
Qed.

(** C8.  Of the legacy and spreadsheet rows, the inventory figures count
    those with an [item_id] and, among them, those in which [item_id],
    [inventory_qty] or [last_updated] holds nothing; the order figures do
    the same with [order_id], [order_qty] and [last_updated].  Both
    percentages are 0 when the total is 0, lie between 0 and 100, and are
    the decimal with one fraction digit nearest to the percentage that
    these counts give (arrays hold fewer than 2^32 rows). *)
Theorem calculateDisruption_percentages
    (Date_parse : string -> option Z) (LocalTZA : Z -> bool -> Z) (now : Z)
    (legacy spreadsheet supplier : list DataRow) :
  Z.of_nat (length (legacy ++ spreadsheet)) < 2 ^ 32 ->
  let d := calculateDisruption Date_parse LocalTZA now legacy spreadsheet supplier in
  missing_data_of "item_id" ["item_id"; "inventory_qty"; "last_updated"]
    (legacy ++ spreadsheet) (missingInventoryData d) /\
  missing_data_of "order_id" ["order_id"; "order_qty"; "last_updated"]
    (legacy ++ spreadsheet) (missingOrderData d) /\
  percentage_ok (missingInventoryData d) /\ percentage_ok (missingOrderData d).
Proof.
  intros Hlen. cbn [calculateDisruption missingInventoryData missingOrderData].
  split; [apply missing_data_counted|]. split; [apply missing_data_counted|].
  split; apply percentage_of_ok; try apply filter_length_le;
    match goal with
    | |- Z.of_nat (length (List.filter ?f ?l)) < _ =>
        pose proof (filter_length_le f l); lia
    end.
Qed.

(** ** Delimited text *)

Lemma all_chars_app (p : ascii -> bool) (a b : string) :
  all_chars p (a +:+ b) = all_chars p a && all_chars p b.
Proof.
  induction a as [|c a IH]; [reflexivity|].
  rewrite append_cons. cbn [all_chars]. now rewrite IH, andb_assoc.
Qed.

Lemma all_chars_impl (p q : ascii -> bool) (s : string) :
  (forall c, p c = true -> q c = true) ->
  all_chars p s = true -> all_chars q s = true.
Proof.
  intros Hpq. induction s as [|c s IH]; cbn [all_chars]; [reflexivity|].
  intros H. apply andb_true_iff in H as [Hc Hs].
  now rewrite (Hpq c Hc), IH.
Qed.

(** Text without the separator is one piece. *)
Lemma split_none (c : ascii) (s : string) :
  all_chars (fun x => negb (Ascii.eqb x c)) s = true -> split c s = [s].
Proof.
  induction s as [|a s IH]; cbn [all_chars split]; [reflexivity|].
  intros H. apply andb_true_iff in H as [Ha Hs].
  apply negb_true_iff in Ha. rewrite Ha, (IH Hs). reflexivity.
Qed.

Lemma split_app (c : ascii) (a b : string) :
  all_chars (fun x => negb (Ascii.eqb x c)) a = true ->
  split c (a +:+ String c b) = a :: split c b.
Proof.
  induction a as [|x a IH]; intros H.
  - rewrite append_nil_l. cbn [split]. now rewrite Ascii.eqb_refl.
  - cbn [all_chars] in H. apply andb_true_iff in H as [Hx Ha].
    apply negb_true_iff in Hx.
    rewrite append_cons. cbn [split]. rewrite Hx, (IH Ha). reflexivity.
Qed.

(** Splitting what was joined gives the pieces back. *)
Lemma split_join (c : ascii) (l : list string) :
  l <> [] ->
  Forall (fun s => all_chars (fun x => negb (Ascii.eqb x c)) s = true) l ->
  split c (join (String c "") l) = l.
Proof.
  induction l as [|a l IH]; [congruence|]. intros _ H.
  apply Forall_cons in H as [Ha Hl].
  destruct l as [|b l].
  - cbn [join]. now apply split_none.
  - change (join (String c "") (a :: b :: l))
      with (a +:+ String c (join (String c "") (b :: l))).
    rewrite split_app by exact Ha. f_equal. apply IH; [discriminate|exact Hl].
Qed.

Lemma drop_final_CR_none (s : string) :
  all_chars (fun x => negb (Ascii.eqb x CR)) s = true -> drop_final_CR s = s.
Proof.
  induction s as [|c s IH]; [reflexivity|]. cbn [all_chars]. intros H.
  apply andb_true_iff in H as [Hc Hs]. apply negb_true_iff in Hc.
  destruct s as [|d s].
  - cbn [drop_final_CR]. now rewrite Hc.
  - change (drop_final_CR (String c (String d s)))
      with (String c (drop_final_CR (String d s))).
    now rewrite IH.
Qed.

Lemma map_but_last_id {A} (f : A -> A) (l : list A) :
  Forall (fun x => f x = x) l -> map_but_last f l = l.
Proof.
  induction l as [|a l IH]; [reflexivity|]. intros H.
  apply Forall_cons in H as [Ha Hl].
  destruct l as [|b l]; [reflexivity|].
  change (map_but_last f (a :: b :: l)) with (f a :: map_but_last f (b :: l)).
  now rewrite Ha, IH.
Qed.

(** *** White space at the ends *)

Lemma trimEnd_app (a b : string) :
  b <> "" -> trimEnd b = b -> trimEnd (a +:+ b) = a +:+ b.
Proof.
  intros Hb Eb. induction a as [|c a IH]; [exact Eb|].
  rewrite append_cons, trimEnd_cons, IH.
  destruct (a +:+ b) eqn:E; [|reflexivity].
  destruct a; [rewrite append_nil_l in E; congruence|discriminate].
Qed.

Lemma trim_fixed_ends (s : string) :
  trim s = s -> no_leading_ws s /\ trimEnd s = s.
Proof.
  intros E. split.
  - rewrite <- E. apply trimEnd_no_leading_ws, trimStart_no_leading_ws.
  - rewrite <- E at 1. unfold trim. rewrite trimEnd_idem. exact E.
Qed.

Lemma trim_of_ends (s : string) :
  no_leading_ws s -> trimEnd s = s -> trim s = s.
Proof. intros H E. unfold trim. now rewrite trimStart_fixed. Qed.

Lemma no_leading_ws_app (a b : string) :
  a <> "" -> no_leading_ws a -> no_leading_ws (a +:+ b).
Proof. destruct a; [congruence|]. intros _ H. exact H. Qed.

(** *** Rows from cells *)

Lemma row_set_fresh (k : string) (v : value) (r : DataRow) :
  ~ In k (Object_keys r) -> row_set k v r = r ++ [(k, v)].
Proof.
  induction r as [|[k' v'] r IH]; cbn; intros H; [reflexivity|].
  destruct (String.eqb_spec k k'); [subst; tauto|]. f_equal. apply IH. tauto.
Qed.

Lemma build_row_cells (f : string -> string) (hs : list string) :
  forall (pre : list string) (obj : DataRow) (inherits : bool),
    List.NoDup hs ->
    ~ In "__proto__" hs ->
    (forall h, In h hs -> ~ In h (Object_keys obj)) ->
    build_row (pre ++ map f hs) hs (length pre) obj inherits
    = obj ++ map (fun h => (h, parse_cell (Some (f h)))) hs.
Proof.
  induction hs as [|h hs IH]; intros pre obj inherits Hnd Hproto Hfresh;
    cbn [build_row map].
  - now rewrite app_nil_r.
  - apply NoDup_cons_iff in Hnd as [Hh Hnd].
    destruct (String.eqb_spec h "__proto__") as [->|_];
      [exfalso; apply Hproto; now left|]. cbn [andb].
    assert (E : nth_error (pre ++ f h :: map f hs) (length pre) = Some (f h)).
    { rewrite nth_error_app2 by lia. now rewrite Nat.sub_diag. }
    rewrite E.
    rewrite row_set_fresh by (apply Hfresh; now left).
    assert (Epre : pre ++ f h :: map f hs = (pre ++ [f h]) ++ map f hs)
      by now rewrite <- app_assoc.
    assert (Elen : S (length pre) = length (pre ++ [f h]))
      by (rewrite length_app; cbn; lia).
    rewrite Epre, Elen, IH.
    + now rewrite <- app_assoc.
    + exact Hnd.
    + intros Hin. apply Hproto. now right.
    + intros h' Hin Hkey. unfold Object_keys in Hkey. rewrite map_app in Hkey.
      apply in_app_iff in Hkey as [Hkey|[<-|[]]].
      * apply (Hfresh h'); [now right|exact Hkey].
      * contradiction.
Qed.

(** *** The decimal form of a number *)

Lemma digit_is_numeral (c : ascii) : is_digit c = true -> is_numeral_char c = true.
Proof. destruct c as [[] [] [] [] [] [] [] []]; vm_compute; congruence. Qed.

Lemma all_chars_take (p : ascii -> bool) (n : nat) (s : string) :
  all_chars p s = true -> all_chars p (take_string n s) = true.
Proof.
  revert s. induction n as [|n IH]; intros [|c s]; cbn; try reflexivity.
  intros H. apply andb_true_iff in H as [Hc Hs]. now rewrite Hc, IH.
Qed.

Lemma all_chars_drop (p : ascii -> bool) (n : nat) (s : string) :
  all_chars p s = true -> all_chars p (drop_string n s) = true.
Proof.
  revert s. induction n as [|n IH]; intros [|c s]; cbn; try reflexivity; auto.
  intros H. apply andb_true_iff in H as [Hc Hs]. now apply IH.
Qed.

Lemma all_chars_repeat (p : ascii -> bool) (c : ascii) (n : nat) :
  p c = true -> all_chars p (repeat_char c n) = true.
Proof. intros Hc. induction n as [|n IH]; cbn; [reflexivity|]. now rewrite Hc. Qed.

Lemma N_to_string_numeral (n : N) : all_chars is_numeral_char (N_to_string n) = true.
Proof.
  apply (all_chars_impl is_digit); [exact digit_is_numeral|].
  pose proof (N_to_string_digits n) as H.
  induction (N_to_string n) as [|c s IH]; cbn in *; [reflexivity|].
  apply andb_true_iff in H as [Hc Hs]. now rewrite Hc, IH.
Qed.

Lemma append_nonempty_l (a b : string) : a <> "" -> a +:+ b <> "".
Proof. destruct a; [congruence|discriminate]. Qed.

Lemma append_nonempty_r (a b : string) : b <> "" -> a +:+ b <> "".
Proof. destruct a; [now rewrite append_nil_l|discriminate]. Qed.

Lemma positive_toString_numeral (q : Q) :
  all_chars is_numeral_char (positive_toString q) = true /\
  positive_toString q <> "".
Proof.
  unfold positive_toString.
  destruct (shortest_digits 16 q (decimal_exponent q) 1) as [s n].
  set (ds := N_to_string (Z.to_N s)).
  assert (Hds : all_chars is_numeral_char ds = true) by apply N_to_string_numeral.
  assert (Nds : ds <> "") by apply N_to_string_nonempty.
  assert (Hz : forall k, all_chars is_numeral_char (zeros k) = true)
    by (intros k; now apply all_chars_repeat).
  assert (Hes : all_chars is_numeral_char
                  ((if n - 1 <? 0 then "-" else "+")
                   +:+ N_to_string (Z.to_N (Z.abs (n - 1)))) = true).
  { rewrite all_chars_app, N_to_string_numeral. now destruct (n - 1 <? 0). }
  cbv zeta.
  repeat match goal with
         | |- context [if ?b then _ else _] => destruct b
         end;
    (split;
     [ rewrite ?all_chars_app, ?N_to_string_numeral, ?Hz, ?Hds, ?Hes,
         ?all_chars_take, ?all_chars_drop by exact Hds; reflexivity
     | try (apply append_nonempty_l; exact Nds);
       try (apply append_nonempty_r; discriminate);
       try discriminate ]).
Qed.

Lemma Number_toString_numeral (x : number) :
  all_chars is_numeral_char (Number_toString x) = true /\ Number_toString x <> "".
Proof.
  destruct x as [|[]| |q]; cbn [Number_toString]; try (split; [reflexivity|discriminate]).
  destruct (Qnum q); [split; [reflexivity|discriminate]|apply positive_toString_numeral|].
  destruct (positive_toString_numeral (- q)) as [H1 H2].
  split; [|discriminate]. rewrite all_chars_app, H1. reflexivity.
Qed.

Lemma numeral_is_field (c : ascii) : is_numeral_char c = true -> is_field_char c = true.
Proof.
  unfold is_numeral_char. intros H.
  apply andb_true_iff in H as [H _]. now apply andb_true_iff in H as [H _].
Qed.

Lemma numeral_not_ws (c : ascii) : is_numeral_char c = true -> is_ws c = false.
Proof.
  unfold is_numeral_char. intros H.
  apply andb_true_iff in H as [H _]. apply andb_true_iff in H as [_ H].
  now apply negb_true_iff in H.
Qed.

Lemma no_ws_trimEnd (s : string) :
  all_chars (fun c => negb (is_ws c)) s = true -> trimEnd s = s.
Proof.
  induction s as [|c s IH]; [reflexivity|]. cbn [all_chars]. intros H.
  apply andb_true_iff in H as [Hc Hs]. apply negb_true_iff in Hc.
  rewrite trimEnd_cons, (IH Hs), Hc. now destruct s.
Qed.

Lemma no_ws_trim (s : string) :
  all_chars (fun c => negb (is_ws c)) s = true -> trim s = s.
Proof.
  intros H. apply trim_of_ends; [|now apply no_ws_trimEnd].
  destruct s as [|c s]; [exact I|]. cbn in *.
  apply andb_true_iff in H as [Hc _]. now apply negb_true_iff in Hc.
Qed.

Lemma numeral_safe (s : string) :
  all_chars is_numeral_char s = true -> csv_safe s.
Proof.
  intros H. split.
  - revert H. apply all_chars_impl. exact numeral_is_field.
  - apply no_ws_trim. revert H. apply all_chars_impl.
    intros c Hc. now rewrite (numeral_not_ws c Hc).
Qed.

Lemma numeral_unquoted (s : string) :
  all_chars is_numeral_char s = true -> unquoted s.
Proof.
  unfold unquoted. destruct s as [|c s]; [reflexivity|]. cbn [all_chars].
  intros H. apply andb_true_iff in H as [Hc _].
  unfold is_numeral_char in Hc. apply andb_true_iff in Hc as [_ Hc].
  apply negb_true_iff in Hc. cbn [startsWith].
  rewrite Ascii.eqb_sym, Hc. reflexivity.
Qed.

Lemma field_no_comma (s : string) :
  all_chars is_field_char s = true -> includes "," s = false.
Proof.
  induction s as [|c s IH]; [reflexivity|]. cbn [all_chars]. intros H.
  apply andb_true_iff in H as [Hc Hs].
  unfold is_field_char in Hc. apply andb_true_iff in Hc as [Hc _].
  apply andb_true_iff in Hc as [Hc _]. apply negb_true_iff in Hc.
  change (includes "," (String c s))
    with ((Ascii.eqb "," c && true) || includes "," s).
  rewrite (IH Hs), Ascii.eqb_sym. change ","%char with COMMA. now rewrite Hc.
Qed.

(** The cell written for a safe value is safe text. *)
Lemma csv_cell_safe (v : value) : csv_safe_value v -> csv_safe (csv_cell v).
Proof.
  destruct v as [| |n|s]; cbn [csv_safe_value csv_cell ToString].
  - intros _. split; reflexivity.
  - intros _. split; reflexivity.
  - intros _. destruct (Number_toString_numeral n) as [H _].
    pose proof (numeral_safe _ H) as Hs.
    now rewrite (field_no_comma _ (proj1 Hs)).
  - intros Hs. now rewrite (field_no_comma _ (proj1 Hs)).
Qed.

Lemma reread_null : reread VNull = VNull.
Proof. reflexivity. Qed.

Lemma reread_string (s : string) :
  csv_safe s -> s <> "" -> unquoted s -> reread (VStr s) = VStr s.
Proof.
  intros [Hf Ht] Hne Hq. unfold reread, csv_cell, parse_cell. cbn [ToString].
  rewrite (field_no_comma _ Hf), Ht.
  destruct (String.eqb_spec s ""); [contradiction|].
  unfold unquoted in Hq. now rewrite Hq.
Qed.

Lemma reread_number (n : number) : reread (VNum n) = VStr (Number_toString n).
Proof.
  destruct (Number_toString_numeral n) as [H Hne].
  pose proof (numeral_safe _ H) as [Hf Ht].
  pose proof (numeral_unquoted _ H) as Hq.
  unfold reread, csv_cell, parse_cell. cbn [ToString].
  rewrite (field_no_comma _ Hf), Ht.
  destruct (String.eqb_spec (Number_toString n) ""); [contradiction|].
  unfold unquoted in Hq. now rewrite Hq.
Qed.

(** *** Lines *)

Lemma field_not_char (x : ascii) (s : string) :
  is_field_char x = false ->
  all_chars is_field_char s = true ->
  all_chars (fun c => negb (Ascii.eqb c x)) s = true.
Proof.
  intros Hx. apply all_chars_impl. intros c Hc.
  apply negb_true_iff. destruct (Ascii.eqb_spec c x) as [->|]; congruence.
Qed.

(** A line of safe cells has no line break. *)
Lemma join_comma_line (x : ascii) (cells : list string) :
  Ascii.eqb COMMA x = false ->
  Forall (fun s => all_chars (fun c => negb (Ascii.eqb c x)) s = true) cells ->
  all_chars (fun c => negb (Ascii.eqb c x)) (join "," cells) = true.
Proof.
  intros Hx. induction cells as [|a cells IH]; intros H; [reflexivity|].
  apply Forall_cons in H as [Ha Hl].
  destruct cells as [|b cells]; [exact Ha|].
  change (join "," (a :: b :: cells)) with (a +:+ "," +:+ join "," (b :: cells)).
  rewrite !all_chars_app, Ha, (IH Hl).
  change (all_chars (fun c => negb (Ascii.eqb c x)) ",")
    with (negb (Ascii.eqb COMMA x) && true).
  now rewrite Hx.
Qed.

(** The end of a line of cells without white space at their ends. *)
Lemma join_comma_trimEnd (cells : list string) :
  Forall (fun s => trimEnd s = s) cells ->
  join "," cells <> "" -> trimEnd (join "," cells) = join "," cells.
Proof.
  induction cells as [|a cells IH]; intros H Hne; [now contradiction Hne|].
  apply Forall_cons in H as [Ha Hl].
  destruct cells as [|b cells]; [exact Ha|].
  change (join "," (a :: b :: cells)) with (a +:+ "," +:+ join "," (b :: cells)).
  apply trimEnd_app; [discriminate|].
  destruct (join "," (b :: cells)) eqn:E; [reflexivity|].
  apply (trimEnd_app ","); [discriminate|]. apply IH; [exact Hl|discriminate].
Qed.

Lemma last_cons {A} (l : list A) (x y : A) :
  List.last (y :: l) x = List.last l y.
Proof.
  revert x y. induction l as [|a l IH]; intros x y; [reflexivity|].
  change (List.last (y :: a :: l) x) with (List.last (a :: l) x).
  now rewrite !IH.
Qed.

Lemma last_map {A B} (f : A -> B) (l : list A) (d : A) :
  List.last (map f l) (f d) = f (List.last l d).
Proof.
  revert d. induction l as [|a l IH]; intros d; [reflexivity|].
  cbn [map]. now rewrite !last_cons, IH.
Qed.

Lemma last_In_cons {A} (l : list A) (d : A) : In (List.last l d) (d :: l).
Proof.
  revert d. induction l as [|a l IH]; intros d; [now left|].
  rewrite last_cons. right. apply IH.
Qed.

(** What is joined ends with its last piece. *)
Lemma join_ends (sep : string) (l : list string) (x : string) :
  exists pre, join sep (x :: l) = pre +:+ List.last l x.
Proof.
  revert x. induction l as [|y l IH]; intros x.
  - exists "". reflexivity.
  - destruct (IH y) as [pre E]. exists (x +:+ sep +:+ pre).
    change (join sep (x :: y :: l)) with (x +:+ sep +:+ join sep (y :: l)).
    rewrite E, last_cons.
    now rewrite !append_assoc.
Qed.

Lemma row_get_tabulate (g : string -> value) (hs : list string) (h : string) :
  In h hs -> row_get h (map (fun h => (h, g h)) hs) = g h.
Proof.
  induction hs as [|a hs IH]; cbn; [tauto|]. intros Hin.
  destruct (String.eqb_spec h a) as [->|Hne]; [reflexivity|].
  apply IH. destruct Hin; [congruence|assumption].
Qed.

(** Reading back the text written for rows of safe values: row for row,
    every field of the first row with what [reread] gives for its value. *)
Lemma parseCSV_generateCsvContent (first : DataRow) (rest : list DataRow) :
  let data := first :: rest in
  let headers := Object_keys first in
  headers <> [] -> List.NoDup headers -> ~ In "__proto__" headers ->
  Forall (fun h => csv_safe h /\ h <> "") headers ->
  Forall (fun row => forall h, In h headers -> csv_safe_value (row_get h row)) data ->
  csv_line headers (List.last rest first) <> "" ->
  parseCSV (generateCsvContent data)
  = map (fun row => map (fun h => (h, reread (row_get h row))) headers) data.
Proof.
  intros data headers Hne Hnd Hproto Hhs Hrows Hlast.
  change (generateCsvContent data)
    with (join (String LF "") (join "," headers :: map (csv_line headers) data)).
  set (text := join (String LF "") (join "," headers :: map (csv_line headers) data)).
  (* cells *)
  assert (Hcells : forall row, In row data ->
            Forall csv_safe (map (fun h => csv_cell (row_get h row)) headers)).
  { intros row Hrow. rewrite Forall_forall in Hrows. specialize (Hrows row).
    apply Forall_forall. intros cell Hcell.
    apply list_elem_of_In, in_map_iff in Hcell as (h & <- & Hh).
    apply csv_cell_safe, Hrows; [now apply list_elem_of_In|exact Hh]. }
  assert (Hnot : forall x, is_field_char x = false -> Ascii.eqb COMMA x = false ->
            Forall (fun s => all_chars (fun c => negb (Ascii.eqb c x)) s = true)
              (join "," headers :: map (csv_line headers) data)).
  { intros x Hx Hc. constructor.
    - apply join_comma_line; [exact Hc|].
      eapply Forall_impl; [exact Hhs|]. cbn. intros h [[Hf _] _].
      now apply field_not_char.
    - apply Forall_forall. intros line Hline.
      apply list_elem_of_In, in_map_iff in Hline as (row & <- & Hrow).
      apply join_comma_line; [exact Hc|].
      eapply Forall_impl; [exact (Hcells row Hrow)|]. cbn. intros s [Hf _].
      now apply field_not_char. }
  (* the text has no white space at its ends *)
  assert (Htrim : trim text = text).
  { apply trim_of_ends.
    - unfold text. destruct headers as [|h1 hs] eqn:Eh; [congruence|].
      apply Forall_cons in Hhs as [[[_ Ht] Hh1] _].
      apply trim_fixed_ends in Ht as [Hlead _].
      change (join (String LF "") (join "," (h1 :: hs) :: map (csv_line (h1 :: hs)) data))
        with (join "," (h1 :: hs) +:+ String LF ""
              +:+ join (String LF "") (map (csv_line (h1 :: hs)) data)).
      apply no_leading_ws_app.
      + destruct hs; [exact Hh1|now apply append_nonempty_l].
      + destruct hs; [exact Hlead|now apply no_leading_ws_app].
    - unfold text.
      destruct (join_ends (String LF "") (map (csv_line headers) data)
                  (join "," headers)) as [pre ->].
      assert (El : List.last (map (csv_line headers) data) (join "," headers)
                   = csv_line headers (List.last rest first)).
      { unfold data. cbn [map]. rewrite last_cons. apply last_map. }
      rewrite El. apply trimEnd_app; [exact Hlast|].
      apply join_comma_trimEnd; [|exact Hlast].
      assert (Hin : In (List.last rest first) data).
      { unfold data. apply last_In_cons. }
      eapply Forall_impl; [exact (Hcells _ Hin)|]. cbn. intros s [_ Ht].
      now apply trim_fixed_ends in Ht. }
  (* its lines *)
  assert (Hlines : split_lines (trim text)
                   = join "," headers :: map (csv_line headers) data).
  { rewrite Htrim. unfold split_lines, text.
    rewrite split_join; [|discriminate|now apply Hnot].
    apply map_but_last_id.
    eapply Forall_impl; [exact (Hnot CR eq_refl eq_refl)|]. cbn.
    intros s Hs. now apply drop_final_CR_none. }
  unfold parseCSV. rewrite Hlines. cbn [length Nat.ltb Nat.leb hd tl map].
  (* the header *)
  assert (Hheader : map trim (split COMMA (join "," headers)) = headers).
  { change (join "," headers) with (join (String COMMA "") headers).
    rewrite split_join; [|exact Hne|].
    - rewrite <- (map_id headers) at 2. apply map_ext_in. intros h Hh.
      rewrite Forall_forall in Hhs. now destruct (Hhs h (proj2 (list_elem_of_In _ _) Hh)) as [[_ Ht] _].
    - eapply Forall_impl; [exact Hhs|]. cbn. intros h [[Hf _] _].
      now apply field_not_char. }
  rewrite Hheader, map_map. apply map_ext_in. intros row Hrow.
  unfold csv_line. change (join "," ?l) with (join (String COMMA "") l).
  rewrite split_join.
  - exact (build_row_cells (fun h => csv_cell (row_get h row)) headers [] [] true
             Hnd Hproto (fun _ _ H => H)).
  - destruct headers; [congruence|discriminate].
  - eapply Forall_impl; [exact (Hcells row Hrow)|]. cbn. intros s [Hf _].
    now apply field_not_char.
Qed.

(** C7 (as amended).  For a row list whose field names are distinct, not
    empty, safe text and no name that objects inherit ([__proto__],
    [constructor], [toString] and the like), whose values in these fields
    are safe, and whose last line is not empty: the text that
    [generateCsvContent] writes is read by [parseCSV] into one row for
    each row, in which a field that held [null] holds [null], a field that
    held a string (not empty, not wrapped in double quotes) holds that
    string, and a field that held a number holds the decimal form of the
    number, a string. *)
Theorem csv_round_trip (first : DataRow) (rest : list DataRow)
    (i : nat) (row : DataRow) (h : string) :
  let data := first :: rest in
  let headers := Object_keys first in
  List.NoDup headers ->
  Forall own_name headers ->
  Forall (fun h => csv_safe h /\ h <> "") headers ->
  Forall (fun row => forall h, In h headers -> csv_safe_value (row_get h row)) data ->
  csv_line headers (List.last rest first) <> "" ->
  data !! i = Some row -> In h headers ->
  exists out,
    parseCSV (generateCsvContent data) !! i = Some out /\
    (row_get h row = VNull -> row_get h out = VNull) /\
    (forall s, row_get h row = VStr s -> s <> "" -> unquoted s ->
               row_get h out = VStr s) /\
    (forall n, row_get h row = VNum n -> row_get h out = VStr (Number_toString n)).
Proof.
  intros data headers Hnd Hown Hhs Hrows Hlast Hi Hh. subst data headers.
  assert (Hne : Object_keys first <> []) by (intros E; rewrite E in Hh; exact Hh).
  assert (Hproto : ~ In "__proto__" (Object_keys first)).
  { intros Hin. rewrite List.Forall_forall in Hown. apply (Hown _ Hin).
    unfold App.Object_prototype_names. cbn. tauto. }
  rewrite (parseCSV_generateCsvContent first rest Hne Hnd Hproto Hhs Hrows Hlast).
  rewrite lookup_map, Hi. cbn [fmap option_fmap option_map].
  eexists. split; [reflexivity|].
  rewrite (row_get_tabulate (fun h => reread (row_get h row)) _ h Hh).
  assert (Hsafe : csv_safe_value (row_get h row)).
  { rewrite Forall_forall in Hrows. apply (Hrows row); [|exact Hh].
    eapply list_elem_of_lookup_2; eauto. }
  split; [|split].
  - intros ->. apply reread_null.
  - intros s Hs Hnes Hq. rewrite Hs in Hsafe |- *. now apply reread_string.
  - intros n ->. apply reread_number.
Qed.

Lemma csv_round_trip_witness :
  exists out,
    parseCSV (generateCsvContent [legacy_A1; incomplete_B7]) !! 1%nat = Some out /\
    (row_get "item_id" incomplete_B7 = VNull -> row_get "item_id" out = VNull) /\
    (forall s, row_get "item_id" incomplete_B7 = VStr s -> s <> "" -> unquoted s ->
               row_get "item_id" out = VStr s) /\
    (forall n, row_get "item_id" incomplete_B7 = VNum n ->
               row_get "item_id" out = VStr (Number_toString n)).
Proof.
  apply (csv_round_trip legacy_A1 [incomplete_B7] 1 incomplete_B7 "item_id").
  - repeat constructor; cbn; intuition discriminate.
  - repeat constructor; unfold own_name; cbn; intuition discriminate.
  - repeat constructor; discriminate.
  - repeat constructor;
      intros h [<-|[<-|[<-|[]]]]; cbn; try exact I; split; reflexivity.
  - vm_compute. discriminate.
  - reflexivity.
  - now left.
Defined.

(** C7 as stated fails for values without the delimiter: a string loses
    the white space at its ends, a number comes back as a string, and a
    row list of one field whose last value is null loses its last row. *)
Lemma csv_round_trip_counterexample :
  parseCSV (generateCsvContent [ [("item_name", VStr " bolt")] ])
    = [ [("item_name", VStr "bolt")] ] /\
  parseCSV (generateCsvContent [ [("inventory_qty", VNum (Fin 5))] ])
    = [ [("inventory_qty", VStr "5")] ] /\
  parseCSV (generateCsvContent [ [("item_name", VNull)] ]) = [] /\
  ~ (forall (first : DataRow) (rest : list DataRow) i row h,
       Forall (fun r => Object_keys r = Object_keys first) rest ->
       (first :: rest) !! i = Some row -> In h (Object_keys row) ->
       includes "," (ToString (row_get h row)) = false ->
       exists out,
         parseCSV (generateCsvContent (first :: rest)) !! i = Some out /\
         row_get h out = row_get h row).
Proof.
  split; [vm_compute; reflexivity|]. split; [vm_compute; reflexivity|].
  split; [vm_compute; reflexivity|].
  intros H.
  destruct (H [("item_name", VStr " bolt")] [] 0%nat
              [("item_name", VStr " bolt")] "item_name")
    as (out & Hout & Hget).
  - constructor.
  - reflexivity.
  - now left.
  - reflexivity.
  - vm_compute in Hout. injection Hout as <-. discriminate Hget.
Qed.

Lemma mergeAiFixesIntoSources_frame_witness :
  let m := mergeAiFixesIntoSources sample_heap sample_sources sample_fixes in
  (forall l row, sample_heap !! l = Some row -> m.1 !! l = Some row) /\
  map (deref m.1) (supplier m.2) = [supplier_A1] /\
  (exists l', spreadsheet m.2 !! 0%nat = Some l' /\ deref m.1 l' = incomplete_B7).
Proof.
  intros m.
  destruct (mergeAiFixesIntoSources_frame sample_heap m.1 sample_sources m.2
              sample_fixes (surjective_pairing m))
    as (Hframe & Hsupplier & _ & Hrows).
  split; [exact Hframe|]. split.
  - apply Hsupplier. repeat constructor.
    intros k v [H|[H|[H|[]]]]; injection H as <- <-; reflexivity.
  - apply (Hrows spreadsheet 0%nat 2%positive).
    + now right.
    + reflexivity.
    + intros k v [H|[H|[H|[]]]]; injection H as <- <-; reflexivity.
    + intros rows c [= <-] [<-|[]]. reflexivity.
    + intros rows c [=].
Defined.

(** C4 as stated fails for a supplier row with an infinite quantity (what
    the cleaner makes of the text Infinity): the deep copy writes it as
    null, so the supplier row of the result differs from the original. *)
Lemma mergeAiFixesIntoSources_counterexample :
  let m := mergeAiFixesIntoSources overflow_heap overflow_sources no_fixes in
  map (deref overflow_heap) (supplier overflow_sources)
    = [ [("item_id", VStr "A1"); ("shipment_qty", VNum (Inf false))] ] /\
  map (deref m.1) (supplier m.2)
    = [ [("item_id", VStr "A1"); ("shipment_qty", VNull)] ] /\
  map (deref m.1) (supplier m.2)
    <> map (deref overflow_heap) (supplier overflow_sources).
Proof.
  split; [vm_compute; reflexivity|]. split; [vm_compute; reflexivity|].
  vm_compute. discriminate.
Qed.

Lemma calculateDisruption_percentages_witness :
  let d := calculateDisruption ISO_date_parse (fun _ _ => 0) 1704153600000
             [legacy_A1; incomplete_B7] [spreadsheet_A1] [] in
  missing_data_of "item_id" ["item_id"; "inventory_qty"; "last_updated"]
    ([legacy_A1; incomplete_B7] ++ [spreadsheet_A1]) (missingInventoryData d) /\
  missing_data_of "order_id" ["order_id"; "order_qty"; "last_updated"]
    ([legacy_A1; incomplete_B7] ++ [spreadsheet_A1]) (missingOrderData d) /\
  percentage_ok (missingInventoryData d) /\ percentage_ok (missingOrderData d).
Proof.
  apply (calculateDisruption_percentages ISO_date_parse (fun _ _ => 0)
           1704153600000 [legacy_A1; incomplete_B7] [spreadsheet_A1] []).
  vm_compute. reflexivity.
Defined.

(* ================================================================== *)
(** * Part VI.  Further properties                                       *)
(* ================================================================== *)
(** ** Parsed rows *)

Lemma parse_cell_string (raw : option string) :
  parse_cell raw = VNull \/ exists s, parse_cell raw = VStr s.
Proof.
  unfold parse_cell. destruct raw as [x|]; [|now left].
  destruct (String.eqb (trim x) ""); [now left|].
  destruct (_ && _); right; eauto.
Qed.

Lemma Object_keys_row_set (k : string) (v v' : value) (r r' : DataRow) :
  Object_keys r = Object_keys r' ->
  Object_keys (row_set k v r) = Object_keys (row_set k v' r').
Proof.
  revert r'. induction r as [|[k0 v0] r IH]; intros [|[k1 v1] r']; cbn;
    try discriminate; [reflexivity|].
  intros [= <- E]. destruct (String.eqb k k0); cbn; f_equal; auto.
Qed.

Lemma build_row_keys (header values values' : list string) :
  ~ In "__proto__" header ->
  forall (index index' : nat) (obj obj' : DataRow) (inherits inherits' : bool),
    Object_keys obj = Object_keys obj' ->
    Object_keys (build_row values header index obj inherits)
    = Object_keys (build_row values' header index' obj' inherits').
Proof.
  induction header as [|h header IH]; cbn [build_row];
    intros Hproto i i' obj obj' b b' E; [exact E|].
  destruct (String.eqb_spec h "__proto__") as [->|_];
    [exfalso; apply Hproto; now left|]. cbn [andb].
  apply IH; [intros Hin; apply Hproto; now right|].
  now apply Object_keys_row_set.
Qed.

Lemma In_keys_row_set (k h : string) (v : value) (r : DataRow) :
  In k (Object_keys (row_set h v r)) <-> k = h \/ In k (Object_keys r).
Proof.
  induction r as [|[k0 v0] r IH]; cbn; [intuition congruence|].
  destruct (String.eqb_spec h k0) as [->|Hne]; cbn; [intuition congruence|].
  rewrite IH. intuition congruence.
Qed.

(** The rows of one header have the same names, [__proto__] apart. *)
Lemma build_row_names (header values values' : list string) (k : string) :
  k <> "__proto__" ->
  forall (index index' : nat) (obj obj' : DataRow) (inherits inherits' : bool),
    (In k (Object_keys obj) <-> In k (Object_keys obj')) ->
    (In k (Object_keys (build_row values header index obj inherits))
     <-> In k (Object_keys (build_row values' header index' obj' inherits'))).
Proof.
  intros Hk. induction header as [|h header IH]; cbn [build_row];
    intros i i' obj obj' b b' E; [exact E|].
  destruct (String.eqb_spec h "__proto__") as [->|Hh]; cbn [andb].
  - assert (E' : forall v v',
               In k (Object_keys (row_set "__proto__" v obj))
               <-> In k (Object_keys (row_set "__proto__" v' obj'))).
    { intros v v'. rewrite !In_keys_row_set. intuition congruence. }
    destruct b, b'; apply IH; auto.
    + rewrite In_keys_row_set. intuition congruence.
    + rewrite In_keys_row_set. intuition congruence.
  - apply IH. rewrite !In_keys_row_set. intuition congruence.
Qed.

Lemma build_row_entries (header values : list string) :
  forall (index : nat) (obj : DataRow) (inherits : bool) (k : string) (v : value),
    In (k, v) (build_row values header index obj inherits) ->
    In (k, v) obj \/ exists raw, v = parse_cell raw.
Proof.
  induction header as [|h header IH]; cbn [build_row]; intros i obj b k v H;
    [now left|].
  destruct (String.eqb h "__proto__" && b); [now apply IH in H|].
  apply IH in H as [H|H]; [|now right].
  apply row_set_entries in H as [[_ ->]|H]; eauto.
Qed.

Lemma parseCSV_rows (text : string) (row : DataRow) :
  In row (parseCSV text) ->
  exists values,
    row = build_row values
            (map trim (split COMMA (hd "" (split_lines (trim text))))) 0 [] true.
Proof.
  unfold parseCSV. destruct (_ <? _)%nat; [intros []|].
  intros H. apply in_map_iff in H as (line & <- & _). eauto.
Qed.

Lemma parseCSV_entries (text : string) (row : DataRow) (k : string) (v : value) :
  In row (parseCSV text) -> In (k, v) row -> v = VNull \/ exists s, v = VStr s.
Proof.
  intros H Hin. apply parseCSV_rows in H as (values & ->).
  apply build_row_entries in Hin as [[]|[raw ->]]. apply parse_cell_string.
Qed.

Lemma parseCSV_same_keys (text : string) (row row' : DataRow) :
  ~ In "__proto__" (map trim (split COMMA (hd "" (split_lines (trim text))))) ->
  In row (parseCSV text) -> In row' (parseCSV text) ->
  Object_keys row' = Object_keys row.
Proof.
  intros Hproto H H'. apply parseCSV_rows in H as (values & ->).
  apply parseCSV_rows in H' as (values' & ->). now apply build_row_keys.
Qed.

Lemma parseCSV_same_names (text : string) (row row' : DataRow) (k : string) :
  k <> "__proto__" ->
  In row (parseCSV text) -> In row' (parseCSV text) ->
  In k (Object_keys row) -> In k (Object_keys row').
Proof.
  intros Hk H H'. apply parseCSV_rows in H as (values & ->).
  apply parseCSV_rows in H' as (values' & ->).
  now apply build_row_names.
Qed.

(** X1.  When no column of the header is named [__proto__], all the rows
    that [parseCSV] returns have the same property names, in the same
    order, and every property holds [null] or a string: never a number,
    never [undefined]. *)
Theorem parseCSV_uniform_rows (text : string) (row : DataRow) :
  let header := map trim (split COMMA (hd "" (split_lines (trim text)))) in
  ~ In "__proto__" header ->
  In row (parseCSV text) ->
  (forall k v, In (k, v) row -> v = VNull \/ exists s, v = VStr s) /\
  (forall row', In row' (parseCSV text) -> Object_keys row' = Object_keys row).
Proof.
  intros header Hproto H. split.
  - intros k v. now apply parseCSV_entries with (text := text).
  - intros row'. now apply parseCSV_same_keys.
Qed.

Lemma parseCSV_uniform_rows_witness :
  let text := "item_id,inventory_qty" +:+ String LF "a1,5" +:+ String LF "b2" in
  let row := [("item_id", VStr "b2"); ("inventory_qty", VNull)] in
  (forall k v, In (k, v) row -> v = VNull \/ exists s, v = VStr s) /\
  (forall row', In row' (parseCSV text) -> Object_keys row' = Object_keys row).
Proof.
  apply (parseCSV_uniform_rows
           ("item_id,inventory_qty" +:+ String LF "a1,5" +:+ String LF "b2")).
  - vm_compute. intuition discriminate.
  - vm_compute. right. left. reflexivity.
Defined.

(** X2.  A text that holds no line feed once the white space at its ends
    is removed (an empty file, a header line alone) has no rows. *)
Theorem parseCSV_header_only (text : string) :
  all_chars (fun c => negb (Ascii.eqb c LF)) (trim text) = true ->
  parseCSV text = [].
Proof.
  intros H. unfold parseCSV, split_lines. now rewrite (split_none _ _ H).
Qed.

Lemma parseCSV_header_only_witness :
  parseCSV ("item_id,inventory_qty" +:+ String CR (String LF "")) = [].
Proof.
  apply (parseCSV_header_only ("item_id,inventory_qty" +:+ String CR (String LF ""))).
  vm_compute. reflexivity.
Defined.

(** ** Cleaning what was parsed *)

Lemma parseCSV_plain (text : string) (row : DataRow) :
  In row (parseCSV text) -> JSON_row row = row.
Proof.
  intros H. apply JSON_row_fixed. intros k v Hin.
  destruct (parseCSV_entries _ _ _ _ H Hin) as [->|[s ->]]; reflexivity.
Qed.

Lemma JSON_rows_parseCSV (text : string) : JSON_rows (parseCSV text) = parseCSV text.
Proof.
  unfold JSON_rows. rewrite <- (map_id (parseCSV text)) at 2.
  apply map_ext_in. intros row. apply parseCSV_plain.
Qed.

Lemma cleaned_parsed_quantity (text sourceName : string)
    (row : DataRow) (k : string) :
  In row (cleanData (parseCSV text) sourceName) ->
  In k (Object_keys row) ->
  is_qty_column k = true ->
  number_or_null (row_get k row).
Proof.
  destruct (parseCSV text) as [|first rest] eqn:E; [intros []|].
  rewrite cleanData_nonempty by discriminate.
  rewrite <- E, JSON_rows_parseCSV, E.
  intros Hrow Hk Hq. apply in_map_iff in Hrow as (r0 & <- & Hr0).
  assert (Hproto : forall c, is_qty_column c = true -> c <> "__proto__")
    by (intros c Hc ->; discriminate Hc).
  assert (Hsub : forall c, In c (qtyColumns (first :: rest)) -> In c (Object_keys r0)).
  { intros c Hc. unfold qtyColumns in Hc. cbn [hd] in Hc.
    apply filter_In in Hc as [Hc Hqc].
    apply (parseCSV_same_names text first r0 c); rewrite ?E; auto. now left. }
  rewrite Object_keys_clean_row in Hk by exact Hsub.
  apply clean_row_qty. unfold qtyColumns. apply filter_In. cbn [hd].
  split; [|exact Hq].
  apply (parseCSV_same_names text r0 first k); rewrite ?E; auto. now left.
Qed.

(** X3.  Cleaning the rows of a parsed file leaves, in every row, [null]
    or a number that is not NaN in every column whose name contains qty:
    the rows of one file all have the columns of its first row. *)
Theorem cleanData_parseCSV_quantities (text sourceName : string)
    (row : DataRow) (k : string) :
  In row (cleanData (parseCSV text) sourceName) ->
  In k (Object_keys row) ->
  is_qty_column k = true ->
  number_or_null (row_get k row).
Proof. apply cleaned_parsed_quantity. Qed.

Lemma cleanData_parseCSV_quantities_witness :
  number_or_null
    (row_get "order_qty" [("order_id", VStr "B"); ("order_qty", VNull)]).
Proof.
  apply (cleanData_parseCSV_quantities
           ("order_id,order_qty" +:+ String LF "a,7" +:+ String LF "b,seven")
           "Legacy Database").
  - vm_compute. right. left. reflexivity.
  - vm_compute. right. left. reflexivity.
  - reflexivity.
Defined.

(** X4.  A text column ([item_id], [item_name], [order_id], [return_id])
    that holds a string other than the empty one holds, after cleaning,
    that string without the white space at its ends and in upper case. *)
Theorem cleanData_text_columns (data : list DataRow) (sourceName : string)
    (i : nat) (r r' : DataRow) (t s : string) :
  data !! i = Some r ->
  cleanData data sourceName !! i = Some r' ->
  In t textColumns ->
  row_get t r = VStr s -> s <> "" ->
  row_get t r' = VStr (toUpperCase (trim s)).
Proof.
  intros Hr Hr' Ht Hs Hne.
  assert (Hd : data <> []) by (intros ->; discriminate).
  rewrite cleanData_nonempty in Hr' by exact Hd.
  unfold JSON_rows in Hr' at 2. rewrite !lookup_map, Hr in Hr'.
  cbn [fmap option_fmap option_map] in Hr'.
  injection Hr' as <-. unfold clean_row.
  rewrite fold_clean_text_get by (exact textColumns_NoDup || exact Ht).
  rewrite fold_clean_qty_notin.
  - rewrite (JSON_row_get t r (VStr s)) by now rewrite Hs.
    unfold clean_text_value. destruct (String.eqb_spec s ""); [contradiction|].
    reflexivity.
  - intros Hin. unfold qtyColumns in Hin. apply filter_In in Hin as [_ Hq].
    exact (qty_column_not_text _ Hq Ht).
Qed.

Lemma cleanData_text_columns_witness :
  row_get "item_id" [("item_id", VStr "A1"); ("inventory_qty", VNum (Fin 5))]
  = VStr (toUpperCase (trim " a1 ")).
Proof.
  apply (cleanData_text_columns
           [[("item_id", VStr " a1 "); ("inventory_qty", VStr "5")]]
           "Legacy Database" 0
           [("item_id", VStr " a1 "); ("inventory_qty", VStr "5")]).
  - reflexivity.
  - vm_compute. reflexivity.
  - left. reflexivity.
  - reflexivity.
  - discriminate.
Defined.
(** ** Keys of a [Map] *)

Lemma num_same_refl (x : number) : num_same x x = true.
Proof.
  destruct x as [|s| |q]; cbn; try reflexivity.
  - now destruct s.
  - apply Qeq_bool_iff. reflexivity.
Qed.

Lemma same_value_zero_refl (a : value) : same_value_zero a a = true.
Proof.
  destruct a as [| |x|s]; cbn; try reflexivity.
  - apply num_same_refl.
  - apply String.eqb_refl.
Qed.

Lemma num_same_trans (x y z : number) :
  num_same x y = true -> num_same y z = true -> num_same x z = true.
Proof.
  destruct x as [|s| |p], y as [|t| |q], z as [|u| |r]; cbn;
    try discriminate; try reflexivity;
    try (destruct s, t, u; cbn; congruence);
    rewrite ?Qeq_bool_iff; intros H1 H2;
    try (rewrite <- H2; exact H1); try (rewrite H1; exact H2).
Qed.

Lemma same_value_zero_trans (a b c : value) :
  same_value_zero a b = true -> same_value_zero b c = true ->
  same_value_zero a c = true.
Proof.
  destruct a as [| |x|s], b as [| |y|t], c as [| |z|u]; cbn;
    try discriminate; try reflexivity.
  - apply num_same_trans.
  - rewrite !String.eqb_eq. congruence.
Qed.

(** The keys that are the same key are the same to every key. *)
Lemma same_value_zero_congr (a b c : value) :
  same_value_zero a b = true -> same_value_zero a c = same_value_zero b c.
Proof.
  intros H. destruct (same_value_zero b c) eqn:E.
  - exact (same_value_zero_trans _ _ _ H E).
  - destruct (same_value_zero a c) eqn:E'; [|reflexivity].
    rewrite same_value_zero_sym in H.
    now rewrite (same_value_zero_trans _ _ _ H E') in E.
Qed.

Lemma same_value_zero_truthy (a b : value) :
  same_value_zero a b = true -> truthy a = truthy b.
Proof.
  destruct a as [| |x|s], b as [| |y|t]; cbn; try discriminate; try reflexivity.
  - destruct x as [|s| |p], y as [|t| |q]; cbn; try discriminate; try reflexivity.
    + rewrite Qeq_bool_iff. intros H. symmetry in H.
      apply Qeq_bool_iff in H. now rewrite H.
    + rewrite Qeq_bool_iff. intros H. apply Qeq_bool_iff in H. now rewrite H.
    + rewrite Qeq_bool_iff. intros H.
      assert (E : Qeq_bool p 0 = Qeq_bool q 0).
      { apply eq_true_iff_eq. rewrite !Qeq_bool_iff. now rewrite H. }
      now rewrite E.
  - rewrite String.eqb_eq. now intros ->.
Qed.

Section MapLookup.
Context {A : Type}.
Implicit Types (m : JSMap A) (k : value).

Lemma map_get_set k k' (a : A) m :
  map_get k (map_set k' a m)
  = if same_value_zero k k' then Some a else map_get k m.
Proof.
  induction m as [|[k0 a0] m IH]; cbn; [reflexivity|].
  destruct (same_value_zero k' k0) eqn:E0; cbn.
  - assert (E : same_value_zero k k' = same_value_zero k k0).
    { rewrite (same_value_zero_sym k k'), (same_value_zero_sym k k0).
      now apply same_value_zero_congr. }
    rewrite E. destruct (same_value_zero k k0); reflexivity.
  - rewrite IH. destruct (same_value_zero k k0) eqn:E1; [|reflexivity].
    destruct (same_value_zero k k') eqn:E2; [|reflexivity].
    rewrite same_value_zero_sym in E2.
    now rewrite (same_value_zero_trans _ _ _ E2 E1) in E0.
Qed.

Lemma map_set_keys k (a : A) m :
  map fst (map_set k a m)
  = if map_has k m then map fst m else map fst m ++ [k].
Proof.
  unfold map_has. induction m as [|[k0 a0] m IH]; cbn; [reflexivity|].
  destruct (same_value_zero k k0); cbn; [reflexivity|].
  rewrite IH. now destruct (map_get k m).
Qed.

End MapLookup.

Lemma distinct_snoc (ks : list value) (k : value) :
  distinct ks -> Forall (fun k0 => same_value_zero k k0 = false) ks ->
  distinct (ks ++ [k]).
Proof.
  intros Hd Hfresh. rewrite Forall_lookup in Hfresh.
  intros i j a b Hi Hj Hij.
  apply lookup_app_Some in Hi, Hj.
  destruct Hi as [Hi|[Hli Hi]], Hj as [Hj|[Hlj Hj]].
  - eauto.
  - apply list_lookup_singleton_Some in Hj as [_ <-].
    rewrite same_value_zero_sym. exact (Hfresh _ _ Hi).
  - apply list_lookup_singleton_Some in Hi as [_ <-]. exact (Hfresh _ _ Hj).
  - apply list_lookup_singleton_Some in Hi as [Hi _].
    apply list_lookup_singleton_Some in Hj as [Hj _]. lia.
Qed.

Lemma map_set_distinct {A} (k : value) (a : A) (m : JSMap A) :
  distinct (map fst m) -> distinct (map fst (map_set k a m)).
Proof.
  intros Hd. rewrite map_set_keys. unfold map_has.
  destruct (map_get k m) eqn:E; [exact Hd|].
  apply distinct_snoc; [exact Hd|].
  apply map_get_None_Forall in E. now apply Forall_map.
Qed.

Lemma distinct_nil : distinct [].
Proof. intros i j a b Hi. destruct i; discriminate Hi. Qed.

Lemma distinct_tail (k : value) (ks : list value) :
  distinct (k :: ks) -> distinct ks.
Proof. intros H i j a b Hi Hj Hij. apply (H (S i) (S j)); auto. Qed.

(** With distinct keys, every entry is the one found under its key. *)
Lemma map_get_In {A} (k : value) (a : A) (m : JSMap A) :
  distinct (map fst m) -> In (k, a) m -> map_get k m = Some a.
Proof.
  induction m as [|[k0 a0] m IH]; cbn; [tauto|]. intros Hd [H|H].
  - injection H as -> ->. now rewrite same_value_zero_refl.
  - pose proof H as Hin.
    apply list_elem_of_In, list_elem_of_lookup_1 in Hin as [j Hj].
    assert (E : same_value_zero k0 k = false).
    { apply (Hd 0%nat (S j)); [reflexivity| |lia]. cbn.
      change (map fst m !! j = Some k). now rewrite lookup_map, Hj. }
    rewrite same_value_zero_sym, E. apply IH; [|exact H].
    now apply distinct_tail in Hd.
Qed.

Lemma map_get_Some_In {A} (k : value) (a : A) (m : JSMap A) :
  map_get k m = Some a -> In a (map_values m).
Proof.
  induction m as [|[k0 a0] m IH]; cbn; [discriminate|].
  destruct (same_value_zero k k0); [intros [= ->]; now left|auto].
Qed.

(** ** The outer join *)

Lemma last_keyed_snoc (key : string) (k : value) (rows : list DataRow) (x : DataRow) :
  last_keyed key k (rows ++ [x])
  = if truthy (row_get key x) && same_value_zero (row_get key x) k
    then Some x else last_keyed key k rows.
Proof.
  induction rows as [|r rows IH]; cbn; [reflexivity|].
  rewrite IH. destruct (_ && _); [reflexivity|].
  destruct (last_keyed key k rows); reflexivity.
Qed.

Lemma last_keyed_In (key : string) (k : value) (rows : list DataRow) (a : DataRow) :
  last_keyed key k rows = Some a ->
  In a rows /\ truthy (row_get key a) = true /\
  same_value_zero (row_get key a) k = true.
Proof.
  induction rows as [|r rows IH]; cbn; [discriminate|].
  destruct (last_keyed key k rows) as [r'|].
  - intros [= <-]. destruct (IH eq_refl) as (H1 & H2 & H3). auto.
  - destruct (_ && _) eqn:E; [|discriminate]. intros [= <-].
    apply andb_true_iff in E as [E1 E2]. auto.
Qed.

Lemma last_keyed_congr (key : string) (k k' : value) (rows : list DataRow) :
  same_value_zero k k' = true -> last_keyed key k rows = last_keyed key k' rows.
Proof.
  intros H. induction rows as [|r rows IH]; cbn; [reflexivity|].
  rewrite IH.
  rewrite (same_value_zero_sym _ k), (same_value_zero_sym _ k').
  now rewrite (same_value_zero_congr _ _ _ H).
Qed.

Lemma strict_eq_null (v : value) : strict_eq v VNull = true <-> v = VNull.
Proof. destruct v; cbn; split; congruence. Qed.

Lemma discrepancy_differ (c1 c2 : string) (row : DataRow) :
  discrepancy c1 c2 row = true <-> differ (row_get c1 row) (row_get c2 row).
Proof.
  unfold discrepancy, differ.
  destruct (strict_eq (row_get c1 row) VNull) eqn:E1; cbn [orb].
  - apply strict_eq_null in E1. split; [discriminate|]. intros [H _]. contradiction.
  - destruct (strict_eq (row_get c2 row) VNull) eqn:E2.
    + apply strict_eq_null in E2. split; [discriminate|].
      intros (_ & H & _). contradiction.
    + rewrite andb_true_iff, !negb_true_iff. split.
      * intros [H1 H2]. repeat split; try assumption;
          intros H; apply strict_eq_null in H; congruence.
      * intros (_ & _ & H1 & H2). auto.
Qed.

(** A number minus itself is zero, or is not a number. *)
Lemma num_sub_self (n : number) :
  isNaN (num_sub n n) = true \/ num_eq (num_sub n n) (Fin 0) = true.
Proof.
  destruct n as [|s| |q]; cbn.
  - now left.
  - left. now destruct s.
  - now right.
  - right. unfold num_sub. cbn. destruct (Qeq_bool q 0) eqn:E; cbn.
    + reflexivity.
    + assert (E' : Qeq_bool (- q) 0 = false).
      { apply not_true_iff_false. rewrite Qeq_bool_iff. intros H.
        apply not_true_iff_false in E. apply E, Qeq_bool_iff.
        rewrite <- (Qopp_involutive q), H. reflexivity. }
      rewrite E'.
      assert (E0 : Qeq_bool (q + - q) 0 = true)
        by (apply Qeq_bool_iff, Qplus_opp_r).
      now rewrite E0.
Qed.

Lemma filter_none {A} (f : A -> bool) (l : list A) :
  (forall x, In x l -> f x = false) -> List.filter f l = [].
Proof.
  induction l as [|x l IH]; cbn; [reflexivity|]. intros H.
  rewrite (H x) by now left. apply IH. auto.
Qed.

Section OuterJoin.
Variables (key valCol sl sr : string).

Let c1 : string := valCol +:+ sl.
Let c2 : string := valCol +:+ sr.

Hypotheses (Hk1 : c1 <> key) (Hk2 : c2 <> key) (H12 : c1 <> c2).

Let from_left (m : JSMap DataRow) (row : DataRow) : JSMap DataRow :=
  if truthy (row_get key row)
  then map_set (row_get key row)
         (row_set c1 (row_get valCol row) (row_set key (row_get key row) [])) m
  else m.

Let from_right (m : JSMap DataRow) (row : DataRow) : JSMap DataRow :=
  if negb (truthy (row_get key row)) then m
  else
    let existing :=
      match map_get (row_get key row) m with
      | Some e => e
      | None => row_set key (row_get key row) []
      end in
    map_set (row_get key row) (row_set c2 (row_get valCol row) existing) m.

Lemma from_left_joined (left : list DataRow) (m : JSMap DataRow) (x : DataRow) :
  joined key valCol c1 c2 left [] m ->
  joined key valCol c1 c2 (left ++ [x]) [] (from_left m x).
Proof.
  intros Hm k. specialize (Hm k). unfold from_left, last_value in *.
  rewrite last_keyed_snoc.
  destruct (truthy (row_get key x)) eqn:Et; cbn [andb]; [|exact Hm].
  rewrite map_get_set, (same_value_zero_sym k).
  destruct (same_value_zero (row_get key x) k) eqn:E; [|exact Hm].
  cbn [last_keyed]. split; [|split].
  - rewrite row_get_set_ne by exact Hk1. cbn. now rewrite String.eqb_refl.
  - apply row_get_set_eq.
  - rewrite row_get_set_ne by congruence. cbn.
    destruct (String.eqb_spec c2 key); [contradiction|reflexivity].
Qed.

Lemma from_right_joined (left right : list DataRow) (m : JSMap DataRow)
    (x : DataRow) :
  joined key valCol c1 c2 left right m ->
  joined key valCol c1 c2 left (right ++ [x]) (from_right m x).
Proof.
  intros Hm k. unfold from_right, last_value in *.
  rewrite last_keyed_snoc.
  destruct (truthy (row_get key x)) eqn:Et; cbn [andb negb]; [|exact (Hm k)].
  rewrite map_get_set, (same_value_zero_sym k).
  destruct (same_value_zero (row_get key x) k) eqn:E; [|exact (Hm k)].
  pose proof (Hm (row_get key x)) as Hx. unfold last_value in Hx.
  rewrite (last_keyed_congr key _ _ left E) in Hx.
  destruct (map_get (row_get key x) m) as [e|].
  - destruct Hx as (Hx1 & Hx2 & _). split; [|split].
    + rewrite row_get_set_ne by exact Hk2.
      exact (same_value_zero_trans _ _ _ Hx1 E).
    + rewrite row_get_set_ne by congruence. exact Hx2.
    + apply row_get_set_eq.
  - destruct Hx as (Hx1 & _). split; [|split].
    + rewrite row_get_set_ne by exact Hk2. cbn. now rewrite String.eqb_refl.
    + rewrite row_get_set_ne by congruence. cbn. rewrite Hx1.
      destruct (String.eqb_spec c1 key); [contradiction|reflexivity].
    + apply row_get_set_eq.
Qed.

Lemma from_left_distinct (m : JSMap DataRow) (x : DataRow) :
  distinct (map fst m) -> distinct (map fst (from_left m x)).
Proof.
  intros H. unfold from_left. destruct (truthy _); [|exact H].
  now apply map_set_distinct.
Qed.

Lemma from_right_distinct (m : JSMap DataRow) (x : DataRow) :
  distinct (map fst m) -> distinct (map fst (from_right m x)).
Proof.
  intros H. unfold from_right. destruct (truthy _); cbn; [|exact H].
  now apply map_set_distinct.
Qed.

Lemma fold_from_left (rows : list DataRow) :
  forall (left : list DataRow) (m : JSMap DataRow),
    joined key valCol c1 c2 left [] m -> distinct (map fst m) ->
    joined key valCol c1 c2 (left ++ rows) [] (fold_left from_left rows m) /\
    distinct (map fst (fold_left from_left rows m)).
Proof.
  induction rows as [|x rows IH]; cbn [fold_left]; intros left m Hm Hd.
  - now rewrite app_nil_r.
  - replace (left ++ x :: rows) with ((left ++ [x]) ++ rows)
      by now rewrite <- app_assoc.
    apply IH; [now apply from_left_joined|now apply from_left_distinct].
Qed.

Lemma fold_from_right (left rows : list DataRow) :
  forall (right : list DataRow) (m : JSMap DataRow),
    joined key valCol c1 c2 left right m -> distinct (map fst m) ->
    joined key valCol c1 c2 left (right ++ rows) (fold_left from_right rows m) /\
    distinct (map fst (fold_left from_right rows m)).
Proof.
  induction rows as [|x rows IH]; cbn [fold_left]; intros right m Hm Hd.
  - now rewrite app_nil_r.
  - replace (right ++ x :: rows) with ((right ++ [x]) ++ rows)
      by now rewrite <- app_assoc.
    apply IH; [now apply from_right_joined|now apply from_right_distinct].
Qed.

(** The rows of the join are the values of a [Map] with distinct keys
    that holds, for every key, the last quantities of the two lists. *)
Lemma outerJoin_joined (left right : list DataRow) :
  exists m : JSMap DataRow,
    outerJoin left right key valCol (sl, sr) = map_values m /\
    distinct (map fst m) /\
    joined key valCol c1 c2 left right m.
Proof.
  destruct (fold_from_left left [] []) as [H1 D1].
  { intros k. cbn. auto. }
  { exact distinct_nil. }
  destruct (fold_from_right left right [] _ H1 D1) as [H2 D2].
  eexists. split; [|split; [exact D2|exact H2]]. reflexivity.
Qed.

Lemma joined_entry (left right : list DataRow) (d : DataRow) :
  In d (outerJoin left right key valCol (sl, sr)) ->
  exists k : value,
    same_value_zero (row_get key d) k = true /\
    row_get c1 d = last_value key valCol k left /\
    row_get c2 d = last_value key valCol k right.
Proof.
  destruct (outerJoin_joined left right) as (m & -> & Hd & Hm). intros Hin.
  apply in_map_iff in Hin as ([k0 d0] & <- & Hin). exists k0.
  specialize (Hm k0). now rewrite (map_get_In _ _ _ Hd Hin) in Hm.
Qed.

Lemma joined_sound (left right : list DataRow) (d : DataRow) :
  In d (List.filter (discrepancy c1 c2) (outerJoin left right key valCol (sl, sr))) ->
  exists a b : DataRow,
    In a left /\ In b right /\
    truthy (row_get key d) = true /\
    same_value_zero (row_get key a) (row_get key d) = true /\
    same_value_zero (row_get key b) (row_get key d) = true /\
    row_get c1 d = row_get valCol a /\
    row_get c2 d = row_get valCol b /\
    differ (row_get valCol a) (row_get valCol b).
Proof.
  intros H. apply filter_In in H as [Hin Hdis].
  apply discrepancy_differ in Hdis.
  destruct (joined_entry _ _ _ Hin) as (k & Hk & E1 & E2).
  unfold last_value in E1, E2. rewrite E1, E2 in Hdis.
  destruct (last_keyed key k left) as [a|] eqn:Ea.
  2:{ destruct Hdis as (_ & _ & Hnan & _). discriminate Hnan. }
  destruct (last_keyed key k right) as [b|] eqn:Eb.
  2:{ destruct Hdis as (_ & _ & Hnan & _).
      unfold num_sub in Hnan. cbn in Hnan.
      destruct (ToNumber (row_get valCol a)); discriminate Hnan. }
  apply last_keyed_In in Ea as (Ha & Hta & Ka).
  apply last_keyed_In in Eb as (Hb & _ & Kb).
  rewrite same_value_zero_sym in Hk.
  exists a, b. repeat split; auto.
  - rewrite <- Hta. symmetry. apply same_value_zero_truthy.
    exact (same_value_zero_trans _ _ _ Ka Hk).
  - exact (same_value_zero_trans _ _ _ Ka Hk).
  - exact (same_value_zero_trans _ _ _ Kb Hk).
  - apply Hdis.
  - apply Hdis.
  - apply Hdis.
  - apply Hdis.
Qed.

Lemma joined_complete (left right : list DataRow) (k : value) (a b : DataRow) :
  last_keyed key k left = Some a ->
  last_keyed key k right = Some b ->
  differ (row_get valCol a) (row_get valCol b) ->
  exists d : DataRow,
    In d (List.filter (discrepancy c1 c2)
            (outerJoin left right key valCol (sl, sr))) /\
    same_value_zero (row_get key d) k = true /\
    row_get c1 d = row_get valCol a /\
    row_get c2 d = row_get valCol b.
Proof.
  intros Ea Eb Hdiff.
  destruct (outerJoin_joined left right) as (m & -> & Hd & Hm).
  specialize (Hm k). unfold last_value in Hm. rewrite Ea, Eb in Hm.
  destruct (map_get k m) as [e|] eqn:E; [|destruct Hm; discriminate].
  destruct Hm as (Hk & E1 & E2). exists e. split; [|auto].
  apply filter_In. split; [exact (map_get_Some_In _ _ _ E)|].
  apply discrepancy_differ. now rewrite E1, E2.
Qed.

Lemma joined_self (rows : list DataRow) :
  List.filter (discrepancy c1 c2) (outerJoin rows rows key valCol (sl, sr)) = [].
Proof.
  apply filter_none. intros d Hin.
  destruct (joined_entry _ _ _ Hin) as (k & _ & E1 & E2).
  unfold discrepancy. rewrite E1, E2.
  destruct (strict_eq (last_value key valCol k rows) VNull); [reflexivity|].
  cbn [orb].
  destruct (num_sub_self (ToNumber (last_value key valCol k rows))) as [->| ->];
    [reflexivity|apply andb_false_r].
Qed.

End OuterJoin.

(** ** Detected inconsistencies *)

Lemma inventory_names :
  "inventory_qty" +:+ "_legacy" <> "item_id" /\
  "inventory_qty" +:+ "_spreadsheet" <> "item_id" /\
  "inventory_qty" +:+ "_legacy" <> "inventory_qty" +:+ "_spreadsheet".
Proof. repeat split; discriminate. Qed.

Lemma order_names :
  "order_qty" +:+ "_legacy" <> "order_id" /\
  "order_qty" +:+ "_spreadsheet" <> "order_id" /\
  "order_qty" +:+ "_legacy" <> "order_qty" +:+ "_spreadsheet".
Proof. repeat split; discriminate. Qed.

(** The rows that [identifyInconsistencies] reports under each type. *)
Lemma identifyInconsistencies_details (legacy spreadsheet : list DataRow)
    (issue : Inconsistency) :
  In issue (identifyInconsistencies legacy spreadsheet) ->
  details issue <> [] /\
  ((type issue = "Inventory Quantity Discrepancy" /\
    details issue
    = List.filter (discrepancy "inventory_qty_legacy" "inventory_qty_spreadsheet")
        (outerJoin legacy spreadsheet "item_id" "inventory_qty"
           ("_legacy", "_spreadsheet"))) \/
   (type issue = "Order Quantity Discrepancy" /\
    details issue
    = List.filter (discrepancy "order_qty_legacy" "order_qty_spreadsheet")
        (outerJoin legacy spreadsheet "order_id" "order_qty"
           ("_legacy", "_spreadsheet")))).
Proof.
  unfold identifyInconsistencies.
  destruct (List.filter _ (outerJoin _ _ "item_id" _ _)) as [|d1 l1] eqn:E1;
    destruct (List.filter _ (outerJoin _ _ "order_id" _ _)) as [|d2 l2] eqn:E2;
    cbn [In app]; intros H;
    repeat match goal with
           | H : _ \/ _ |- _ => destruct H as [H|H]
           | H : False |- _ => destruct H
           end; subst issue; cbn [details type]; (split; [discriminate|]); auto.
Qed.

(** X5.  [identifyInconsistencies] returns at most one inconsistency of
    type Inventory Quantity Discrepancy, then at most one of type Order
    Quantity Discrepancy, and nothing else; each has at least one detail
    row. *)
Theorem identifyInconsistencies_shape (legacy spreadsheet : list DataRow) :
  exists inv ord : list Inconsistency,
    identifyInconsistencies legacy spreadsheet = inv ++ ord /\
    (inv = [] \/
     exists rows, rows <> [] /\
       inv = [{| type := "Inventory Quantity Discrepancy"; details := rows |}]) /\
    (ord = [] \/
     exists rows, rows <> [] /\
       ord = [{| type := "Order Quantity Discrepancy"; details := rows |}]).
Proof.
  unfold identifyInconsistencies.
  destruct (List.filter _ (outerJoin _ _ "item_id" _ _)) as [|d1 l1];
    destruct (List.filter _ (outerJoin _ _ "order_id" _ _)) as [|d2 l2].
  - exists [], []. auto.
  - exists [], [{| type := "Order Quantity Discrepancy"; details := d2 :: l2 |}].
    split; [reflexivity|]. split; [now left|]. right. eexists. split; [|reflexivity].
    discriminate.
  - exists [{| type := "Inventory Quantity Discrepancy"; details := d1 :: l1 |}], [].
    split; [reflexivity|]. split; [|now left]. right. eexists. split; [|reflexivity].
    discriminate.
  - exists [{| type := "Inventory Quantity Discrepancy"; details := d1 :: l1 |}],
           [{| type := "Order Quantity Discrepancy"; details := d2 :: l2 |}].
    split; [reflexivity|].
    split; right; eexists; (split; [|reflexivity]); discriminate.
Qed.

(** X6.  Every detail row of a reported inconsistency joins a legacy row
    and a spreadsheet row with its key, holds the quantity of each, and
    the two quantities are numbers that differ: a key that only one source
    has, or whose quantity is [null] or not numeric in one of them, is
    never reported. *)
Theorem identifyInconsistencies_sound (legacy spreadsheet : list DataRow)
    (issue : Inconsistency) (d : DataRow) :
  In issue (identifyInconsistencies legacy spreadsheet) ->
  In d (details issue) ->
  (type issue = "Inventory Quantity Discrepancy" /\
   backed "item_id" "inventory_qty" legacy spreadsheet d) \/
  (type issue = "Order Quantity Discrepancy" /\
   backed "order_id" "order_qty" legacy spreadsheet d).
Proof.
  intros Hi Hd.
  destruct (identifyInconsistencies_details _ _ _ Hi) as (_ & [[Ht E]|[Ht E]]);
    rewrite E in Hd; [left|right]; (split; [exact Ht|]).
  - destruct inventory_names as (N1 & N2 & N3).
    exact (joined_sound "item_id" "inventory_qty" "_legacy" "_spreadsheet"
             N1 N2 N3 legacy spreadsheet d Hd).
  - destruct order_names as (N1 & N2 & N3).
    exact (joined_sound "order_id" "order_qty" "_legacy" "_spreadsheet"
             N1 N2 N3 legacy spreadsheet d Hd).
Qed.

Lemma identifyInconsistencies_sound_witness :
  let d := [("item_id", VStr "A1"); ("inventory_qty_legacy", VNum (Fin 100));
            ("inventory_qty_spreadsheet", VNum (Fin 120))] in
  let issue := {| type := "Inventory Quantity Discrepancy"; details := [d] |} in
  (type issue = "Inventory Quantity Discrepancy" /\
   backed "item_id" "inventory_qty" [legacy_A1] [spreadsheet_A1] d) \/
  (type issue = "Order Quantity Discrepancy" /\
   backed "order_id" "order_qty" [legacy_A1] [spreadsheet_A1] d).
Proof.
  apply (identifyInconsistencies_sound [legacy_A1] [spreadsheet_A1]).
  - vm_compute. left. reflexivity.
  - left. reflexivity.
Defined.

(** X7.  Detection misses nothing it compares: when the last legacy row
    and the last spreadsheet row with a key hold quantities that are
    numbers and differ, an inconsistency of the type of that key is
    reported, with a detail row that holds the key and both quantities. *)
Theorem identifyInconsistencies_complete (legacy spreadsheet : list DataRow)
    (key col kind : string) (k : value) (a b : DataRow) :
  (key, col, kind) = ("item_id", "inventory_qty", "Inventory Quantity Discrepancy") \/
  (key, col, kind) = ("order_id", "order_qty", "Order Quantity Discrepancy") ->
  last_keyed key k legacy = Some a ->
  last_keyed key k spreadsheet = Some b ->
  differ (row_get col a) (row_get col b) ->
  exists (issue : Inconsistency) (d : DataRow),
    In issue (identifyInconsistencies legacy spreadsheet) /\
    type issue = kind /\
    In d (details issue) /\
    same_value_zero (row_get key d) k = true /\
    row_get (col +:+ "_legacy") d = row_get col a /\
    row_get (col +:+ "_spreadsheet") d = row_get col b.
Proof.
  intros Hkind Ea Eb Hdiff.
  destruct Hkind as [[= -> -> ->]|[= -> -> ->]].
  - destruct inventory_names as (N1 & N2 & N3).
    destruct (joined_complete "item_id" "inventory_qty" "_legacy" "_spreadsheet"
                N1 N2 N3 legacy spreadsheet k a b Ea Eb Hdiff)
      as (d & Hd & Hk & E1 & E2).
    unfold identifyInconsistencies.
    change ("inventory_qty" +:+ "_legacy") with "inventory_qty_legacy" in *.
    change ("inventory_qty" +:+ "_spreadsheet") with "inventory_qty_spreadsheet" in *.
    destruct (List.filter _ (outerJoin _ _ "item_id" _ _)) as [|d1 l1] eqn:E;
      [destruct Hd|].
    eexists. exists d. split.
    { destruct (List.filter _ (outerJoin _ _ "order_id" _ _));
        [left; reflexivity|apply in_or_app; left; left; reflexivity]. }
    cbn [type details]. auto.
  - destruct order_names as (N1 & N2 & N3).
    destruct (joined_complete "order_id" "order_qty" "_legacy" "_spreadsheet"
                N1 N2 N3 legacy spreadsheet k a b Ea Eb Hdiff)
      as (d & Hd & Hk & E1 & E2).
    unfold identifyInconsistencies.
    change ("order_qty" +:+ "_legacy") with "order_qty_legacy" in *.
    change ("order_qty" +:+ "_spreadsheet") with "order_qty_spreadsheet" in *.
    destruct (List.filter _ (outerJoin _ _ "order_id" _ _)) as [|d1 l1] eqn:E;
      [destruct Hd|].
    eexists. exists d. split.
    { apply in_or_app. right. left. reflexivity. }
    cbn [type details]. auto.
Qed.

Lemma identifyInconsistencies_complete_witness :
  exists (issue : Inconsistency) (d : DataRow),
    In issue (identifyInconsistencies [legacy_A1] [spreadsheet_A1]) /\
    type issue = "Inventory Quantity Discrepancy" /\
    In d (details issue) /\
    same_value_zero (row_get "item_id" d) (VStr "A1") = true /\
    row_get ("inventory_qty" +:+ "_legacy") d = row_get "inventory_qty" legacy_A1 /\
    row_get ("inventory_qty" +:+ "_spreadsheet") d
    = row_get "inventory_qty" spreadsheet_A1.
Proof.
  apply (identifyInconsistencies_complete [legacy_A1] [spreadsheet_A1]
           "item_id" "inventory_qty" "Inventory Quantity Discrepancy"
           (VStr "A1") legacy_A1 spreadsheet_A1).
  - left. reflexivity.
  - reflexivity.
  - reflexivity.
  - repeat split; try discriminate; vm_compute; reflexivity.
Defined.

(** X8.  A source compared with itself shows no inconsistency. *)
Theorem identifyInconsistencies_self (rows : list DataRow) :
  identifyInconsistencies rows rows = [].
Proof.
  unfold identifyInconsistencies.
  destruct inventory_names as (N1 & N2 & N3).
  pose proof (joined_self "item_id" "inventory_qty" "_legacy" "_spreadsheet"
                N1 N2 N3 rows) as E1.
  destruct order_names as (M1 & M2 & M3).
  pose proof (joined_self "order_id" "order_qty" "_legacy" "_spreadsheet"
                M1 M2 M3 rows) as E2.
  change ("inventory_qty" +:+ "_legacy") with "inventory_qty_legacy" in E1.
  change ("inventory_qty" +:+ "_spreadsheet") with "inventory_qty_spreadsheet" in E1.
  change ("order_qty" +:+ "_legacy") with "order_qty_legacy" in E2.
  change ("order_qty" +:+ "_spreadsheet") with "order_qty_spreadsheet" in E2.
  now rewrite E1, E2.
Qed.

(** ** The disruption figures *)

(** X9.  Only a supplier row whose shipment date is a string that reads
    as a time after the limit is in transit: a row without a shipment
    date, with one that is not a string or does not read as a date, or
    with one at or before the limit, is left out; so is every row when the
    limit itself is no valid time. *)
Theorem calculateDisruption_in_transit_only
    (Date_parse : string -> option Z) (LocalTZA : Z -> bool -> Z) (now : Z)
    (legacy spreadsheet supplier : list DataRow) (r : DataRow) :
  In r (inTransitOrders
          (calculateDisruption Date_parse LocalTZA now legacy spreadsheet supplier)) ->
  In r supplier /\
  exists (s : string) (limit t : Z),
    row_get "shipment_date" r = VStr s /\ s <> "" /\
    twoWeeksAgo LocalTZA now = Some limit /\
    Date_parse (replace_mdy s) = Some t /\
    limit < t.
Proof.
  cbn [calculateDisruption inTransitOrders]. intros H.
  apply filter_In in H as [Hin H]. split; [exact Hin|].
  unfold in_transit in H.
  destruct (row_get "shipment_date" r) as [| |n|s]; cbn in H; try discriminate.
  - destruct (negb _); discriminate.
  - destruct (String.eqb_spec s ""); [discriminate|]. cbn in H.
    destruct (Date_parse (replace_mdy s)) as [t|] eqn:Et; [|discriminate].
    destruct (twoWeeksAgo LocalTZA now) as [limit|] eqn:El; [|discriminate].
    exists s, limit, t. repeat split; auto. now apply Z.ltb_lt.
Qed.

Lemma calculateDisruption_in_transit_only_witness :
  In future_shipment [future_shipment] /\
  exists (s : string) (limit t : Z),
    row_get "shipment_date" future_shipment = VStr s /\ s <> "" /\
    twoWeeksAgo (fun _ _ => 0) 1704153600000 = Some limit /\
    ISO_date_parse (replace_mdy s) = Some t /\
    limit < t.
Proof.
  apply (calculateDisruption_in_transit_only ISO_date_parse (fun _ _ => 0)
           1704153600000 [] [] [future_shipment] future_shipment).
  vm_compute. left. reflexivity.
Defined.

(** X10.  In both figures the count of rows with a missing field is at
    most the total, the total is at most the number of legacy and
    spreadsheet rows, and there are at most as many shipments in transit
    as supplier rows. *)
Theorem calculateDisruption_counts
    (Date_parse : string -> option Z) (LocalTZA : Z -> bool -> Z) (now : Z)
    (legacy spreadsheet supplier : list DataRow) :
  let d := calculateDisruption Date_parse LocalTZA now legacy spreadsheet supplier in
  (count (missingInventoryData d) <= total (missingInventoryData d)
   <= length legacy + length spreadsheet)%nat /\
  (count (missingOrderData d) <= total (missingOrderData d)
   <= length legacy + length spreadsheet)%nat /\
  (length (inTransitOrders d) <= length supplier)%nat.
Proof.
  cbn. rewrite <- length_app. repeat split; apply filter_length_le.
Qed.

(** ** The sign of a rounded number *)

(** The quotient is not below 2 to its binary logarithm. *)
Lemma ilog2_lower (n d : Z) :
  0 < n -> 0 < d -> 0 <= ilog2 n d -> d * 2 ^ ilog2 n d <= n.
Proof.
  intros Hn Hd. unfold ilog2.
  set (k := Z.log2 n - Z.log2 d).
  pose proof (Z.log2_spec n Hn) as [Hn1 Hn2].
  pose proof (Z.log2_spec d Hd) as [Hd1 Hd2].
  pose proof (Z.log2_nonneg n). pose proof (Z.log2_nonneg d).
  destruct (0 <=? k) eqn:E0.
  - destruct (d * 2 ^ k <=? n) eqn:E1; [intros _; now apply Z.leb_le|].
    intros Hk.
    assert (E : Z.log2 n = (Z.log2 d + 1) + (k - 1)) by (unfold k; lia).
    rewrite E, Z.pow_add_r in Hn1 by lia.
    rewrite Z.pow_succ_r in Hd2 by lia.
    replace (Z.log2 d + 1) with (Z.succ (Z.log2 d)) in Hn1 by lia.
    rewrite Z.pow_succ_r in Hn1 by lia.
    assert (0 < 2 ^ (k - 1)) by (apply Z.pow_pos_nonneg; lia).
    nia.
  - apply Z.leb_gt in E0. destruct (d <=? n * 2 ^ (- k)); lia.
Qed.

Lemma rne_floor (n d : Z) : 0 < d -> n / d <= rne n d.
Proof.
  intros Hd. unfold rne.
  destruct (2 * (n mod d) ?= d); [destruct (Z.even (n / d))| |]; lia.
Qed.

Lemma pow2Q_pos (e : Z) : (0 < pow2Q e)%Q.
Proof.
  unfold pow2Q. destruct (Z.leb_spec 0 e); [|reflexivity].
  unfold Qlt, inject_Z. cbn [Qnum Qden].
  assert (0 < 2 ^ e) by now apply Z.pow_pos_nonneg. lia.
Qed.

(** Rounding a quotient that is at least 1 gives a number above zero. *)
Lemma round_pos_positive (n d : Z) :
  0 < d -> d <= n -> is_positive (round_pos n d) = true.
Proof.
  intros Hd Hn. unfold round_pos. cbv zeta.
  destruct (_ || _); [reflexivity|].
  cbn [is_positive]. apply Z.ltb_lt.
  assert (Hm : 0 < significand n d).
  { unfold significand. cbv zeta. set (e := ulp_exp n d).
    destruct (Z.leb_spec 0 e) as [He|He].
    - assert (Hl : 0 <= ilog2 n d) by (unfold e, ulp_exp in He; lia).
      pose proof (ilog2_lower n d ltac:(lia) Hd Hl) as Hlow.
      assert (Hp : 0 < 2 ^ e) by now apply Z.pow_pos_nonneg.
      assert (Hle : 2 ^ e <= 2 ^ ilog2 n d)
        by (apply Z.pow_le_mono_r; unfold e, ulp_exp in *; lia).
      pose proof (rne_floor n (d * 2 ^ e) ltac:(nia)) as Hf.
      assert (1 <= n / (d * 2 ^ e)); [|lia].
      apply Z.div_le_lower_bound; nia.
    - assert (Hp : 0 < 2 ^ (- e)) by (apply Z.pow_pos_nonneg; lia).
      pose proof (rne_floor (n * 2 ^ (- e)) d Hd) as Hf.
      assert (1 <= n * 2 ^ (- e) / d); [|lia].
      apply Z.div_le_lower_bound; nia. }
  set (q := (inject_Z (significand n d) * pow2Q (ulp_exp n d))%Q).
  assert (Hq : (0 < Qred q)%Q).
  { rewrite Qred_correct. unfold q.
    apply Qmult_lt_0_compat; [|apply pow2Q_pos].
    unfold Qlt, inject_Z. cbn. lia. }
  unfold Qlt in Hq. cbn in Hq. lia.
Qed.

Lemma round_pos_not_zero (n d : Z) :
  0 < d -> d <= n ->
  is_positive (num_neg (round_pos n d)) = false.
Proof.
  intros Hd Hn. pose proof (round_pos_positive n d Hd Hn) as H.
  destruct (round_pos n d) as [|[]| |q]; try discriminate; try reflexivity.
  cbn in H. apply Z.ltb_lt in H. cbn.
  destruct (Qeq_bool q 0); [reflexivity|]. cbn. apply Z.ltb_ge. lia.
Qed.

Lemma Qeq_bool_inject_Z (z : Z) : Qeq_bool (inject_Z z) 0 = (z =? 0).
Proof.
  unfold Qeq_bool, inject_Z. cbn. rewrite Z.mul_1_r.
  destruct z; reflexivity.
Qed.

(** The difference of two integers is above zero exactly when the first
    is the greater. *)
Lemma is_positive_difference (a b : Z) :
  is_positive (num_sub (Fin (inject_Z b)) (Fin (inject_Z a))) = (a <? b).
Proof.
  unfold num_sub. cbn [num_neg]. rewrite Qeq_bool_inject_Z.
  destruct (Z.eqb_spec a 0) as [->|Ha].
  - cbn [num_add is_zero]. rewrite Qeq_bool_inject_Z. cbn.
    destruct (Z.eqb_spec b 0) as [->|Hb]; reflexivity.
  - cbn [num_add is_zero to_Q]. rewrite Qeq_bool_inject_Z.
    destruct (Z.eqb_spec b 0) as [->|Hb].
    + cbn. destruct a; try contradiction; reflexivity.
    + assert (E : Qeq_bool (- inject_Z a) 0 = false).
      { unfold Qeq_bool, Qopp, inject_Z. cbn. rewrite Z.mul_1_r.
        apply Z.eqb_neq. lia. }
      rewrite E. cbn [orb].
      assert (Es : Qeq_bool (inject_Z b + - inject_Z a) 0 = (b - a =? 0)).
      { unfold Qeq_bool, Qplus, Qopp, inject_Z. cbn. rewrite !Z.mul_1_r.
        f_equal. }
      rewrite Es. destruct (Z.eqb_spec (b - a) 0) as [E0|E0].
      * cbn. symmetry. apply Z.ltb_ge. lia.
      * unfold round64, Qplus, Qopp, inject_Z. cbn [Qnum Qden].
        rewrite !Z.mul_1_r.
        change (Z.pos (1 * 1)) with 1.
        replace (b + - a) with (b - a) by lia.
        destruct (b - a) as [|p|p] eqn:Ep; [contradiction| |].
        -- rewrite round_pos_positive by lia. symmetry. apply Z.ltb_lt. lia.
        -- rewrite round_pos_not_zero by lia. symmetry. apply Z.ltb_ge. lia.
Qed.

(** ** Sorting by recency *)

Section Sorting.
Context {A : Type} (compareFn : A -> A -> number).

Lemma sort_insert_In (x y : A) (l : list A) :
  In y (sort_insert compareFn x l) <-> y = x \/ In y l.
Proof.
  induction l as [|z l IH]; cbn; [intuition|].
  destruct (is_positive _); cbn; rewrite ?IH; intuition.
Qed.

Lemma Array_sort_In (y : A) (l : list A) :
  In y (Array_sort compareFn l) <-> In y l.
Proof.
  induction l as [|x l IH]; [reflexivity|].
  change (Array_sort compareFn (x :: l))
    with (sort_insert compareFn x (Array_sort compareFn l)).
  rewrite sort_insert_In, IH. cbn. intuition.
Qed.

(** When the comparison is that of a measure, the sorted list descends. *)
Variable measure : A -> Z.

Lemma sort_insert_sorted (x : A) (l : list A) :
  (forall y, In y l ->
     is_positive (compareFn x y) = (measure x <? measure y)) ->
  StronglySorted (fun a b => measure b <= measure a) l ->
  StronglySorted (fun a b => measure b <= measure a) (sort_insert compareFn x l).
Proof.
  induction l as [|z l IH]; cbn [sort_insert]; intros Hc Hs.
  - constructor; constructor.
  - apply StronglySorted_inv in Hs as [Hs Hz].
    rewrite (Hc z) by now left.
    destruct (Z.ltb_spec (measure x) (measure z)) as [Hlt|Hge].
    + constructor.
      * apply IH; [|exact Hs]. intros y Hy. apply Hc. now right.
      * apply List.Forall_forall. intros y Hy. apply sort_insert_In in Hy as [->|Hy].
        -- lia.
        -- rewrite List.Forall_forall in Hz. now apply Hz.
    + constructor; [constructor; assumption|].
      constructor; [exact Hge|].
      eapply List.Forall_impl; [|exact Hz]. cbn. intros y Hy. lia.
Qed.

Lemma Array_sort_sorted (l : list A) :
  (forall x y, In x l -> In y l ->
     is_positive (compareFn x y) = (measure x <? measure y)) ->
  StronglySorted (fun a b => measure b <= measure a) (Array_sort compareFn l).
Proof.
  induction l as [|x l IH]; intros Hc; [constructor|].
  change (Array_sort compareFn (x :: l))
    with (sort_insert compareFn x (Array_sort compareFn l)).
  apply sort_insert_sorted.
  - intros y Hy. apply (proj1 (Array_sort_In _ _)) in Hy.
    apply Hc; [now left|now right].
  - apply IH. intros a b Ha Hb. apply Hc; now right.
Qed.

Lemma sorted_after (l1 l2 : list A) (x y : A) :
  StronglySorted (fun a b => measure b <= measure a) (l1 ++ x :: l2) ->
  In y l2 -> measure y <= measure x.
Proof.
  induction l1 as [|z l1 IH]; cbn; intros Hs Hy.
  - apply StronglySorted_inv in Hs as [_ Hx].
    rewrite List.Forall_forall in Hx. now apply Hx.
  - apply StronglySorted_inv in Hs as [Hs _]. now apply IH.
Qed.

End Sorting.

(** ** The first row of every key *)

Lemma map_get_congr {A} (k k' : value) (m : JSMap A) :
  same_value_zero k k' = true -> map_get k m = map_get k' m.
Proof.
  intros H. induction m as [|[k0 a0] m IH]; cbn; [reflexivity|].
  now rewrite (same_value_zero_congr _ _ _ H), IH.
Qed.

Lemma unique_by_get (key : string) (rows : list DataRow) (k : value) :
  map_get k (unique_by key rows)
  = List.find (fun r => same_value_zero (row_get key r) k) rows.
Proof.
  unfold unique_by.
  assert (Hgen : forall m,
    map_get k (fold_left (fun m row =>
        if negb (map_has (row_get key row) m) then map_set (row_get key row) row m
        else m) rows m)
    = match map_get k m with
      | Some e => Some e
      | None => List.find (fun r => same_value_zero (row_get key r) k) rows
      end).
  { induction rows as [|x rows IH]; cbn [fold_left List.find]; intros m.
    - now destruct (map_get k m).
    - rewrite IH. unfold map_has.
      destruct (same_value_zero (row_get key x) k) eqn:E.
      + rewrite <- (map_get_congr _ _ m E).
        destruct (map_get (row_get key x) m) eqn:Em; cbn [negb].
        * now rewrite <- (map_get_congr _ _ m E), Em.
        * now rewrite map_get_set, same_value_zero_sym, E.
      + destruct (map_get (row_get key x) m); cbn [negb]; [reflexivity|].
        now rewrite map_get_set, same_value_zero_sym, E. }
  apply Hgen.
Qed.

Lemma unique_by_distinct (key : string) (rows : list DataRow) :
  distinct (map fst (unique_by key rows)).
Proof.
  unfold unique_by.
  assert (Hgen : forall m, distinct (map fst m) ->
    distinct (map fst (fold_left (fun m row =>
        if negb (map_has (row_get key row) m) then map_set (row_get key row) row m
        else m) rows m))).
  { induction rows as [|x rows IH]; cbn [fold_left]; intros m Hm; [exact Hm|].
    apply IH. destruct (negb _); [now apply map_set_distinct|exact Hm]. }
  apply Hgen, distinct_nil.
Qed.

Lemma find_first {A} (p : A -> bool) (l : list A) (x : A) :
  List.find p l = Some x ->
  exists l1 l2, l = l1 ++ x :: l2 /\ p x = true /\ forall y, In y l1 -> p y = false.
Proof.
  induction l as [|z l IH]; cbn; [discriminate|].
  destruct (p z) eqn:E.
  - intros [= <-]. exists [], l. cbn. intuition.
  - intros H. destruct (IH H) as (l1 & l2 & -> & Hx & Hl1).
    exists (z :: l1), l2. cbn. split; [reflexivity|]. split; [exact Hx|].
    intros y [<-|Hy]; auto.
Qed.

(** A row that [unique_by] keeps is the first of the list with its key. *)
Lemma unique_by_first (key : string) (rows : list DataRow) (x : DataRow) :
  In x (map_values (unique_by key rows)) ->
  exists l1 l2,
    rows = l1 ++ x :: l2 /\
    forall y, In y l1 -> same_value_zero (row_get key y) (row_get key x) = false.
Proof.
  intros H. apply in_map_iff in H as ([k0 x0] & <- & Hin). cbn [snd].
  pose proof (map_get_In _ _ _ (unique_by_distinct key rows) Hin) as Hget.
  rewrite unique_by_get in Hget.
  destruct (find_first _ _ _ Hget) as (l1 & l2 & E & Hx & Hl1).
  exists l1, l2. split; [exact E|]. intros y Hy.
  rewrite (same_value_zero_sym _ (row_get key x0)).
  rewrite (same_value_zero_congr _ _ _ Hx), same_value_zero_sym. auto.
Qed.

(** Every key of the list is the key of a row that [unique_by] keeps. *)
Lemma unique_by_covers (key : string) (rows : list DataRow) (y : DataRow) :
  In y rows ->
  exists x, In x (map_values (unique_by key rows)) /\
    same_value_zero (row_get key y) (row_get key x) = true.
Proof.
  intros Hy.
  destruct (List.find (fun r => same_value_zero (row_get key r) (row_get key y)) rows)
    as [x|] eqn:E.
  - exists x. split.
    + apply (map_get_Some_In (row_get key y)). now rewrite unique_by_get.
    + apply find_some in E as [_ E]. now rewrite same_value_zero_sym.
  - apply find_none with (x := y) in E; [|exact Hy].
    now rewrite same_value_zero_refl in E.
Qed.

(** ** The consolidated lists *)

Lemma consolidateData_inventory (Date_parse : string -> option Z)
    (legacy spreadsheet supplier reverseLogistics : list DataRow) :
  inventory (consolidateData Date_parse legacy spreadsheet supplier reverseLogistics)
  = map_values (unique_by "item_id"
      (Array_sort (by_recency Date_parse) (combinedInv legacy spreadsheet supplier))).
Proof. reflexivity. Qed.

Lemma consolidateData_orders (Date_parse : string -> option Z)
    (legacy spreadsheet supplier reverseLogistics : list DataRow) :
  orders (consolidateData Date_parse legacy spreadsheet supplier reverseLogistics)
  = map_values (unique_by "order_id"
      (Array_sort (by_recency Date_parse) (combinedOrders legacy spreadsheet))).
Proof. reflexivity. Qed.

Lemma unique_sorted_In (Date_parse : string -> option Z) (key : string)
    (rows : list DataRow) (x : DataRow) :
  In x (map_values (unique_by key (Array_sort (by_recency Date_parse) rows))) ->
  In x rows.
Proof.
  intros H. apply unique_by_first in H as (l1 & l2 & E & _).
  apply (Array_sort_In (by_recency Date_parse)). rewrite E.
  apply in_or_app. right. now left.
Qed.

Lemma inventory_origin (Date_parse : string -> option Z)
    (legacy spreadsheet supplier reverseLogistics : list DataRow) (x : DataRow) :
  In x (inventory
          (consolidateData Date_parse legacy spreadsheet supplier reverseLogistics)) ->
  truthy (row_get "item_id" x) = true /\
  truthy (row_get "last_updated" x) = true /\
  ((exists r, In r legacy /\
      x = inventory_row "Legacy" "inventory_qty" "last_updated" r) \/
   (exists r, In r spreadsheet /\
      x = inventory_row "Spreadsheet" "inventory_qty" "last_updated" r) \/
   (exists r, In r supplier /\
      x = inventory_row "Supplier" "shipment_qty" "shipment_date" r)).
Proof.
  rewrite consolidateData_inventory. intros Hx.
  apply unique_sorted_In in Hx. unfold combinedInv in Hx.
  apply filter_In in Hx as [Hin Ht]. apply andb_true_iff in Ht as [H1 H2].
  split; [exact H1|]. split; [exact H2|].
  apply in_app_or in Hin as [Hin|Hin]; [|apply in_app_or in Hin as [Hin|Hin]];
    apply in_map_iff in Hin as (r & <- & Hr); eauto 6.
Qed.

Lemma orders_origin (Date_parse : string -> option Z)
    (legacy spreadsheet supplier reverseLogistics : list DataRow) (x : DataRow) :
  In x (orders
          (consolidateData Date_parse legacy spreadsheet supplier reverseLogistics)) ->
  truthy (row_get "order_id" x) = true /\
  truthy (row_get "last_updated" x) = true /\
  ((exists r, In r legacy /\ x = order_row "Legacy" r) \/
   (exists r, In r spreadsheet /\ x = order_row "Spreadsheet" r)).
Proof.
  rewrite consolidateData_orders. intros Hx.
  apply unique_sorted_In in Hx. unfold combinedOrders in Hx.
  apply filter_In in Hx as [Hin Ht]. apply andb_true_iff in Ht as [H1 H2].
  split; [exact H1|]. split; [exact H2|].
  apply in_app_or in Hin as [Hin|Hin];
    apply in_map_iff in Hin as (r & <- & Hr); eauto 6.
Qed.

(** X11.  Every consolidated inventory row is the inventory view of a
    legacy, spreadsheet or supplier row, labelled with that source, and
    has an [item_id] and a date; every consolidated order is the order
    view of a legacy or spreadsheet row, with an [order_id] and a date;
    the returns are the reverse-logistics rows, one for one and in order,
    labelled ReverseLogistics and otherwise unchanged. *)
Theorem consolidateData_provenance (Date_parse : string -> option Z)
    (legacy spreadsheet supplier reverseLogistics : list DataRow) :
  let c := consolidateData Date_parse legacy spreadsheet supplier reverseLogistics in
  (forall x, In x (inventory c) ->
     truthy (row_get "item_id" x) = true /\
     truthy (row_get "last_updated" x) = true /\
     ((exists r, In r legacy /\
         x = inventory_row "Legacy" "inventory_qty" "last_updated" r) \/
      (exists r, In r spreadsheet /\
         x = inventory_row "Spreadsheet" "inventory_qty" "last_updated" r) \/
      (exists r, In r supplier /\
         x = inventory_row "Supplier" "shipment_qty" "shipment_date" r))) /\
  (forall x, In x (orders c) ->
     truthy (row_get "order_id" x) = true /\
     truthy (row_get "last_updated" x) = true /\
     ((exists r, In r legacy /\ x = order_row "Legacy" r) \/
      (exists r, In r spreadsheet /\ x = order_row "Spreadsheet" r))) /\
  length (returns c) = length reverseLogistics /\
  (forall i r, reverseLogistics !! i = Some r ->
     exists x, returns c !! i = Some x /\
       row_get "_source" x = VStr "ReverseLogistics" /\
       forall k, k <> "_source" -> row_get k x = row_get k r).
Proof.
  intros c. split; [|split; [|split]].
  - intros x. apply inventory_origin.
  - intros x. apply orders_origin.
  - subst c. cbn [consolidateData returns]. apply length_map.
  - intros i r Hr. subst c. cbn [consolidateData returns].
    rewrite lookup_map, Hr. eexists. split; [reflexivity|].
    split; [apply row_get_set_eq|]. intros k Hk. now apply row_get_set_ne.
Qed.

(** X12.  Consolidation loses no key: every row that competes for the
    inventory (a source row with an [item_id] and a date) has its
    [item_id] on a consolidated inventory row, and every row that competes
    for the orders has its [order_id] on a consolidated order. *)
Theorem consolidateData_keeps_every_key (Date_parse : string -> option Z)
    (legacy spreadsheet supplier reverseLogistics : list DataRow) :
  let c := consolidateData Date_parse legacy spreadsheet supplier reverseLogistics in
  (forall y, In y (combinedInv legacy spreadsheet supplier) ->
     exists x, In x (inventory c) /\
       same_value_zero (row_get "item_id" y) (row_get "item_id" x) = true) /\
  (forall y, In y (combinedOrders legacy spreadsheet) ->
     exists x, In x (orders c) /\
       same_value_zero (row_get "order_id" y) (row_get "order_id" x) = true).
Proof.
  intros c. subst c. rewrite consolidateData_inventory, consolidateData_orders.
  split; intros y Hy; apply unique_by_covers, Array_sort_In, Hy.
Qed.

Lemma by_recency_positive (Date_parse : string -> option Z) (a b : DataRow) :
  Date_of Date_parse (row_get "last_updated" a) <> None ->
  Date_of Date_parse (row_get "last_updated" b) <> None ->
  is_positive (by_recency Date_parse a b)
  = (default 0 (Date_of Date_parse (row_get "last_updated" a))
     <? default 0 (Date_of Date_parse (row_get "last_updated" b))).
Proof.
  unfold by_recency, getTime.
  destruct (Date_of Date_parse (row_get "last_updated" a)) as [ta|]; [|congruence].
  destruct (Date_of Date_parse (row_get "last_updated" b)) as [tb|]; [|congruence].
  intros _ _. apply is_positive_difference.
Qed.

(** The row kept for a key is as recent as every row of the key. *)
Lemma unique_sorted_recent (Date_parse : string -> option Z) (key : string)
    (rows : list DataRow) (x y : DataRow) :
  dated Date_parse rows ->
  In x (map_values (unique_by key (Array_sort (by_recency Date_parse) rows))) ->
  In y rows ->
  same_value_zero (row_get key y) (row_get key x) = true ->
  as_recent Date_parse x y.
Proof.
  intros Hd Hx Hy Hk.
  set (time := fun r => default 0 (Date_of Date_parse (row_get "last_updated" r))).
  assert (Hs : StronglySorted (fun a b => time b <= time a)
                 (Array_sort (by_recency Date_parse) rows)).
  { apply Array_sort_sorted. intros a b Ha Hb.
    apply by_recency_positive; now apply Hd. }
  pose proof (unique_sorted_In _ _ _ _ Hx) as Hxin.
  apply unique_by_first in Hx as (l1 & l2 & E & Hl1).
  assert (Hle : time y <= time x).
  { apply (Array_sort_In (by_recency Date_parse)) in Hy. rewrite E in Hy, Hs.
    apply in_app_or in Hy as [Hy|[<-|Hy]].
    - rewrite (Hl1 y Hy) in Hk. discriminate.
    - lia.
    - exact (sorted_after time l1 l2 x y Hs Hy). }
  unfold as_recent. unfold time in Hle.
  pose proof (Hd x Hxin) as Dx. pose proof (Hd y Hy) as Dy.
  destruct (Date_of Date_parse (row_get "last_updated" x)) as [tx|]; [|congruence].
  destruct (Date_of Date_parse (row_get "last_updated" y)) as [ty|]; [|congruence].
  exists tx, ty. auto.
Qed.

(** X13.  Recency wins in the inventory: when the dates of the competing
    rows all read as times, the consolidated row of an [item_id] is at
    least as recent as every competing row with that [item_id]. *)
Theorem consolidateData_most_recent (Date_parse : string -> option Z)
    (legacy spreadsheet supplier reverseLogistics : list DataRow)
    (x y : DataRow) :
  dated Date_parse (combinedInv legacy spreadsheet supplier) ->
  In x (inventory
          (consolidateData Date_parse legacy spreadsheet supplier reverseLogistics)) ->
  In y (combinedInv legacy spreadsheet supplier) ->
  same_value_zero (row_get "item_id" y) (row_get "item_id" x) = true ->
  as_recent Date_parse x y.
Proof.
  rewrite consolidateData_inventory. apply unique_sorted_recent.
Qed.

Lemma consolidateData_most_recent_witness :
  as_recent ISO_date_parse
    (inventory_row "Spreadsheet" "inventory_qty" "last_updated" spreadsheet_A1)
    (inventory_row "Legacy" "inventory_qty" "last_updated" legacy_A1).
Proof.
  apply (consolidateData_most_recent ISO_date_parse
           [legacy_A1] [spreadsheet_A1] [] []).
  - intros r [<-|[<-|[]]]; vm_compute; discriminate.
  - vm_compute. left. reflexivity.
  - vm_compute. left. reflexivity.
  - reflexivity.
Defined.

(** X14.  Recency wins in the orders: when the dates of the competing
    rows all read as times, the consolidated row of an [order_id] is at
    least as recent as every competing row with that [order_id]. *)
Theorem consolidateData_most_recent_order (Date_parse : string -> option Z)
    (legacy spreadsheet supplier reverseLogistics : list DataRow)
    (x y : DataRow) :
  dated Date_parse (combinedOrders legacy spreadsheet) ->
  In x (orders
          (consolidateData Date_parse legacy spreadsheet supplier reverseLogistics)) ->
  In y (combinedOrders legacy spreadsheet) ->
  same_value_zero (row_get "order_id" y) (row_get "order_id" x) = true ->
  as_recent Date_parse x y.
Proof.
  rewrite consolidateData_orders. apply unique_sorted_recent.
Qed.

Lemma consolidateData_most_recent_order_witness :
  as_recent ISO_date_parse (order_row "Spreadsheet" spreadsheet_O1)
    (order_row "Legacy" legacy_O1).
Proof.
  apply (consolidateData_most_recent_order ISO_date_parse
           [legacy_O1] [spreadsheet_O1] [] []).
  - intros r [<-|[<-|[]]]; vm_compute; discriminate.
  - vm_compute. left. reflexivity.
  - vm_compute. left. reflexivity.
  - reflexivity.
Defined.

(** ** Corrections written to the sources *)

Lemma strict_eq_undef (v : value) : strict_eq v VUndef = true <-> v = VUndef.
Proof. destruct v; cbn; split; congruence. Qed.

Lemma apply_mappings_other (mappings : list (string * string))
    (correctedItem row : DataRow) (k : string) :
  ~ In k (map fst mappings) ->
  row_get k (apply_mappings mappings correctedItem row) = row_get k row.
Proof.
  unfold apply_mappings. revert row.
  induction mappings as [|[destKey srcKey] mappings IH]; cbn; intros row Hk;
    [reflexivity|].
  rewrite IH by tauto.
  destruct (negb _); [|reflexivity].
  apply row_get_set_ne. intros ->. tauto.
Qed.

Lemma apply_mappings_field (mappings : list (string * string))
    (correctedItem row : DataRow) (destKey srcKey : string) :
  List.NoDup (map fst mappings) ->
  In (destKey, srcKey) mappings ->
  row_get srcKey correctedItem <> VUndef ->
  row_get destKey (apply_mappings mappings correctedItem row)
  = row_get srcKey correctedItem.
Proof.
  unfold apply_mappings. revert row.
  induction mappings as [|[d s] mappings IH]; cbn; intros row Hnd Hin Hdef;
    [tauto|].
  apply NoDup_cons_iff in Hnd as [Hd Hnd].
  destruct Hin as [[= -> ->]|Hin].
  - match goal with
    | |- row_get _ (fold_left ?f ?l ?r) = _ =>
        change (fold_left f l r) with (apply_mappings l correctedItem r)
    end.
    rewrite apply_mappings_other by exact Hd.
    destruct (strict_eq (row_get srcKey correctedItem) VUndef) eqn:E.
    + apply strict_eq_undef in E. contradiction.
    + cbn. apply row_get_set_eq.
  - now apply IH.
Qed.

Lemma find_snoc {A} (p : A -> bool) (l : list A) (x : A) :
  List.find p (l ++ [x])
  = match List.find p l with
    | Some y => Some y
    | None => if p x then Some x else None
    end.
Proof.
  induction l as [|z l IH]; cbn; [reflexivity|].
  destruct (p z); [reflexivity|exact IH].
Qed.

(** The [Map] of the corrected rows holds, for a key, the last row that
    carries it. *)
Lemma consolidatedMap_get (data : list DataRow) (idField : string) (k : value) :
  map_get k (consolidatedMap data idField)
  = List.find (fun c => same_value_zero k (row_get idField c)) (rev data).
Proof.
  unfold consolidatedMap.
  assert (Hgen : forall m,
    map_get k (fold_left (fun m item => map_set (row_get idField item) item m) data m)
    = match List.find (fun c => same_value_zero k (row_get idField c)) (rev data) with
      | Some c => Some c
      | None => map_get k m
      end).
  { induction data as [|c data IH]; cbn [fold_left rev List.find]; intros m;
      [reflexivity|].
    rewrite IH, find_snoc, map_get_set.
    destruct (List.find _ (rev data)); [reflexivity|].
    destruct (same_value_zero _ _); reflexivity. }
  rewrite Hgen. now destruct (List.find _ (rev data)).
Qed.


Lemma merge_row (h h' : heap) (s u : SourceData) (f : AiFixedData) :
  mergeAiFixesIntoSources h s f = (h', u) ->
  exists h0,
    copy_sources h s = (h0, u) /\
    forall l row, l ∈ legacy u ++ spreadsheet u -> h0 !! l = Some row ->
      h' !! l = Some (merged_row f row).
Proof.
  unfold mergeAiFixesIntoSources.
  destruct (copy_sources h s) as [h0 u'] eqn:Ecopy. intros [= <- <-].
  exists h0. split; [reflexivity|].
  destruct (copy_sources_spec _ _ _ _ Ecopy) as (_ & _ & _ & _ & _ & _ & Hnd).
  apply NoDup_app in Hnd as (Na & Hab & Hnd).
  apply NoDup_app in Hnd as (Nb & _ & _).
  assert (Hab' : forall l, l ∈ legacy u' -> l ∉ spreadsheet u').
  { intros l Hl Hin. apply (Hab l Hl). apply elem_of_app. now left. }
  assert (Hba : forall l, l ∈ spreadsheet u' -> l ∉ legacy u').
  { intros l Hl Hin. exact (Hab' l Hin Hl). }
  intros l row Hin Hrow.
  assert (Hstep : forall (h1 : heap) data idField mappings row1,
            h1 !! l = Some row1 ->
            updateSource (updateSource h1 (legacy u') data idField mappings)
              (spreadsheet u') data idField mappings !! l
            = Some (corrected (consolidatedMap data idField) idField mappings row1)).
  { intros h1 data idField mappings row1 H1.
    apply elem_of_app in Hin as [Hin|Hin].
    - rewrite updateSource_frame by now apply Hab'.
      exact (updateSource_row _ _ _ _ _ _ row1 Na Hin H1).
    - apply (updateSource_row _ _ _ _ _ _ row1 Nb Hin).
      rewrite updateSource_frame by now apply Hba. exact H1. }
  unfold merged_row.
  destruct (consolidatedInventory f) as [inv|], (consolidatedOrders f) as [ord|];
    auto.
Qed.

(** The row of the result at the place of a row of a mandatory source. *)
Lemma merge_at (h h' : heap) (s u : SourceData) (f : AiFixedData)
    (source : SourceData -> list loc) (i : nat) (l : loc) :
  mergeAiFixesIntoSources h s f = (h', u) ->
  source = legacy \/ source = spreadsheet ->
  source s !! i = Some l ->
  exists l', source u !! i = Some l' /\
    deref h' l' = merged_row f (JSON_row (deref h l)).
Proof.
  intros Hmerge Hsource Hl.
  destruct (merge_row _ _ _ _ _ Hmerge) as (h0 & Hcopy & Hrows).
  destruct (copy_sources_spec _ _ _ _ Hcopy) as (_ & Fa & Fb & _).
  assert (HF : Forall2 (fun l r => h0 !! l = Some r) (source u)
                 (stringify_rows h (source s)))
    by (destruct Hsource as [->| ->]; assumption).
  apply Forall2_same_length_lookup in HF as [Hlen HF].
  assert (Hr : stringify_rows h (source s) !! i = Some (JSON_row (deref h l))).
  { unfold stringify_rows. now rewrite lookup_map, Hl. }
  destruct (lookup_lt_is_Some_2 (source u) i) as [l' Hl'].
  { rewrite Hlen. eapply lookup_lt_Some; eauto. }
  exists l'. split; [exact Hl'|].
  apply deref_lookup, Hrows; [|eauto].
  apply elem_of_app. apply list_elem_of_lookup_2 in Hl'.
  destruct Hsource as [->| ->]; auto.
Qed.

Lemma corrected_other (cmap : JSMap DataRow) (idField : string)
    (mappings : list (string * string)) (row : DataRow) (k : string) :
  ~ In k (map fst mappings) ->
  row_get k (corrected cmap idField mappings row) = row_get k row.
Proof.
  intros Hk. unfold corrected.
  destruct (map_get _ cmap); [now apply apply_mappings_other|reflexivity].
Qed.

Lemma merged_row_other (f : AiFixedData) (row : DataRow) (k : string) :
  ~ In k corrected_fields -> row_get k (merged_row f row) = row_get k row.
Proof.
  intros Hk. unfold merged_row.
  assert (H1 : ~ In k (map fst invMapping)) by (cbn in *; tauto).
  assert (H2 : ~ In k (map fst orderMapping)) by (cbn in *; tauto).
  destruct (consolidatedOrders f), (consolidatedInventory f);
    now rewrite ?corrected_other.
Qed.

Lemma merge_length (h h' : heap) (s u : SourceData) (f : AiFixedData)
    (source : SourceData -> list loc) :
  mergeAiFixesIntoSources h s f = (h', u) ->
  source = legacy \/ source = spreadsheet ->
  length (source u) = length (source s).
Proof.
  intros Hmerge Hsource.
  destruct (merge_row _ _ _ _ _ Hmerge) as (h0 & Hcopy & _).
  destruct (copy_sources_spec _ _ _ _ Hcopy) as (_ & Fa & Fb & _).
  assert (HF : Forall2 (fun l r => h0 !! l = Some r) (source u)
                 (stringify_rows h (source s)))
    by (destruct Hsource as [->| ->]; assumption).
  apply Forall2_length in HF. rewrite HF. unfold stringify_rows.
  apply length_map.
Qed.

(** X15.  Merging keeps the rows of the two mandatory sources in number
    and in order, and writes to no field of a row other than [item_name],
    [inventory_qty], [last_updated] and [order_qty]: every other field,
    [item_id] and [order_id] among them, holds what the copy of the
    original row holds. *)
Theorem mergeAiFixesIntoSources_other_fields (h h' : heap)
    (originalSources updated : SourceData) (aiFixedData : AiFixedData)
    (source : SourceData -> list loc) (i : nat) (l : loc) :
  mergeAiFixesIntoSources h originalSources aiFixedData = (h', updated) ->
  source = legacy \/ source = spreadsheet ->
  source originalSources !! i = Some l ->
  length (source updated) = length (source originalSources) /\
  exists l', source updated !! i = Some l' /\
    forall k, ~ In k corrected_fields ->
      row_get k (deref h' l') = row_get k (JSON_row (deref h l)).
Proof.
  intros Hmerge Hsource Hl. split; [now apply (merge_length h h' _ _ aiFixedData)|].
  destruct (merge_at _ _ _ _ _ _ _ _ Hmerge Hsource Hl) as (l' & Hl' & E).
  exists l'. split; [exact Hl'|]. intros k Hk. rewrite E.
  now apply merged_row_other.
Qed.

Lemma mergeAiFixesIntoSources_other_fields_witness :
  let m := mergeAiFixesIntoSources sample_heap sample_sources sample_fixes in
  length (legacy m.2) = length (legacy sample_sources) /\
  exists l', legacy m.2 !! 0%nat = Some l' /\
    forall k, ~ In k corrected_fields ->
      row_get k (deref m.1 l') = row_get k (JSON_row (deref sample_heap 1%positive)).
Proof.
  intros m.
  apply (mergeAiFixesIntoSources_other_fields sample_heap m.1 sample_sources m.2
           sample_fixes legacy 0%nat 1%positive (surjective_pairing m)).
  - now left.
  - reflexivity.
Defined.

Lemma corrected_field (data : list DataRow) (idField : string)
    (mappings : list (string * string)) (row c : DataRow) (field : string) :
  List.NoDup (map fst mappings) ->
  In (field, field) mappings ->
  last_corrected idField data row = Some c ->
  row_get field c <> VUndef ->
  row_get field (corrected (consolidatedMap data idField) idField mappings row)
  = row_get field c.
Proof.
  intros Hnd Hin Hc Hdef. unfold corrected.
  rewrite consolidatedMap_get. unfold last_corrected in Hc. rewrite Hc.
  now apply apply_mappings_field.
Qed.

(** X16.  Merging writes the corrections: a row of a mandatory source
    takes [item_name] and [inventory_qty] from the last corrected
    inventory row with its [item_id], and [order_qty] and [last_updated]
    from the last corrected order with its [order_id], wherever the
    corrected row defines the field. *)
Theorem mergeAiFixesIntoSources_applies (h h' : heap)
    (originalSources updated : SourceData) (aiFixedData : AiFixedData)
    (source : SourceData -> list loc) (i : nat) (l : loc)
    (data : list DataRow) (idField field : string) (c : DataRow) :
  mergeAiFixesIntoSources h originalSources aiFixedData = (h', updated) ->
  source = legacy \/ source = spreadsheet ->
  source originalSources !! i = Some l ->
  (consolidatedInventory aiFixedData = Some data /\ idField = "item_id" /\
   (field = "item_name" \/ field = "inventory_qty")) \/
  (consolidatedOrders aiFixedData = Some data /\ idField = "order_id" /\
   (field = "order_qty" \/ field = "last_updated")) ->
  last_corrected idField data (JSON_row (deref h l)) = Some c ->
  row_get field c <> VUndef ->
  exists l', source updated !! i = Some l' /\
    row_get field (deref h' l') = row_get field c.
Proof.
  intros Hmerge Hsource Hl Hkind Hc Hdef.
  destruct (merge_at _ _ _ _ _ _ _ _ Hmerge Hsource Hl) as (l' & Hl' & E).
  exists l'. split; [exact Hl'|]. rewrite E. unfold merged_row.
  assert (Ni : List.NoDup (map fst invMapping))
    by (repeat constructor; cbn; intuition discriminate).
  assert (No : List.NoDup (map fst orderMapping))
    by (repeat constructor; cbn; intuition discriminate).
  destruct Hkind as [(Ei & -> & Hf)|(Eo & -> & Hf)].
  - rewrite Ei.
    assert (Hnot : ~ In field (map fst orderMapping))
      by (destruct Hf as [-> | ->]; cbn; intuition discriminate).
    assert (Hin : In (field, field) invMapping)
      by (destruct Hf as [-> | ->]; cbn; auto).
    destruct (consolidatedOrders aiFixedData);
      rewrite ?corrected_other by exact Hnot;
      now apply corrected_field.
  - rewrite Eo.
    assert (Hin : In (field, field) orderMapping)
      by (destruct Hf as [-> | ->]; cbn; auto).
    apply corrected_field; try assumption.
    unfold last_corrected in *.
    assert (Ek : row_get "order_id"
                   match consolidatedInventory aiFixedData with
                   | Some inv =>
                       corrected (consolidatedMap inv "item_id") "item_id"
                         invMapping (JSON_row (deref h l))
                   | None => JSON_row (deref h l)
                   end
                 = row_get "order_id" (JSON_row (deref h l))).
    { destruct (consolidatedInventory aiFixedData); [|reflexivity].
      apply corrected_other. cbn. intuition discriminate. }
    now rewrite Ek.
Qed.

Lemma mergeAiFixesIntoSources_applies_witness :
  let m := mergeAiFixesIntoSources sample_heap sample_sources sample_fixes in
  exists l', legacy m.2 !! 0%nat = Some l' /\
    row_get "inventory_qty" (deref m.1 l') = VNum (Fin 120).
Proof.
  intros m.
  apply (mergeAiFixesIntoSources_applies sample_heap m.1 sample_sources m.2
           sample_fixes legacy 0%nat 1%positive
           [ [("item_id", VStr "A1"); ("inventory_qty", VNum (Fin 120));
              ("last_updated", VStr "2024-01-02")] ]
           "item_id" "inventory_qty"
           [("item_id", VStr "A1"); ("inventory_qty", VNum (Fin 120));
            ("last_updated", VStr "2024-01-02")]
           (surjective_pairing m)).
  - now left.
  - reflexivity.
  - left. repeat split; auto.
  - reflexivity.
  - discriminate.
Defined.

(** ** The orchestration *)

(** A handler that throws one error leaves no other error. *)
Lemma try_catch_replaced {A} (body : result A) (message e : string) :
  try_catch body (fun _ => Throw message) = Throw e -> e = message.
Proof. destruct body; cbn; [discriminate|]. now intros [= <-]. Qed.

Section Processing.
Variable Date_parse : string -> option Z.
Variable LocalTZA : Z -> bool -> Z.

Lemma read_optional_Return (file : option File) (text : string) :
  read_optional file = Return text <->
  (file = None /\ text = "") \/ file = Some (Readable text).
Proof.
  destruct file as [[t|]|]; cbn; split.
  - intros [= ->]. now right.
  - intros [[H _]|[= ->]]; [discriminate|reflexivity].
  - discriminate.
  - intros [[H _]|H]; discriminate.
  - intros [= <-]. now left.
  - intros [[_ ->]|H]; [reflexivity|discriminate].
Qed.

Lemma processFiles_Return (now : Z) (files : Files.FileState)
    (p : Processed.ProcessedData) :
  processFiles Date_parse LocalTZA now files = Return p <->
  exists legacyRaw spreadsheetRaw supplierRaw reverseLogisticsRaw historicalBackupRaw,
    Files.legacy files = Some (Readable legacyRaw) /\
    Files.spreadsheet files = Some (Readable spreadsheetRaw) /\
    Files.supplier files = Some (Readable supplierRaw) /\
    read_optional (Files.reverseLogistics files) = Return reverseLogisticsRaw /\
    read_optional (Files.historicalBackup files) = Return historicalBackupRaw /\
    p = processed Date_parse LocalTZA now legacyRaw spreadsheetRaw supplierRaw
          reverseLogisticsRaw historicalBackupRaw.
Proof.
  unfold processFiles. destruct files as [l s u r b]. cbn [Files.legacy
    Files.spreadsheet Files.supplier Files.reverseLogistics Files.historicalBackup].
  split.
  - destruct l as [[tl|]|], s as [[ts|]|], u as [[tu|]|]; cbn; try discriminate.
    destruct (read_optional r) as [tr|] eqn:Er; cbn; [|discriminate].
    destruct (read_optional b) as [tb|] eqn:Eb; cbn; [|discriminate].
    intros [= <-]. exists tl, ts, tu, tr, tb. repeat split; reflexivity.
  - intros (tl & ts & tu & tr & tb & -> & -> & -> & Er & Eb & ->).
    cbn. rewrite Er, Eb. reflexivity.
Qed.

Lemma processFiles_Throw (now : Z) (files : Files.FileState) (e : string) :
  processFiles Date_parse LocalTZA now files = Throw e -> e = MSG_PROCESS_FAILED.
Proof. unfold processFiles. apply try_catch_replaced. Qed.

End Processing.

(** X17.  [processFiles] returns when the three mandatory files are
    there and every file that is there loads; otherwise it throws the one
    error of its handler: a missing mandatory file is reported as a file
    that could not be read or processed, not as a missing file. *)
Theorem processFiles_outcome (Date_parse : string -> option Z)
    (LocalTZA : Z -> bool -> Z) (now : Z) (files : Files.FileState) :
  (usable files /\
   exists p, processFiles Date_parse LocalTZA now files = Return p) \/
  (~ usable files /\
   processFiles Date_parse LocalTZA now files = Throw MSG_PROCESS_FAILED).
Proof.
  destruct (processFiles Date_parse LocalTZA now files) as [p|e] eqn:E.
  - left. split; [|eauto].
    apply processFiles_Return in E
      as (tl & ts & tu & tr & tb & El & Es & Eu & Er & Eb & _).
    unfold usable, absent_or_loads, loads. rewrite El, Es, Eu.
    apply read_optional_Return in Er, Eb.
    repeat split; eauto; [destruct Er as [[-> _]| ->]|destruct Eb as [[-> _]| ->]];
      eauto.
  - right. split; [|f_equal; exact (processFiles_Throw _ _ _ _ _ E)].
    intros ((tl & El) & (ts & Es) & (tu & Eu) & Hr & Hb).
    assert (Er : exists tr, read_optional (Files.reverseLogistics files) = Return tr).
    { destruct Hr as [->|[tr ->]]; cbn; eauto. }
    assert (Eb : exists tb, read_optional (Files.historicalBackup files) = Return tb).
    { destruct Hb as [->|[tb ->]]; cbn; eauto. }
    destruct Er as [tr Er], Eb as [tb Eb].
    assert (H : processFiles Date_parse LocalTZA now files
                = Return (processed Date_parse LocalTZA now tl ts tu tr tb)).
    { apply processFiles_Return. exists tl, ts, tu, tr, tb. auto 10. }
    congruence.
Qed.

(** X18.  No quantity of a result of [processFiles] is text: in every
    row of the five cleaned sources, every column whose name contains qty
    holds [null] or a number other than NaN, and so does the quantity of
    every consolidated inventory row and of every consolidated order,
    unless the file it comes from has no such column. *)
Theorem processFiles_quantities (Date_parse : string -> option Z)
    (LocalTZA : Z -> bool -> Z) (now : Z) (files : Files.FileState)
    (p : Processed.ProcessedData) :
  processFiles Date_parse LocalTZA now files = Return p ->
  (forall row k, In row (source_rows p) -> In k (Object_keys row) ->
     is_qty_column k = true -> number_or_null (row_get k row)) /\
  (forall x, In x (Processed.consolidatedInventory p) ->
     no_text_quantity (row_get "inventory_qty" x)) /\
  (forall x, In x (Processed.consolidatedOrders p) ->
     no_text_quantity (row_get "order_qty" x)).
Proof.
  intros E.
  apply processFiles_Return in E as (tl & ts & tu & tr & tb & _ & _ & _ & _ & _ & ->).
  assert (Hq : forall text name (r : DataRow) k,
            In r (cleanData (parseCSV text) name) -> is_qty_column k = true ->
            no_text_quantity (row_get k r)).
  { intros text name r k Hr Hk. unfold no_text_quantity.
    destruct (row_get k r) eqn:Ek; [now left| | |]; right; rewrite <- Ek;
      (apply (cleaned_parsed_quantity text name); [exact Hr| |exact Hk]);
      apply row_get_In; rewrite Ek; discriminate. }
  split; [|split].
  - intros row k Hrow Hk Hqty. unfold source_rows, processed in Hrow.
    cbn [Processed.sourceData Processed.legacy Processed.spreadsheet
         Processed.supplier Processed.reverseLogistics Processed.historicalBackup]
      in Hrow.
    repeat (apply in_app_or in Hrow as [Hrow|Hrow]);
      eapply cleaned_parsed_quantity; eauto.
  - intros x Hx. unfold processed in Hx. cbn [Processed.consolidatedInventory] in Hx.
    apply inventory_origin in Hx as (_ & _ & [(r & Hr & ->)|[(r & Hr & ->)|(r & Hr & ->)]]);
      cbn [inventory_row row_get String.eqb Ascii.eqb Bool.eqb];
      eapply Hq; eauto.
  - intros x Hx. unfold processed in Hx. cbn [Processed.consolidatedOrders] in Hx.
    apply orders_origin in Hx as (_ & _ & [(r & Hr & ->)|(r & Hr & ->)]);
      cbn [order_row row_get String.eqb Ascii.eqb Bool.eqb];
      eapply Hq; eauto.
Qed.

Lemma processFiles_quantities_witness :
  let p :=
    processed ISO_date_parse (fun _ _ => 0) 1704153600000
      ("item_id,inventory_qty,last_updated" +:+ String LF "a1,100,2024-01-01")
      ("item_id,inventory_qty,last_updated" +:+ String LF "A1,120,2024-01-02")
      ("item_id,shipment_qty,shipment_date" +:+ String LF "A1,many,2024-01-02")
      "" "" in
  (forall row k, In row (source_rows p) -> In k (Object_keys row) ->
     is_qty_column k = true -> number_or_null (row_get k row)) /\
  (forall x, In x (Processed.consolidatedInventory p) ->
     no_text_quantity (row_get "inventory_qty" x)) /\
  (forall x, In x (Processed.consolidatedOrders p) ->
     no_text_quantity (row_get "order_qty" x)).
Proof.
  apply (processFiles_quantities ISO_date_parse (fun _ _ => 0) 1704153600000
           sample_files).
  reflexivity.
Defined.

(** X19.  Without the returns file a result has no return and no
    reverse-logistics row, and without the historical backup no row of
    it; the report is the initial one and the disruption analysis is
    there. *)
Theorem processFiles_optional_sources (Date_parse : string -> option Z)
    (LocalTZA : Z -> bool -> Z) (now : Z) (files : Files.FileState)
    (p : Processed.ProcessedData) :
  processFiles Date_parse LocalTZA now files = Return p ->
  (Files.reverseLogistics files = None ->
   Processed.consolidatedReturns p = [] /\
   Processed.reverseLogistics (Processed.sourceData p) = []) /\
  (Files.historicalBackup files = None ->
   Processed.historicalBackup (Processed.sourceData p) = []) /\
  Processed.report p = ReportText INITIAL_REPORT /\
  Processed.disruptionAnalysis p <> None.
Proof.
  intros E.
  apply processFiles_Return in E as (tl & ts & tu & tr & tb & _ & _ & _ & Er & Eb & ->).
  split; [|split; [|split]].
  - intros H. rewrite H in Er. injection Er as <-. split; reflexivity.
  - intros H. rewrite H in Eb. injection Eb as <-. reflexivity.
  - reflexivity.
  - discriminate.
Qed.

Lemma processFiles_optional_sources_witness :
  let p :=
    processed ISO_date_parse (fun _ _ => 0) 1704153600000
      ("item_id,inventory_qty,last_updated" +:+ String LF "a1,100,2024-01-01")
      ("item_id,inventory_qty,last_updated" +:+ String LF "A1,120,2024-01-02")
      ("item_id,shipment_qty,shipment_date" +:+ String LF "A1,many,2024-01-02")
      "" "" in
  (Files.reverseLogistics sample_files = None ->
   Processed.consolidatedReturns p = [] /\
   Processed.reverseLogistics (Processed.sourceData p) = []) /\
  (Files.historicalBackup sample_files = None ->
   Processed.historicalBackup (Processed.sourceData p) = []) /\
  Processed.report p = ReportText INITIAL_REPORT /\
  Processed.disruptionAnalysis p <> None.
Proof.
  apply (processFiles_optional_sources ISO_date_parse (fun _ _ => 0) 1704153600000
           sample_files).
  reflexivity.
Defined.

(** ** Cleaning steps *)

(** X20.  There is always a cleaning step: one for each inconsistency,
    and, only when there is no inconsistency, the one sentence that says
    so. *)
Theorem proposeCleaningSteps_steps (inconsistencies : list Inconsistency) :
  length (proposeCleaningSteps inconsistencies)
  = Nat.max 1 (length inconsistencies) /\
  (proposeCleaningSteps inconsistencies = [NO_INCONSISTENCIES]
   <-> inconsistencies = []).
Proof.
  destruct inconsistencies as [|issue rest]; [split; [reflexivity|tauto]|].
  split.
  - unfold proposeCleaningSteps. rewrite length_map. cbn. lia.
  - split; [|discriminate]. unfold proposeCleaningSteps. cbn [map].
    intros H. injection H as H _. exfalso.
    change ("Resolve " +:+ type issue
            +:+ ": Use most recent data or manual verification for "
            +:+ Number_toString (num_of_nat (length (details issue)))
            +:+ " records.")
      with (String "R" ("esolve " +:+ type issue
            +:+ ": Use most recent data or manual verification for "
            +:+ Number_toString (num_of_nat (length (details issue)))
            +:+ " records.")) in H.
    discriminate H.
Qed.

(** ** The text of a response *)

Lemma rev_string_app (a b : string) :
  rev_string (a +:+ b) = rev_string b +:+ rev_string a.
Proof.
  induction a as [|c a IH].
  - rewrite append_nil_l. cbn. induction (rev_string b) as [|x r IHr];
      [reflexivity|]. now rewrite append_cons, <- IHr.
  - rewrite append_cons. cbn [rev_string]. now rewrite IH, append_assoc.
Qed.

Lemma startsWith_app (p s : string) : startsWith p (p +:+ s) = true.
Proof.
  induction p as [|c p IH]; [reflexivity|].
  rewrite append_cons. cbn. now rewrite Ascii.eqb_refl, IH.
Qed.

Lemma endsWith_app (p s : string) : endsWith p (s +:+ p) = true.
Proof. unfold endsWith. rewrite rev_string_app. apply startsWith_app. Qed.

Lemma length_append (a b : string) :
  String.length (a +:+ b) = (String.length a + String.length b)%nat.
Proof.
  induction a as [|c a IH]; [now rewrite append_nil_l|].
  rewrite append_cons. cbn. now rewrite IH.
Qed.

Lemma take_string_app (a b : string) : take_string (String.length a) (a +:+ b) = a.
Proof.
  induction a as [|c a IH]; [reflexivity|].
  rewrite append_cons. cbn. now rewrite IH.
Qed.

Lemma span_run (p : ascii -> bool) (a : string) (c : ascii) (rest : string) :
  all_chars p a = true -> p c = false ->
  span p (a +:+ String c rest) = (a, String c rest).
Proof.
  intros Ha Hc. induction a as [|x a IH].
  - rewrite append_nil_l. cbn. now rewrite Hc.
  - cbn [all_chars] in Ha. apply andb_true_iff in Ha as [Hx Ha].
    rewrite append_cons. cbn [span]. now rewrite Hx, (IH Ha).
Qed.

Lemma trimStart_app (a b : string) :
  trimStart a <> "" -> trimStart (a +:+ b) = trimStart a +:+ b.
Proof.
  induction a as [|c a IH]; cbn; [congruence|]. intros H.
  rewrite append_cons. cbn [trimStart].
  destruct (is_ws c); [now apply IH|now rewrite append_cons].
Qed.

Lemma trimEnd_line_feed (a : string) : trimEnd (a +:+ String LF "") = trimEnd a.
Proof.
  induction a as [|c a IH]; [reflexivity|].
  rewrite append_cons, !trimEnd_cons, IH. reflexivity.
Qed.

(** X21.  A response wrapped in a code fence is read as its body: for a
    fence with a language tag of word characters and a body that is not
    blank, between line feeds, the text that is parsed is the body without
    the white space at its ends. *)
Theorem unfenced_fence (tag body : string) :
  all_chars is_word tag = true ->
  trim body <> "" ->
  unfenced ("```" +:+ tag +:+ String LF body +:+ String LF "```") = trim body.
Proof.
  intros Htag Hbody.
  assert (Hts : trimStart body <> "").
  { intros E. apply Hbody. unfold trim. now rewrite E. }
  set (text := "```" +:+ tag +:+ String LF body +:+ String LF "```").
  assert (Etext : text = ("```" +:+ tag +:+ String LF body +:+ String LF "") +:+ "```").
  { unfold text. repeat (rewrite append_assoc || rewrite append_cons || rewrite append_nil_l);
    reflexivity. }
  assert (Etrim : trim text = text).
  { apply trim_of_ends; [reflexivity|]. rewrite Etext.
    apply trimEnd_app; [discriminate|reflexivity]. }
  unfold unfenced. rewrite Etrim. unfold fence_body.
  assert (Es : startsWith "```" text = true) by apply startsWith_app.
  rewrite Es.
  assert (Ed : drop_string 3 text = tag +:+ String LF (body +:+ String LF "```")).
  { unfold text. repeat (rewrite append_assoc || rewrite append_cons || rewrite append_nil_l);
    reflexivity. }
  rewrite Ed, span_run by (exact Htag || reflexivity).
  assert (Er : trimStart (String LF (body +:+ String LF "```"))
               = (trimStart body +:+ String LF "") +:+ "```").
  { change (trimStart (String LF (body +:+ String LF "```")))
      with (trimStart (body +:+ String LF "```")).
    rewrite trimStart_app by exact Hts. repeat (rewrite append_assoc || rewrite append_cons || rewrite append_nil_l);
    reflexivity. }
  rewrite Er, endsWith_app, length_append.
  replace (String.length (trimStart body +:+ String LF "") + String.length "```" - 3)%nat
    with (String.length (trimStart body +:+ String LF "")) by (cbn; lia).
  rewrite take_string_app, trimEnd_line_feed.
  fold (trim body).
  destruct (String.eqb_spec (trim body) ""); [contradiction|].
  apply trim_idem.
Qed.

Lemma unfenced_fence_witness :
  unfenced ("```" +:+ "json" +:+ String LF "{}" +:+ String LF "```") = trim "{}".
Proof.
  apply (unfenced_fence "json" "{}").
  - reflexivity.
  - discriminate.
Defined.

(** ** The parsed response *)

Lemma json_get_set_eq (k : string) (v : json) (fields : list (string * json)) :
  json_get k (json_set k v fields) = Some v.
Proof.
  induction fields as [|[k' v'] fields IH]; cbn.
  - now rewrite String.eqb_refl.
  - destruct (String.eqb k k') eqn:E; cbn; [now rewrite String.eqb_refl|].
    now rewrite E.
Qed.

Lemma json_get_set_ne (k k' : string) (v : json) (fields : list (string * json)) :
  k <> k' -> json_get k' (json_set k v fields) = json_get k' fields.
Proof.
  intros Hne. induction fields as [|[k0 v0] fields IH]; cbn.
  - destruct (String.eqb_spec k' k); [congruence|reflexivity].
  - destruct (String.eqb_spec k k0) as [->|]; cbn.
    + destruct (String.eqb_spec k' k0); [congruence|reflexivity].
    + now rewrite IH.
Qed.

(** X22.  A report that the response gives as a string comes back as a
    report object whose applied fixes are that one string and whose two
    other lists are empty; the other properties of the response are
    untouched. *)
Theorem getAiFixSuggestions_string_report
    (generateContent : string -> result string)
    (JSON_parse : string -> result json)
    (prompt text report : string) (fields : list (string * json)) :
  generateContent prompt = Return text ->
  JSON_parse (unfenced text) = Return (JObject fields) ->
  json_get "report" fields = Some (JString report) ->
  exists fields',
    getAiFixSuggestions generateContent JSON_parse prompt = Return (JObject fields') /\
    json_get "report" fields' = Some (report_of_string report) /\
    forall k, k <> "report" -> json_get k fields' = json_get k fields.
Proof.
  intros Hg Hp Hr. unfold getAiFixSuggestions, read_response.
  rewrite Hg. cbn. rewrite Hp. cbn. rewrite Hr. cbn.
  eexists. split; [reflexivity|]. split.
  - apply json_get_set_eq.
  - intros k Hk. apply json_get_set_ne. congruence.
Qed.

Lemma getAiFixSuggestions_string_report_witness :
  exists fields',
    getAiFixSuggestions (fun _ => Return "{}")
      (fun _ => Return (JObject [("report", JString "Fixed 2 rows.")])) "prompt"
    = Return (JObject fields') /\
    json_get "report" fields' = Some (report_of_string "Fixed 2 rows.") /\
    forall k, k <> "report" ->
      json_get k fields' = json_get k [("report", JString "Fixed 2 rows.")].
Proof.
  apply (getAiFixSuggestions_string_report (fun _ => Return "{}")
           (fun _ => Return (JObject [("report", JString "Fixed 2 rows.")]))
           "prompt" "{}" "Fixed 2 rows.").
  - reflexivity.
  - reflexivity.
  - reflexivity.
Defined.

(** X23.  What [getAiFixSuggestions] makes of every response: a value
    other than [null] that the text parses to is returned, as it is unless
    its report is a string; a call that fails, a text that does not parse
    and a text that parses to [null] all end in the service-failed
    error. *)
Theorem getAiFixSuggestions_outcome
    (generateContent : string -> result string)
    (JSON_parse : string -> result json) (prompt : string) :
  match getAiFixSuggestions generateContent JSON_parse prompt with
  | Return data =>
      exists text parsed,
        generateContent prompt = Return text /\
        JSON_parse (unfenced text) = Return parsed /\
        parsed <> JNull /\
        (data = parsed \/ string_report parsed)
  | Throw message =>
      message = MSG_SERVICE_FAILED /\
      ((exists e, generateContent prompt = Throw e) \/
       (exists text, generateContent prompt = Return text /\
          ((exists e, JSON_parse (unfenced text) = Throw e) \/
           JSON_parse (unfenced text) = Return JNull)))
  end.
Proof.
  unfold getAiFixSuggestions, read_response.
  destruct (generateContent prompt) as [text|e]; cbn; [|eauto].
  destruct (JSON_parse (unfenced text)) as [parsed|e] eqn:Ep; cbn; [|eauto 7].
  destruct parsed as [|b|n|s|items|fields]; cbn;
    try (exists text; eexists; split; [reflexivity|]; split; [exact Ep|];
         split; [discriminate|now left]).
  - split; [reflexivity|]. right. eauto.
  - destruct (json_get "report" fields) as [[|b|n|s|items|fs]|] eqn:Er; cbn;
      exists text; eexists; (split; [reflexivity|]); (split; [exact Ep|]);
      (split; [discriminate|]); try (now left).
    right. exists fields, s. auto.
Qed.

(** ** Manual overrides *)

Lemma override_of_update (itemId : string) (field : App.Field) (value : number)
    (prev : App.ManualOverrides) (key : string) :
  App.override_of (App.handleManualUpdate itemId field value prev) key
  = if String.eqb key itemId
    then Some (App.set_field field value
                 (default App.no_override (App.override_of prev itemId)))
    else App.override_of prev key.
Proof.
  unfold App.handleManualUpdate. unfold App.override_of at 1.
  destruct (String.eqb_spec key itemId) as [->|Hne].
  - now rewrite lookup_insert_eq.
  - now rewrite lookup_insert_ne by congruence.
Qed.

(** X24.  A quantity entered by hand shows: once [handleManualUpdate]
    has recorded a value for the [inventory_qty] of an item, the row of
    that item holds the value, whatever number it is, and its source is
    Manual; a reorder level entered by hand shows as well, and leaves the
    quantity and the source as they were shown before. *)
Theorem manual_update_shows (prev : App.ManualOverrides) (item : DataRow)
    (value : number) :
  let itemId := ToString (row_get "item_id" item) in
  let shown field :=
    App.with_override (App.handleManualUpdate itemId field value prev) item in
  (row_get "inventory_qty" (shown App.Inventory_qty) = VNum value /\
   row_get "_source" (shown App.Inventory_qty) = VStr "Manual") /\
  (row_get "reorder_level" (shown App.Reorder_level) = VNum value /\
   row_get "inventory_qty" (shown App.Reorder_level)
   = row_get "inventory_qty" (App.with_override prev item) /\
   row_get "_source" (shown App.Reorder_level)
   = row_get "_source" (App.with_override prev item)).
Proof.
  intros itemId shown. subst shown. cbv beta. unfold App.with_override.
  rewrite !override_of_update. fold itemId. rewrite !String.eqb_refl.
  cbn [App.set_field App.inventory_qty App.reorder_level App.nullish].
  split; [split|split; [|split]].
  - rewrite !row_get_set_ne by discriminate. apply row_get_set_eq.
  - apply row_get_set_eq.
  - rewrite row_get_set_ne by discriminate. apply row_get_set_eq.
  - destruct (App.override_of prev itemId) as [o|]; cbn [default];
      repeat (rewrite row_get_set_eq || rewrite row_get_set_ne by discriminate);
      reflexivity.
  - destruct (App.override_of prev itemId) as [o|]; cbn [default];
      rewrite ?row_get_set_eq; reflexivity.
Qed.

(** X25.  A value entered for one item changes the row of no item with
    another [item_id]. *)
Theorem manual_update_elsewhere (prev : App.ManualOverrides) (itemId : string)
    (field : App.Field) (value : number) (item : DataRow) :
  ToString (row_get "item_id" item) <> itemId ->
  App.with_override (App.handleManualUpdate itemId field value prev) item
  = App.with_override prev item.
Proof.
  intros Hne. unfold App.with_override. rewrite override_of_update.
  destruct (String.eqb_spec (ToString (row_get "item_id" item)) itemId);
    [contradiction|reflexivity].
Qed.

Lemma manual_update_elsewhere_witness :
  App.with_override
    (App.handleManualUpdate "B7" App.Inventory_qty (Fin 3) ∅) legacy_A1
  = App.with_override ∅ legacy_A1.
Proof.
  apply (manual_update_elsewhere ∅ "B7" App.Inventory_qty (Fin 3) legacy_A1).
  discriminate.
Defined.

(** *** Results without overrides *)

Lemma upper_char_not_lower (c : ascii) : is_lower (upper_char c) = false.
Proof. destruct c as [[] [] [] [] [] [] [] []]; reflexivity. Qed.

Lemma toUpperCase_no_lower (s : string) :
  all_chars (fun c => negb (is_lower c)) (toUpperCase s) = true.
Proof.
  induction s as [|c s IH]; [reflexivity|].
  change (toUpperCase (String c s)) with (String (upper_char c) (toUpperCase s)).
  cbn [all_chars]. now rewrite upper_char_not_lower, IH.
Qed.

(** A string in upper case is no name of [Object.prototype]. *)
Lemma upper_case_not_inherited (s : string) :
  existsb (String.eqb (toUpperCase s)) App.Object_prototype_names = false.
Proof.
  pose proof (toUpperCase_no_lower s) as H.
  apply not_true_iff_false. intros E.
  apply existsb_exists in E as (name & Hin & Heq).
  apply String.eqb_eq in Heq. rewrite Heq in H.
  repeat (destruct Hin as [<-|Hin]; [discriminate H|]). destruct Hin.
Qed.

Lemma with_override_none (item : DataRow) :
  existsb (String.eqb (ToString (row_get "item_id" item)))
    App.Object_prototype_names = false ->
  App.with_override ∅ item = item.
Proof.
  intros H. unfold App.with_override, App.override_of.
  now rewrite lookup_empty, H.
Qed.

(** The [item_id] of a cleaned row of a parsed file: nothing, [null], or
    a string in upper case. *)
Lemma cleaned_parsed_item_id (text sourceName : string) (r : DataRow) (t : string) :
  In r (cleanData (parseCSV text) sourceName) ->
  In t textColumns ->
  row_get t r = VUndef \/ row_get t r = VNull \/
  exists s, row_get t r = VStr (toUpperCase s).
Proof.
  destruct (parseCSV text) as [|first rest] eqn:E; [intros []|].
  rewrite cleanData_nonempty by discriminate.
  rewrite <- E, JSON_rows_parseCSV. intros Hr Ht.
  apply in_map_iff in Hr as (r0 & <- & Hr0). unfold clean_row.
  rewrite fold_clean_text_get by (exact textColumns_NoDup || exact Ht).
  rewrite fold_clean_qty_notin.
  2:{ intros Hin. unfold qtyColumns in Hin. apply filter_In in Hin as [_ Hq].
      exact (qty_column_not_text _ Hq Ht). }
  destruct (row_get t r0) as [| |n|s] eqn:Eg; cbn [clean_text_value]; auto.
  - exfalso.
    assert (Hin : In (t, VNum n) r0).
    { clear - Eg. induction r0 as [|[k v] r0 IH]; cbn in Eg; [discriminate|].
      destruct (String.eqb_spec t k) as [->|]; [left; now subst|right; auto]. }
    destruct (parseCSV_entries _ _ _ _ Hr0 Hin) as [H|[s H]]; discriminate.
  - right. right. destruct (String.eqb_spec s "") as [->|].
    + now exists "".
    + now exists (trim s).
Qed.

(** X26.  Before any value is entered by hand, what is shown is what
    [processFiles] returned: no [item_id] of a consolidated row can be
    taken for a property that the overrides inherit. *)
Theorem resultsWithOverrides_initial (Date_parse : string -> option Z)
    (LocalTZA : Z -> bool -> Z) (now : Z) (files : Files.FileState)
    (p : Processed.ProcessedData) :
  processFiles Date_parse LocalTZA now files = Return p ->
  App.resultsWithOverrides (Some p) ∅ = Some p.
Proof.
  intros E.
  apply processFiles_Return in E as (tl & ts & tu & tr & tb & _ & _ & _ & _ & _ & ->).
  unfold App.resultsWithOverrides, processed. cbv zeta.
  cbn [Processed.inconsistencies Processed.cleaningSteps
       Processed.consolidatedInventory Processed.consolidatedOrders
       Processed.consolidatedReturns Processed.report
       Processed.disruptionAnalysis Processed.sourceData].
  do 2 f_equal.
  rewrite <- (map_id (inventory _)) at 2. apply map_ext_in. intros x Hx.
  apply with_override_none.
  apply inventory_origin in Hx
    as (Ht & _ & [(r & Hr & ->)|[(r & Hr & ->)|(r & Hr & ->)]]);
    cbn [inventory_row row_get String.eqb Ascii.eqb Bool.eqb] in *;
    (eapply cleaned_parsed_item_id in Hr; [|left; reflexivity]);
    destruct Hr as [Hr|[Hr|[s Hr]]]; rewrite Hr in *; try discriminate Ht;
    apply upper_case_not_inherited.
Qed.

Lemma resultsWithOverrides_initial_witness :
  let p :=
    processed ISO_date_parse (fun _ _ => 0) 1704153600000
      ("item_id,inventory_qty,last_updated" +:+ String LF "a1,100,2024-01-01")
      ("item_id,inventory_qty,last_updated" +:+ String LF "A1,120,2024-01-02")
      ("item_id,shipment_qty,shipment_date" +:+ String LF "A1,many,2024-01-02")
      "" "" in
  App.resultsWithOverrides (Some p) ∅ = Some p.
Proof.
  apply (resultsWithOverrides_initial ISO_date_parse (fun _ _ => 0) 1704153600000
           sample_files).
  reflexivity.
Defined.

(** ** Rows of the same date *)

Section Stable.
Context {A : Type} (compareFn : A -> A -> number).
Variables (p : A -> bool) (measure : A -> Z).

Lemma find_sort_insert (x : A) (s : list A) :
  (forall y, In y s ->
     is_positive (compareFn x y) = (measure x <? measure y)) ->
  StronglySorted (fun a b => measure b <= measure a) s ->
  List.find p (sort_insert compareFn x s)
  = match List.find p s with
    | Some b => if p x && (measure b <=? measure x) then Some x else Some b
    | None => if p x then Some x else None
    end.
Proof.
  induction s as [|z s IH]; cbn [sort_insert List.find]; intros Hc Hs.
  - reflexivity.
  - apply StronglySorted_inv in Hs as [Hs Hz].
    rewrite (Hc z) by now left.
    destruct (Z.ltb_spec (measure x) (measure z)) as [Hlt|Hge]; cbn [List.find].
    + destruct (p z) eqn:Ez.
      * replace (measure z <=? measure x) with false
          by (symmetry; apply Z.leb_gt; lia).
        now rewrite andb_false_r.
      * apply IH; [|exact Hs]. intros y Hy. apply Hc. now right.
    + destruct (p x) eqn:Ex; cbn [andb].
      2:{ destruct (p z); [reflexivity|]. now destruct (List.find p s). }
      destruct (p z) eqn:Ez.
      * replace (measure z <=? measure x) with true
          by (symmetry; apply Z.leb_le; lia).
        reflexivity.
      * destruct (List.find p s) as [b|] eqn:Eb; [|reflexivity].
        apply find_some in Eb as [Hb _].
        rewrite List.Forall_forall in Hz. specialize (Hz b Hb).
        replace (measure b <=? measure x) with true
          by (symmetry; apply Z.leb_le; lia).
        reflexivity.
Qed.

(** The first row of the sorted list that satisfies [p]. *)
Lemma find_Array_sort (l : list A) :
  (forall x y, In x l -> In y l ->
     is_positive (compareFn x y) = (measure x <? measure y)) ->
  List.find p (Array_sort compareFn l) = first_greatest p measure l.
Proof.
  induction l as [|x l IH]; intros Hc; [reflexivity|].
  change (Array_sort compareFn (x :: l))
    with (sort_insert compareFn x (Array_sort compareFn l)).
  rewrite find_sort_insert.
  - rewrite IH by (intros a b Ha Hb; apply Hc; now right). reflexivity.
  - intros y Hy. apply (proj1 (Array_sort_In _ _ _)) in Hy.
    apply Hc; [now left|now right].
  - apply Array_sort_sorted. intros a b Ha Hb. apply Hc; now right.
Qed.

End Stable.

Section FirstGreatest.
Context {A : Type} (p : A -> bool) (measure : A -> Z).

Lemma first_greatest_None (l : list A) (y : A) :
  first_greatest p measure l = None -> In y l -> p y = false.
Proof.
  induction l as [|x l IH]; cbn; [tauto|].
  destruct (first_greatest p measure l) as [b|].
  - destruct (_ && _); discriminate.
  - destruct (p x) eqn:Ex; [discriminate|]. intros _ [<-|Hy]; auto.
Qed.

(** The row found is in the list; the rows before it that satisfy [p]
    are of a smaller measure, those after it of no greater one. *)
Lemma first_greatest_Some (l : list A) (x : A) :
  first_greatest p measure l = Some x ->
  p x = true /\
  exists l1 l2, l = l1 ++ x :: l2 /\
    (forall y, In y l1 -> p y = true -> measure y < measure x) /\
    (forall y, In y l2 -> p y = true -> measure y <= measure x).
Proof.
  revert x. induction l as [|z l IH]; cbn [first_greatest]; intros x;
    [discriminate|].
  destruct (first_greatest p measure l) as [b|] eqn:Eb.
  - destruct (IH b eq_refl) as (Hpb & l1 & l2 & El & Hbefore & Hafter).
    destruct (p z) eqn:Ez; cbn [andb].
    + destruct (Z.leb_spec (measure b) (measure z)) as [Hle|Hgt]; intros [= <-].
      * split; [exact Ez|]. exists [], l. split; [reflexivity|].
        split; [intros y []|]. intros y Hy Hpy. rewrite El in Hy.
        apply in_app_or in Hy as [Hy|[<-|Hy]].
        -- specialize (Hbefore y Hy Hpy). lia.
        -- exact Hle.
        -- specialize (Hafter y Hy Hpy). lia.
      * split; [exact Hpb|]. exists (z :: l1), l2. rewrite El.
        split; [reflexivity|]. split; [|exact Hafter].
        intros y [<-|Hy] Hpy; [lia|auto].
    + intros [= <-]. split; [exact Hpb|]. exists (z :: l1), l2. rewrite El.
      split; [reflexivity|]. split; [|exact Hafter].
      intros y [<-|Hy] Hpy; [congruence|auto].
  - destruct (p z) eqn:Ez; [|discriminate]. intros [= <-].
    split; [exact Ez|]. exists [], l. split; [reflexivity|].
    split; [intros y []|]. intros y Hy Hpy.
    rewrite (first_greatest_None l y Eb Hy) in Hpy. discriminate.
Qed.

End FirstGreatest.

(** The row kept for a key is, among the rows of the key, one of the
    latest date, and the first of them in the list. *)
Lemma unique_sorted_first (Date_parse : string -> option Z) (key : string)
    (rows : list DataRow) (x : DataRow) :
  dated Date_parse rows ->
  In x (map_values (unique_by key (Array_sort (by_recency Date_parse) rows))) ->
  exists l1 l2, rows = l1 ++ x :: l2 /\
    (forall y, In y l1 ->
       same_value_zero (row_get key y) (row_get key x) = true ->
       older Date_parse y x) /\
    (forall y, In y l2 ->
       same_value_zero (row_get key y) (row_get key x) = true ->
       as_recent Date_parse x y).
Proof.
  intros Hd Hx.
  set (time := fun r => default 0 (Date_of Date_parse (row_get "last_updated" r))).
  apply in_map_iff in Hx as ([k0 x0] & <- & Hin). cbn [snd].
  pose proof (map_get_In _ _ _ (unique_by_distinct key _) Hin) as Hget.
  rewrite unique_by_get in Hget.
  rewrite (find_Array_sort _ _ time) in Hget
    by (intros a b Ha Hb; apply by_recency_positive; now apply Hd).
  apply first_greatest_Some in Hget as (Hk & l1 & l2 & E & Hbefore & Hafter).
  assert (Hkey : forall y,
            same_value_zero (row_get key y) (row_get key x0) = true ->
            same_value_zero (row_get key y) k0 = true).
  { intros y Hy. exact (same_value_zero_trans _ _ _ Hy Hk). }
  assert (Hx0 : In x0 rows) by (rewrite E; apply in_or_app; right; now left).
  assert (Htime : forall r, In r rows ->
            Date_of Date_parse (row_get "last_updated" r) = Some (time r)).
  { intros r Hr. specialize (Hd r Hr). unfold time.
    destruct (Date_of Date_parse (row_get "last_updated" r)); [reflexivity|congruence]. }
  exists l1, l2. split; [exact E|]. split.
  - intros y Hy Hyk. exists (time x0), (time y).
    split; [now apply Htime|]. split.
    + apply Htime. rewrite E. apply in_or_app. now left.
    + apply Hbefore; auto.
  - intros y Hy Hyk. exists (time x0), (time y).
    split; [now apply Htime|]. split.
    + apply Htime. rewrite E. apply in_or_app. right. now right.
    + apply Hafter; auto.
Qed.

(** X27.  Ties go to the first source: when the dates of the competing
    rows all read as times, the consolidated row of an [item_id] stands in
    the list of competing rows (legacy rows, then spreadsheet rows, then
    supplier rows) after rows of that [item_id] that are all older, and
    before rows of that [item_id] that are none more recent; so of two
    rows of the same date, the one of the earlier source is kept. *)
Theorem consolidateData_first_of_latest (Date_parse : string -> option Z)
    (legacy spreadsheet supplier reverseLogistics : list DataRow) (x : DataRow) :
  dated Date_parse (combinedInv legacy spreadsheet supplier) ->
  In x (inventory
          (consolidateData Date_parse legacy spreadsheet supplier reverseLogistics)) ->
  exists l1 l2,
    combinedInv legacy spreadsheet supplier = l1 ++ x :: l2 /\
    (forall y, In y l1 ->
       same_value_zero (row_get "item_id" y) (row_get "item_id" x) = true ->
       older Date_parse y x) /\
    (forall y, In y l2 ->
       same_value_zero (row_get "item_id" y) (row_get "item_id" x) = true ->
       as_recent Date_parse x y).
Proof.
  rewrite consolidateData_inventory. apply unique_sorted_first.
Qed.

Lemma consolidateData_first_of_latest_witness :
  let x := inventory_row "Legacy" "inventory_qty" "last_updated" legacy_A1 in
  exists l1 l2,
    combinedInv [legacy_A1] [spreadsheet_A1_same_day] [] = l1 ++ x :: l2 /\
    (forall y, In y l1 ->
       same_value_zero (row_get "item_id" y) (row_get "item_id" x) = true ->
       older ISO_date_parse y x) /\
    (forall y, In y l2 ->
       same_value_zero (row_get "item_id" y) (row_get "item_id" x) = true ->
       as_recent ISO_date_parse x y).
Proof.
  apply (consolidateData_first_of_latest ISO_date_parse
           [legacy_A1] [spreadsheet_A1_same_day] [] []).
  - intros r [<-|[<-|[]]]; vm_compute; discriminate.
  - vm_compute. left. reflexivity.
Defined.

(** ** Cells and columns *)

Lemma build_row_absent (values header : list string) (h : string) :
  forall (index : nat) (obj : DataRow) (inherits : bool),
    ~ In h header ->
    row_get h (build_row values header index obj inherits) = row_get h obj.
Proof.
  induction header as [|k header IH]; cbn [build_row];
    intros index obj inherits Hh; [reflexivity|].
  destruct (String.eqb k "__proto__" && inherits);
    rewrite IH by (cbn in Hh; tauto); [reflexivity|].
  apply row_get_set_ne. intros ->. apply Hh. now left.
Qed.

(** The field of a column is read from the cell at the place of the last
    column of that name. *)
Lemma build_row_column (values header : list string) (h : string) :
  h <> "__proto__" ->
  forall (index i : nat) (obj : DataRow) (inherits : bool),
    header !! i = Some h ->
    (forall i', header !! i' = Some h -> (i' <= i)%nat) ->
    row_get h (build_row values header index obj inherits)
    = parse_cell (nth_error values (index + i)).
Proof.
  intros Hproto.
  induction header as [|k header IH]; intros index i obj inherits Hi Hlast;
    [discriminate|].
  cbn [build_row]. destruct i as [|i].
  - injection Hi as ->.
    destruct (String.eqb_spec h "__proto__") as [E|_]; [contradiction|].
    cbn [andb]. rewrite build_row_absent.
    + rewrite row_get_set_eq. now rewrite Nat.add_0_r.
    + intros Hin. apply list_elem_of_In, list_elem_of_lookup_1 in Hin as [j Hj].
      specialize (Hlast (S j) Hj). lia.
  - assert (Hnext : forall obj' inherits',
              row_get h (build_row values header (S index) obj' inherits')
              = parse_cell (nth_error values (index + S i))).
    { intros obj' inherits'. rewrite (IH (S index) i).
      - f_equal. f_equal. lia.
      - exact Hi.
      - intros i' Hi'. specialize (Hlast (S i') Hi'). lia. }
    destruct (String.eqb k "__proto__" && inherits); apply Hnext.
Qed.

(** A row has no more properties than the header has columns. *)
Lemma build_row_length (header values : list string) :
  forall (index : nat) (obj : DataRow) (inherits : bool),
    (length (Object_keys (build_row values header index obj inherits))
     <= length (Object_keys obj) + length header)%nat.
Proof.
  unfold Object_keys.
  induction header as [|k header IH]; intros index obj inherits;
    cbn [build_row]; [cbn; lia|].
  rewrite (length_cons k header).
  destruct (String.eqb k "__proto__" && inherits).
  - specialize (IH (S index) obj
                  match parse_cell (nth_error values index) with
                  | VNull => false
                  | _ => true
                  end). lia.
  - specialize (IH (S index)
                  (row_set k (parse_cell (nth_error values index)) obj) inherits).
    assert (length (map fst (row_set k (parse_cell (nth_error values index)) obj))
            <= S (length (map fst obj)))%nat; [|lia].
    clear. induction obj as [|[k0 v0] obj IHo]; cbn; [lia|].
    destruct (String.eqb k k0); cbn; lia.
Qed.

(** X28.  Fields go by position: in the row of a data line, the field of
    a column holds what the cell at the place of that column holds (the
    last column of the name, should the header repeat it), and [null] when
    the line has no cell there; cells beyond the header are ignored.  The
    name [__proto__] is left aside: an assignment to it need not create a
    property. *)
Theorem parseCSV_cells (text : string) (j i : nat) (line h : string) :
  let lines := split_lines (trim text) in
  let header := map trim (split COMMA (hd "" lines)) in
  tl lines !! j = Some line ->
  header !! i = Some h ->
  h <> "__proto__" ->
  (forall i', header !! i' = Some h -> (i' <= i)%nat) ->
  exists row,
    parseCSV text !! j = Some row /\
    (length (Object_keys row) <= length header)%nat /\
    row_get h row = parse_cell (nth_error (split COMMA line) i).
Proof.
  intros lines header Hline Hh Hproto Hlast. unfold parseCSV. fold lines.
  destruct (Nat.ltb_spec (length lines) 2) as [Hlen|Hlen].
  { exfalso. destruct lines as [|l0 [|l1 ls]]; try discriminate Hline.
    cbn in Hlen. lia. }
  fold header. rewrite lookup_map, Hline. cbn [fmap option_fmap option_map].
  eexists. split; [reflexivity|]. split.
  - apply (build_row_length header (split COMMA line) 0 [] true).
  - now rewrite (build_row_column _ _ h Hproto 0 i).
Qed.

Lemma parseCSV_cells_witness :
  exists row,
    parseCSV ("item_id,qty,note" +:+ String LF "a1,5" +:+ String LF "b2,7,x,y")
      !! 0%nat = Some row /\
    (length (Object_keys row) <= 3)%nat /\
    row_get "note" row = parse_cell (nth_error ["a1"; "5"] 2).
Proof.
  apply (parseCSV_cells
           ("item_id,qty,note" +:+ String LF "a1,5" +:+ String LF "b2,7,x,y")
           0 2 "a1,5" "note").
  - reflexivity.
  - reflexivity.
  - discriminate.
  - intros [|[|[|i']]]; vm_compute; intros H; try discriminate H; lia.
Defined.

(** ** Shipment dates *)

Lemma span_all (p : ascii -> bool) (a rest : string) :
  all_chars p a = true ->
  match rest with
  | EmptyString => True
  | String c _ => p c = false
  end ->
  span p (a +:+ rest) = (a, rest).
Proof.
  intros Ha Hrest. induction a as [|x a IH].
  - rewrite append_nil_l. destruct rest as [|c rest]; cbn; [reflexivity|].
    now rewrite Hrest.
  - cbn [all_chars] in Ha. apply andb_true_iff in Ha as [Hx Ha].
    rewrite append_cons. cbn [span]. now rewrite Hx, (IH Ha).
Qed.

(** X29.  A shipment date written month/day/year is read as
    year-month-day, digit for digit (no zero is added), with what follows
    the year left in place. *)
Theorem replace_mdy_rewrites (m d y rest : string) :
  numeral m -> numeral d -> numeral y ->
  match rest with
  | EmptyString => True
  | String c _ => is_digit c = false
  end ->
  replace_mdy (m +:+ "/" +:+ d +:+ "/" +:+ y +:+ rest)
  = y +:+ "-" +:+ m +:+ "-" +:+ d +:+ rest.
Proof.
  intros [Hm0 Hm] [Hd0 Hd] [Hy0 Hy] Hrest.
  assert (E : match_mdy (m +:+ "/" +:+ d +:+ "/" +:+ y +:+ rest)
              = Some (y +:+ "-" +:+ m +:+ "-" +:+ d +:+ rest)).
  { unfold match_mdy.
    change ("/" +:+ d +:+ "/" +:+ y +:+ rest)
      with (String "/" (d +:+ "/" +:+ y +:+ rest)).
    rewrite (span_all is_digit m) by (exact Hm || reflexivity).
    destruct m as [|cm m]; [contradiction|].
    change ("/" +:+ y +:+ rest) with (String "/" (y +:+ rest)).
    rewrite (span_all is_digit d) by (exact Hd || reflexivity).
    destruct d as [|cd d]; [contradiction|].
    rewrite (span_all is_digit y) by (exact Hy || exact Hrest).
    destruct y as [|cy y]; [contradiction|]. reflexivity. }
  destruct (m +:+ "/" +:+ d +:+ "/" +:+ y +:+ rest) eqn:Es;
    cbn [replace_mdy]; now rewrite E.
Qed.

Lemma replace_mdy_rewrites_witness :
  replace_mdy ("12" +:+ "/" +:+ "1" +:+ "/" +:+ "2034" +:+ "")
  = "2034" +:+ "-" +:+ "12" +:+ "-" +:+ "1" +:+ "".
Proof.
  apply (replace_mdy_rewrites "12" "1" "2034" "").
  - split; [discriminate|reflexivity].
  - split; [discriminate|reflexivity].
  - split; [discriminate|reflexivity].
  - exact I.
Defined.
